(** * Laminar: the job scheduler and run lifecycle engine

    A shallow embedding of [src/laminar.cpp]: the node registry, the queue,
    the active set, the admission loop, run startup, the stepwise run
    executor, the terminal transition, configuration reload and the parts
    of the status broadcaster that report logs and page counts.

    The scheduler is single threaded: every member function of [Laminar]
    is a function on the record [Laminar] below, and every reactor callback
    is one [Input] of the transition function [react]. *)

From Stdlib Require Import ZArith Lia Ascii.
From stdpp Require Import base gmap strings list fin_maps pretty.

Open Scope Z_scope.

(** ** Machine integers *)

(** [uint]: unsigned 32-bit arithmetic wraps modulo 2^32. *)
Definition to_uint (z : Z) : Z := z mod 2 ^ 32.

(** [int]: signed 32-bit, two's complement wrap-around. *)
Definition to_int (z : Z) : Z := (z + 2 ^ 31) mod 2 ^ 32 - 2 ^ 31.

Definition int_range (z : Z) : Prop := - 2 ^ 31 ≤ z < 2 ^ 31.

(** ** Strings *)

Definition NUL : ascii := Ascii.zero.

(** [std::string(n, '\0')] *)
Fixpoint zeros (n : nat) : string :=
  match n with
  | O => EmptyString
  | S k => String NUL (zeros k)
  end.

(** [const char*] view of a [std::string]: the bytes before the first NUL. *)
Fixpoint c_str (s : string) : string :=
  match s with
  | EmptyString => EmptyString
  | String c rest => if decide (c = NUL) then EmptyString else String c (c_str rest)
  end.

(** The loop [while(std::getline(iss, tag, ','))]: [cur] is the tag read
    so far. A field closed by a comma is produced even when empty; the
    last field is produced only when at least one character was read. *)
Fixpoint getlines (cur s : string) : list string :=
  match s with
  | EmptyString => if decide (cur = EmptyString) then [] else [cur]
  | String c rest =>
      if decide (c = ","%char) then cur :: getlines EmptyString rest
      else getlines (cur +:+ String c EmptyString) rest
  end.

(** The tag set built from the value of a [TAGS] key. *)
Definition tagList (tags : string) : gset string := list_to_set (getlines EmptyString tags).

(** [atoi] on an optional sign followed by decimal digits; conversion stops
    at the first other character. *)
Definition digit (c : ascii) : option Z :=
  let n := Z.of_N (Ascii.N_of_ascii c) in
  if bool_decide (48 ≤ n ≤ 57) then Some (n - 48) else None.

Fixpoint atoi_digits (acc : Z) (s : string) : Z :=
  match s with
  | EmptyString => acc
  | String c rest =>
      match digit c with
      | Some d => atoi_digits (10 * acc + d) rest
      | None => acc
      end
  end.

Definition atoi (s : string) : Z :=
  match s with
  | String "-"%char rest => to_int (- atoi_digits 0 rest)
  | String "+"%char rest => to_int (atoi_digits 0 rest)
  | _ => to_int (atoi_digits 0 s)
  end.

(** ** Data model *)

Inductive RunState := UNKNOWN | PENDING | RUNNING | ABORTED | FAILED | SUCCESS.

#[global] Instance RunState_eq_dec : EqDecision RunState.
Proof. solve_decision. Defined.

(** A worker pool. The registry and the runs refer to a node by the
    address of the shared [Node] object. *)
Record Node := mkNode {
  nodeName : string;
  numExecutors : Z;
  busyExecutors : Z;
  tags : gset string
}.

(** Modelled from the spec: the constructor of [Node] (node.h is not part
    of the sources): capacity defaults to 6, a new node is idle and has no
    name and no tags. *)
Definition newNode : Node :=
  {| nodeName := EmptyString; numExecutors := 6; busyExecutors := 0; tags := ∅ |}.

Record Script := mkScript { path : string; cwd : string }.

(** Where the promise chain of [handleRunStep] stands for an admitted run. *)
Inductive Phase :=
| NotStarted
| Draining (exited : option Z)
| AwaitExit
| Ready.

Record Run := mkRun {
  rid : nat;
  name : string;
  build : Z;
  node : option nat;
  queuedAt : Z;
  startedAt : Z;
  params : gmap string string;
  parentName : string;
  parentBuild : Z;
  reasonMsg : string;
  scripts : list Script;
  env : list string;
  runDir : string;
  log : string;
  result : RunState;
  lastResult : RunState;
  timeout : option Z;
  started : bool;
  phase : Phase
}.

Definition with_params (p : gmap string string) (r : Run) : Run :=
  mkRun (rid r) (name r) (build r) (node r) (queuedAt r) (startedAt r) p
        (parentName r) (parentBuild r) (reasonMsg r) (scripts r) (env r) (runDir r)
        (log r) (result r) (lastResult r) (timeout r) (started r) (phase r).

Definition with_scripts (sc : list Script) (r : Run) : Run :=
  mkRun (rid r) (name r) (build r) (node r) (queuedAt r) (startedAt r) (params r)
        (parentName r) (parentBuild r) (reasonMsg r) sc (env r) (runDir r)
        (log r) (result r) (lastResult r) (timeout r) (started r) (phase r).

Definition with_env (e : list string) (r : Run) : Run :=
  mkRun (rid r) (name r) (build r) (node r) (queuedAt r) (startedAt r) (params r)
        (parentName r) (parentBuild r) (reasonMsg r) (scripts r) e (runDir r)
        (log r) (result r) (lastResult r) (timeout r) (started r) (phase r).

Definition with_runDir (d : string) (r : Run) : Run :=
  mkRun (rid r) (name r) (build r) (node r) (queuedAt r) (startedAt r) (params r)
        (parentName r) (parentBuild r) (reasonMsg r) (scripts r) (env r) d
        (log r) (result r) (lastResult r) (timeout r) (started r) (phase r).

Definition with_log (l : string) (r : Run) : Run :=
  mkRun (rid r) (name r) (build r) (node r) (queuedAt r) (startedAt r) (params r)
        (parentName r) (parentBuild r) (reasonMsg r) (scripts r) (env r) (runDir r)
        l (result r) (lastResult r) (timeout r) (started r) (phase r).

Definition with_result (x : RunState) (r : Run) : Run :=
  mkRun (rid r) (name r) (build r) (node r) (queuedAt r) (startedAt r) (params r)
        (parentName r) (parentBuild r) (reasonMsg r) (scripts r) (env r) (runDir r)
        (log r) x (lastResult r) (timeout r) (started r) (phase r).

Definition with_timeout (t : option Z) (r : Run) : Run :=
  mkRun (rid r) (name r) (build r) (node r) (queuedAt r) (startedAt r) (params r)
        (parentName r) (parentBuild r) (reasonMsg r) (scripts r) (env r) (runDir r)
        (log r) (result r) (lastResult r) t (started r) (phase r).

Definition with_phase (p : Phase) (r : Run) : Run :=
  mkRun (rid r) (name r) (build r) (node r) (queuedAt r) (startedAt r) (params r)
        (parentName r) (parentBuild r) (reasonMsg r) (scripts r) (env r) (runDir r)
        (log r) (result r) (lastResult r) (timeout r) (started r) p.

(** [Run::addScript(path, cwd)] and [Run::addEnv(path)] append. *)
Definition addScript (p c : string) (r : Run) : Run :=
  with_scripts (scripts r ++ [mkScript p c]) r.

Definition addEnv (p : string) (r : Run) : Run := with_env (env r ++ [p]) r.

(** One row of the table [builds]. *)
Record BuildRow := mkRow {
  b_name : string;
  b_number : Z;
  b_node : string;
  b_queuedAt : Z;
  b_startedAt : Z;
  b_completedAt : Z;
  b_result : RunState;
  b_output : string;
  b_outputLen : Z;
  b_parentJob : string;
  b_parentBuild : Z;
  b_reason : string
}.

Inductive ScopeType := HOME | ALL | JOB | RUN | LOG.

#[global] Instance ScopeType_eq_dec : EqDecision ScopeType.
Proof. solve_decision. Defined.

Record MonitorScope := mkScope {
  stype : ScopeType;
  job : string;
  num : Z;
  page : Z;
  field : string;
  order_desc : bool
}.

Record LaminarClient := mkClient { cid : nat; scope : MonitorScope }.

(** The members of a [status] document of JOB scope that are computed from
    scheduler state and from the build count. *)
Record JobStatus := mkJobStatus {
  js_pages : Z;
  js_sort_page : Z;
  js_sort_field : string;
  js_sort_order : string;
  js_running : list (Z * string * Z);
  js_nQueued : Z
}.

(** The payloads handed to [LaminarClient::sendMessage]. JSON documents are
    kept as their fields; the [status] documents of the scopes HOME, ALL
    and RUN are built from database queries only and are kept opaque. *)
Inductive Message :=
| job_queued (jname : string)
| job_started (queueIndex : Z) (jname : string) (queued started number : Z)
              (reason : string) (etc : option Z) (jtags : list string)
| job_completed (jname : string) (number queued completed started : Z)
                (res : RunState) (reason : string) (jtags : list string)
                (artifacts : list string)
| status_job (doc : JobStatus)
| status_other (t : ScopeType)
| raw (bytes : string).

(** What an observer of the scheduler sees, oldest first. [Sent c r m]:
    message [m] about the run with identity [r] was handed to client [c];
    [Reaped r st]: the exit status of a child of [r] was recorded;
    [Inserted row]: a row was written to [builds]; [Woken w r]: waiter [w]
    was told that [r] completed; [Status c m]: [sendStatus] answered client
    [c] with [m]. *)
Inductive Event :=
| Sent (c : nat) (r : nat) (m : Message)
| Reaped (r : nat) (st : Z)
| Inserted (row : BuildRow)
| Woken (w : nat) (r : nat)
| Status (c : nat) (m : Message).

(** ** The world outside the scheduler *)

Record NodeConf := mkNodeConf { nc_EXECUTORS : Z; nc_TAGS : string }.
Record JobConf := mkJobConf { jc_TAGS : string; jc_TIMEOUT : Z }.

(** The clock, the directory tree under [homeDir] and the parsed
    configuration files. [denied] holds the paths at which creating or
    removing a directory fails. [nodeConfs] and [jobConfs] list, in
    directory order, the regular files [cfg/nodes/<stem>.conf] and
    [cfg/jobs/<stem>.conf] with the values their keys parse to
    ([EXECUTORS] defaults to 6, [TIMEOUT] to 0, [TAGS] to the empty
    string). [keepRunDirs] is the environment variable
    LAMINAR_KEEP_RUNDIRS. *)
Record World := mkWorld {
  now : Z;
  dirs : gset string;
  files : gset string;
  denied : gset string;
  nodeConfs : list (string * NodeConf);
  jobConfs : list (string * JobConf);
  keepRunDirs : option string
}.

Definition with_tree (d f : gset string) (w : World) : World :=
  mkWorld (now w) d f (denied w) (nodeConfs w) (jobConfs w) (keepRunDirs w).

(** ** The scheduler *)

Record Laminar := mkLaminar {
  homeDir : string;
  numKeepRunDirs : Z;
  heap : list Node;
  nodes : gmap string nat;
  jobTags : gmap string (gset string);
  buildNums : gmap string Z;
  queuedJobs : list Run;
  activeJobs : list Run;
  clients : list LaminarClient;
  waiters : list nat;
  db : list BuildRow;
  nextRun : nat;
  world : World;
  trace : list Event
}.

Definition with_heap (h : list Node) (s : Laminar) : Laminar :=
  mkLaminar (homeDir s) (numKeepRunDirs s) h (nodes s) (jobTags s) (buildNums s)
            (queuedJobs s) (activeJobs s) (clients s) (waiters s) (db s) (nextRun s) (world s) (trace s).

Definition with_nodes (n : gmap string nat) (s : Laminar) : Laminar :=
  mkLaminar (homeDir s) (numKeepRunDirs s) (heap s) n (jobTags s) (buildNums s)
            (queuedJobs s) (activeJobs s) (clients s) (waiters s) (db s) (nextRun s) (world s) (trace s).

Definition with_jobTags (t : gmap string (gset string)) (s : Laminar) : Laminar :=
  mkLaminar (homeDir s) (numKeepRunDirs s) (heap s) (nodes s) t (buildNums s)
            (queuedJobs s) (activeJobs s) (clients s) (waiters s) (db s) (nextRun s) (world s) (trace s).

Definition with_buildNums (b : gmap string Z) (s : Laminar) : Laminar :=
  mkLaminar (homeDir s) (numKeepRunDirs s) (heap s) (nodes s) (jobTags s) b
            (queuedJobs s) (activeJobs s) (clients s) (waiters s) (db s) (nextRun s) (world s) (trace s).

Definition with_queuedJobs (q : list Run) (s : Laminar) : Laminar :=
  mkLaminar (homeDir s) (numKeepRunDirs s) (heap s) (nodes s) (jobTags s) (buildNums s)
            q (activeJobs s) (clients s) (waiters s) (db s) (nextRun s) (world s) (trace s).

Definition with_activeJobs (a : list Run) (s : Laminar) : Laminar :=
  mkLaminar (homeDir s) (numKeepRunDirs s) (heap s) (nodes s) (jobTags s) (buildNums s)
            (queuedJobs s) a (clients s) (waiters s) (db s) (nextRun s) (world s) (trace s).

Definition with_clients (c : list LaminarClient) (s : Laminar) : Laminar :=
  mkLaminar (homeDir s) (numKeepRunDirs s) (heap s) (nodes s) (jobTags s) (buildNums s)
            (queuedJobs s) (activeJobs s) c (waiters s) (db s) (nextRun s) (world s) (trace s).

Definition with_waiters (x : list nat) (s : Laminar) : Laminar :=
  mkLaminar (homeDir s) (numKeepRunDirs s) (heap s) (nodes s) (jobTags s) (buildNums s)
            (queuedJobs s) (activeJobs s) (clients s) x (db s) (nextRun s) (world s) (trace s).

Definition with_db (d : list BuildRow) (s : Laminar) : Laminar :=
  mkLaminar (homeDir s) (numKeepRunDirs s) (heap s) (nodes s) (jobTags s) (buildNums s)
            (queuedJobs s) (activeJobs s) (clients s) (waiters s) d (nextRun s) (world s) (trace s).

Definition with_nextRun (n : nat) (s : Laminar) : Laminar :=
  mkLaminar (homeDir s) (numKeepRunDirs s) (heap s) (nodes s) (jobTags s) (buildNums s)
            (queuedJobs s) (activeJobs s) (clients s) (waiters s) (db s) n (world s) (trace s).

Definition with_world (w : World) (s : Laminar) : Laminar :=
  mkLaminar (homeDir s) (numKeepRunDirs s) (heap s) (nodes s) (jobTags s) (buildNums s)
            (queuedJobs s) (activeJobs s) (clients s) (waiters s) (db s) (nextRun s) w (trace s).

Definition with_numKeepRunDirs (k : Z) (s : Laminar) : Laminar :=
  mkLaminar (homeDir s) k (heap s) (nodes s) (jobTags s) (buildNums s)
            (queuedJobs s) (activeJobs s) (clients s) (waiters s) (db s) (nextRun s) (world s) (trace s).

Definition emit (e : list Event) (s : Laminar) : Laminar :=
  mkLaminar (homeDir s) (numKeepRunDirs s) (heap s) (nodes s) (jobTags s) (buildNums s)
            (queuedJobs s) (activeJobs s) (clients s) (waiters s) (db s) (nextRun s) (world s)
            (trace s ++ e).

(** ** Admission policy: [Laminar::nodeCanQueue] *)

Definition nodeCanQueue (s : Laminar) (n : Node) (run : Run) : bool :=
  if bool_decide (numExecutors n ≤ busyExecutors n) then false
  else if bool_decide (size (tags n) = 0%nat) then true
  else match jobTags s !! name run with
       | None => false
       | Some jt => existsb (λ tag, bool_decide (tag ∈ tags n)) (elements jt)
       end.

(** The tags of the job of a run: the entry of [jobTags], none when the
    job has no entry. *)
Definition tagsOfJob (s : Laminar) (run : Run) : gset string :=
  default ∅ (jobTags s !! name run).

(** ** Collaborators declared outside laminar.cpp

    [wantsStatus] and [wantsLog] are the scope filters of [MonitorScope]
    ([queueJob] leaves the build number of [wantsStatus] to its default,
    taken to be 0), [reason] is [Run::reason], [compress] and [uncompress]
    are the deflate codec: called with the capacity of the destination
    buffer, they return the bytes written when the result is [Z_OK] and
    nothing otherwise. *)
Class Externals := {
  wantsStatus : MonitorScope → string → Z → bool;
  wantsLog : MonitorScope → string → Z → bool;
  reason : Run → string;
  compress : nat → string → option string;
  uncompress : nat → string → option string
}.

(** ** The directory tree *)

Definition pathcat (a b : string) : string := a +:+ "/" +:+ b.
Infix "</>" := pathcat (at level 45, left associativity).

Definition fs_exists (w : World) (p : string) : bool :=
  bool_decide (p ∈ dirs w ∪ files w).

Definition is_directory (w : World) (p : string) : bool := bool_decide (p ∈ dirs w).

(** [fs::create_directory(p, err)] and [fs::create_directories(p, err)]:
    true exactly when a directory was created. Only the paths the
    scheduler tests are tracked, so the parents that [create_directories]
    adds are left out. *)
Definition create_directory (p : string) (w : World) : bool * World :=
  if bool_decide (p ∈ denied w) then (false, w)
  else if fs_exists w p then (false, w)
  else (true, with_tree ({[p]} ∪ dirs w) (files w) w).

Definition below (p q : string) : bool :=
  bool_decide (q = p) || String.prefix (p +:+ "/") q.

(** [fs::remove_all(p, err)]: the first component is [err]. *)
Definition remove_all (p : string) (w : World) : bool * World :=
  if bool_decide (p ∈ denied w) then (true, w)
  else (false, with_tree (filter (λ q, below p q = false) (dirs w))
                         (filter (λ q, below p q = false) (files w)) w).

(** ** Queries on [builds] *)

(** [... WHERE name = ? ORDER BY completedAt DESC LIMIT 1] *)
Definition lastBuild (rows : list BuildRow) (n : string) : option BuildRow :=
  foldl (λ best row,
           if bool_decide (b_name row = n) then
             match best with
             | Some b => if bool_decide (b_completedAt b < b_completedAt row)
                         then Some row else Some b
             | None => Some row
             end
           else best) None rows.

(** [... WHERE name = ? AND number = ?] *)
Definition findBuild (rows : list BuildRow) (n : string) (k : Z) : option BuildRow :=
  List.find (λ row, bool_decide (b_name row = n ∧ b_number row = k)) rows.

(** [SELECT COUNT( * ) FROM builds WHERE name = ?] *)
Definition countBuilds (rows : list BuildRow) (n : string) : Z :=
  Z.of_nat (length (filter (λ row, b_name row = n) rows)).

(** [INSERT INTO builds]: (name, number) is the primary key. *)
Definition insertBuild (row : BuildRow) (rows : list BuildRow) : list BuildRow * list Event :=
  match findBuild rows (b_name row) (b_number row) with
  | Some _ => (rows, [])
  | None => (rows ++ [row], [Inserted row])
  end.

(** [SELECT name, MAX(number) FROM builds GROUP BY name] read into
    [buildNums] by the constructor. *)
Definition lastBuildNums (rows : list BuildRow) : gmap string Z :=
  foldl (λ m row,
           let k' := to_uint (b_number row) in
           match m !! b_name row with
           | Some k => if bool_decide (k < k') then <[b_name row := k']> m else m
           | None => <[b_name row := k']> m
           end) ∅ rows.

(** ** The active set *)

(** Modelled from the spec: [Laminar::activeRun] (laminar.h is not part of
    the sources) is the lookup of the active set by job name and build
    number. *)
Definition activeRun (s : Laminar) (jname : string) (buildNum : Z) : option Run :=
  List.find (λ r, bool_decide (name r = jname ∧ build r = buildNum)) (activeJobs s).

Definition activeById (s : Laminar) (r : nat) : option Run :=
  List.find (λ x, bool_decide (rid x = r)) (activeJobs s).

(** In-place update of the run object with identity [r]. *)
Definition updateRun (r : nat) (f : Run → Run) (l : list Run) : list Run :=
  map (λ x, if bool_decide (rid x = r) then f x else x) l.

(** [map[key]] on a map whose key is absent default-constructs the entry. *)
Definition touch {V} (k : string) (d : V) (m : gmap string V) : gmap string V :=
  match m !! k with
  | Some _ => m
  | None => <[k := d]> m
  end.

(** ** The run executor *)

(** Modelled from the spec: [Run::step] (run.cpp is not part of the
    sources) spawns the next script when the result so far is SUCCESS and
    scripts remain, and returns true when the run has no more steps. A
    fresh run counts as SUCCESS so far. *)
Definition step (r : Run) : bool * Run :=
  match scripts r with
  | _ :: rest => if decide (result r = SUCCESS) then (false, with_scripts rest r) else (true, r)
  | [] => (true, r)
  end.

(** Modelled from the spec: [Run::reaped] records the exit status: SUCCESS
    on exit 0, FAILED otherwise, ABORTED when the abort path set it. *)
Definition reaped (status : Z) (r : Run) : Run :=
  if decide (result r = ABORTED) then r
  else with_result (if decide (status = 0) then SUCCESS else FAILED) r.

(** Modelled from the spec: [Run::abort] sets the state to ABORTED (and
    signals the current child, whose exit the reactor then reports). *)
Definition abort (r : Run) : Run := with_result ABORTED r.

(** [Laminar::handleRunStep] up to its first suspension: either the run has
    no more steps and the returned promise is ready, or a child was spawned
    and the chain waits for its output. *)
Definition handleRunStep (r : Run) : Run :=
  let '(fin, r') := step r in
  if fin then with_phase Ready r' else with_phase (Draining None) r'.

(** ** Persisting and reading back a log *)

Definition COMPRESS_LOG_MIN_SIZE : Z := 1024.

Section Codec.
Context `{Externals}.

(** The blob and the length that [runFinished] binds as [output] and
    [outputLen]. *)
Definition persistLog (l : string) : string * Z :=
  let logsize := String.length l in
  if bool_decide (COMPRESS_LOG_MIN_SIZE ≤ Z.of_nat logsize) then
    match compress logsize l with
    | Some zipped => (zipped, Z.of_nat logsize)
    | None => (l, Z.of_nat logsize)
    end
  else (l, Z.of_nat logsize).

(** The lambda of the LOG branch of [sendStatus]: the message sent for a
    stored row, none when [uncompress] fails. The buffer [log] has [sz+1]
    bytes, [uncompress] overwrites its first bytes. *)
Definition fetchLog (maybeZipped : string) (sz : Z) : option string :=
  if bool_decide (COMPRESS_LOG_MIN_SIZE ≤ sz) then
    match uncompress (Z.to_nat sz) maybeZipped with
    | Some out => Some (out +:+ zeros (Z.to_nat (sz + 1) - String.length out))
    | None => None
    end
  else Some maybeZipped.

End Codec.

(** ** Configuration: [Laminar::loadConfiguration] *)

(** One iteration of the scan of [cfg/nodes]: the node object registered
    under the stem of the file is reused, or a new one is registered; the
    result carries the set [knownNodes]. *)
Definition loadNode (acc : Laminar * gset string) (entry : string * NodeConf)
  : Laminar * gset string :=
  let '(s, knownNodes) := acc in
  let '(nodeName', conf) := entry in
  let '(a, s1) :=
    match nodes s !! nodeName' with
    | Some a => (a, s)
    | None => (length (heap s),
               with_nodes (<[nodeName' := length (heap s)]> (nodes s))
                          (with_heap (heap s ++ [newNode]) s))
    end in
  let n := default newNode (heap s1 !! a) in
  let tags' := if decide (nc_TAGS conf = EmptyString) then tags n
               else tagList (nc_TAGS conf) in
  let n' := mkNode nodeName' (to_int (nc_EXECUTORS conf)) (busyExecutors n) tags' in
  (with_heap (<[a := n']> (heap s1)) s1, {[nodeName']} ∪ knownNodes).

Definition loadJob (s : Laminar) (entry : string * JobConf) : Laminar :=
  let '(jname, conf) := entry in
  if decide (jc_TAGS conf = EmptyString) then s
  else with_jobTags (<[jname := tagList (jc_TAGS conf)]> (jobTags s)) s.

Definition loadConfiguration (s : Laminar) : Laminar :=
  let s0 := match keepRunDirs (world s) with
            | Some ndirs => with_numKeepRunDirs (to_uint (atoi ndirs)) s
            | None => s
            end in
  let '(s1, knownNodes) := foldl loadNode (s0, ∅) (nodeConfs (world s0)) in
  (* remove any nodes whose config files disappeared *)
  let kept := filter (λ kv : string * nat,
                        (kv.1 = EmptyString ∧ size knownNodes = 0%nat) ∨ kv.1 ∈ knownNodes)
                     (nodes s1) in
  let s2 := with_nodes kept s1 in
  (* add a default node *)
  let s3 := if decide (nodes s2 = ∅) then
              with_nodes (<[EmptyString := length (heap s2)]> (nodes s2))
                (with_heap (heap s2 ++ [mkNode EmptyString 6 (busyExecutors newNode) (tags newNode)]) s2)
            else s2 in
  foldl loadJob s3 (jobConfs (world s3)).

Section Scheduler.
Context `{Externals}.

(** ** Run startup: [Laminar::tryStartRun] *)

(** The fan-out loop [for(LaminarClient* c : clients) if(...) c->sendMessage(msg)]. *)
Definition fanout (s : Laminar) (r : nat) (want : MonitorScope → bool) (m : Message)
  : list Event :=
  map (λ c, Sent (cid c) r m) (filter (λ c, want (scope c) = true) (clients s)).

(** The first node of the registry, in registry order, that accepts. *)
Definition acceptingNode (s : Laminar) (run : Run) : option (nat * Node) :=
  List.find (λ an : nat * Node, nodeCanQueue s an.2 run)
    (omap (λ kv : string * nat, (λ n, (kv.2, n)) <$> heap s !! kv.2)
          (map_to_list (nodes s))).

(** The run directory the next build of the job of [run] gets. *)
Definition nextBuildNum (s : Laminar) (run : Run) : Z :=
  to_uint (default 0 (buildNums s !! name run) + 1).

Definition runDirOf (s : Laminar) (run : Run) : string :=
  homeDir s </> "run" </> name run </> pretty (nextBuildNum s run).

Definition archiveOf (s : Laminar) (run : Run) : string :=
  homeDir s </> "archive" </> name run </> pretty (nextBuildNum s run).

Definition workspaceOf (s : Laminar) (run : Run) : string :=
  homeDir s </> "run" </> name run </> "workspace".

(** "create a workspace for this job if it doesn't exist": the flag is
    false when the source leaves the loop with [break]. *)
Definition makeWorkspace (run : Run) (s : Laminar) : bool * Run * World :=
  let jobCfg := homeDir s </> "cfg" </> "jobs" </> name run in
  let ws := workspaceOf s run in
  if fs_exists (world s) ws then (true, run, world s)
  else
    let '(made, w) := create_directory ws (world s) in
    if made then
      (true,
       (* prepend the workspace init script *)
       if fs_exists w (jobCfg +:+ ".init") then addScript (jobCfg +:+ ".init") ws run
       else run,
       w)
    else (false, run, w).

(** "create the run directory": a stale directory is removed first; when
    that fails the stale directory is used. *)
Definition makeRunDir (rd : string) (w : World) : bool * World :=
  let '(createWorkdir, w) :=
    if is_directory w rd then
      let '(err, w) := remove_all rd w in (negb err, w)
    else (true, w) in
  if createWorkdir then create_directory rd w else (true, w).

(** "create an archive directory". The source calls the overload of
    [create_directories] without an error code here; its failure is kept as
    the [false] that the source tests for. *)
Definition makeArchive (archive : string) (w : World) : bool * World :=
  if is_directory w archive then (true, w) else create_directory archive w.

(** "add scripts" and "add environment files" *)
Definition addScripts (s : Laminar) (n : Node) (w : World) (run : Run) : Run :=
  let cfgDir := homeDir s </> "cfg" in
  let jobCfg := cfgDir </> "jobs" </> name run in
  let nodeCfg := cfgDir </> "nodes" </> nodeName n in
  let opt (p : string) (r : Run) := if fs_exists w p then addScript p EmptyString r else r in
  let run := opt (cfgDir </> "before") run in
  let run := opt (nodeCfg +:+ ".before") run in
  let run := opt (jobCfg +:+ ".before") run in
  let run := addScript (jobCfg +:+ ".run") EmptyString run in
  let run := opt (jobCfg +:+ ".after") run in
  let run := opt (nodeCfg +:+ ".after") run in
  opt (cfgDir </> "after") run.

Definition addEnvs (s : Laminar) (n : Node) (w : World) (run : Run) : Run :=
  let cfgDir := homeDir s </> "cfg" in
  let jobCfg := cfgDir </> "jobs" </> name run in
  let nodeCfg := cfgDir </> "nodes" </> nodeName n in
  let opt (p : string) (r : Run) := if fs_exists w p then addEnv p r else r in
  let run := opt (cfgDir </> "env") run in
  let run := opt (nodeCfg +:+ ".env") run in
  opt (jobCfg +:+ ".env") run.

(** "add job timeout if specified" *)
Definition addTimeout (w : World) (run : Run) : Run :=
  match List.find (λ e : string * JobConf, bool_decide (e.1 = name run)) (jobConfs w) with
  | Some (_, conf) =>
      if bool_decide (0 < to_int (jc_TIMEOUT conf))
      then with_timeout (Some (to_int (jc_TIMEOUT conf))) run else run
  | None => run
  end.

(** "start the job" to the end of the loop body: the executor of node [a]
    is taken, the run gets its node, start time and build number, the
    clients are told, the started promise is fulfilled and the first step
    is spawned. *)
Definition launch (a : nat) (n : Node) (run : Run) (buildNum queueIndex : Z) (w : World)
    (s : Laminar) : Run * Laminar :=
  let n' := mkNode (nodeName n) (numExecutors n) (to_int (busyExecutors n + 1)) (tags n) in
  let s := with_heap (<[a := n']> (heap s)) s in
  let last := lastBuild (db s) (name run) in
  let run :=
    mkRun (rid run) (name run) buildNum (Some a) (queuedAt run) (now w) (params run)
          (parentName run) (parentBuild run) (reasonMsg run) (scripts run) (env run)
          (runDir run) (log run) (result run)
          (match last with Some row => b_result row | None => lastResult run end)
          (timeout run) (started run) (phase run) in
  (* update next build number *)
  let s := with_buildNums (<[name run := buildNum]> (buildNums s)) s in
  (* notify clients *)
  let s := with_jobTags (touch (name run) ∅ (jobTags s)) s in
  let msg :=
    job_started queueIndex (name run) (startedAt run - queuedAt run) (startedAt run)
      (build run) (reason run)
      ((λ row, now w + to_uint (b_completedAt row - b_startedAt row)) <$> last)
      (elements (default ∅ (jobTags s !! name run))) in
  let s := emit (fanout s (rid run)
                   (λ sc, wantsStatus sc (name run) (build run)
                          || (bool_decide (stype sc = RUN) && bool_decide (job sc = name run)))
                   msg) s in
  (* notify the rpc client if the start command was used *)
  let run :=
    mkRun (rid run) (name run) (build run) (node run) (queuedAt run) (startedAt run)
          (params run) (parentName run) (parentBuild run) (reasonMsg run) (scripts run)
          (env run) (runDir run) (log run) (result run) (lastResult run) (timeout run)
          true (phase run) in
  (* this actually spawns the first step *)
  (handleRunStep run, with_world w s).

(** The body of the loop of [tryStartRun] for the accepting node at
    address [a]. Each [break] of the source leaves the body with [false];
    the directories already made and the changes already made to the run
    stay. *)
Definition startRun (a : nat) (n : Node) (run : Run) (queueIndex : Z) (s : Laminar)
  : bool * Run * Laminar :=
  match makeWorkspace run s with
  | (false, run, w) => (false, run, with_world w s)
  | (true, run, w) =>
      let buildNum := nextBuildNum s run in
      let rd := runDirOf s run in
      let archive := archiveOf s run in
      let s := with_buildNums (touch (name run) 0 (buildNums s)) s in
      match makeRunDir rd w with
      | (false, w) => (false, run, with_world w s)
      | (true, w) =>
          let run := with_runDir rd run in
          match makeArchive archive w with
          | (false, w) => (false, run, with_world w s)
          | (true, w) =>
              let run := addTimeout w (addEnvs s n w (addScripts s n w run)) in
              let '(run, s) := launch a n run buildNum queueIndex w s in
              (true, run, s)
          end
      end
  end.

Definition tryStartRun (run : Run) (queueIndex : Z) (s : Laminar) : bool * Run * Laminar :=
  match acceptingNode s run with
  | Some (a, n) => startRun a n run queueIndex s
  | None => (false, run, s)
  end.

(** ** The admission loop: [Laminar::assignNewJobs] *)

(** Modelled from the spec: the container of [queuedJobs] is declared in
    laminar.h, which is not part of the sources; [std::distance(first,
    last)] on two of its iterators is the position of [last] minus the
    position of [first], so the distance from an iterator to the beginning
    of the queue is zero or negative. *)
Definition distance (first last : Z) : Z := last - first.

(** The loop over the queue. [kept] holds the runs before the iterator
    [it], which stay queued; [todo] is the range from [it] to the end. A
    started run is inserted into the active set and erased from the queue,
    which leaves the position of [it] unchanged. *)
Fixpoint assignLoop (kept todo : list Run) (s : Laminar) : Laminar :=
  match todo with
  | [] => with_queuedJobs kept s
  | run :: rest =>
      let it := Z.of_nat (length kept) in
      let '(ok, run', s') := tryStartRun run (distance it 0) s in
      if ok then assignLoop kept rest (with_activeJobs (activeJobs s' ++ [run']) s')
      else assignLoop (kept ++ [run']) rest s'
  end.

Definition assignNewJobs (s : Laminar) : Laminar := assignLoop [] (queuedJobs s) s.

(** ** Enqueue: [Laminar::queueJob] *)

Definition internalParam (k : string) : bool :=
  match k with
  | String c _ => bool_decide (c = "="%char)
  | EmptyString => false
  end.

(** The result is the state and the identity of the new run, none when the
    job has no run script. *)
Definition queueJob (jname : string) (ps : gmap string string) (s : Laminar)
  : option nat * Laminar :=
  if negb (fs_exists (world s) (homeDir s </> "cfg" </> "jobs" </> jname +:+ ".run"))
  then (None, s)
  else
    let run :=
      mkRun (nextRun s) jname 0 None (now (world s)) 0
            (filter (λ kv : string * string, internalParam kv.1 = false) ps)
            (default EmptyString (ps !! "=parentJob"))
            (default 0 (atoi <$> ps !! "=parentBuild"))
            (default EmptyString (ps !! "=reason"))
            [] [] EmptyString EmptyString SUCCESS UNKNOWN None false NotStarted in
    let s := with_nextRun (S (nextRun s)) (with_queuedJobs (queuedJobs s ++ [run]) s) in
    (* notify clients *)
    let s := emit (fanout s (rid run) (λ sc, wantsStatus sc jname 0) (job_queued jname)) s in
    (Some (rid run), assignNewJobs s).

(** ** Terminal transition: [Laminar::runFinished] *)

(** [populateArtifacts]: the regular files below the archive directory of
    the build. *)
Definition populateArtifacts (s : Laminar) (jname : string) (k : Z) : list string :=
  let dir := homeDir s </> "archive" </> jname </> pretty k in
  if is_directory (world s) dir
  then elements (filter (λ q, String.prefix (dir +:+ "/") q = true) (files (world s)))
  else [].

(** The loop that removes old run directories, counting [i] down; it stops
    at the first directory that does not exist. A directory that cannot be
    removed stays. [fuel] bounds the number of iterations, and [Z.to_nat i]
    is enough since [i] decreases down to 0. *)
Fixpoint sweep (fuel : nat) (i : Z) (base : string) (w : World) : World :=
  match fuel with
  | O => w
  | S fuel' =>
      if bool_decide (0 < i) then
        let d := base </> pretty i in
        if fs_exists w d then sweep fuel' (i - 1) base (remove_all d w).2 else w
      else w
  end.

(** [runFinished] up to its last statement. *)
Definition finishRun (r : Run) (s : Laminar) : Laminar :=
  let a := default O (node r) in
  let n := default newNode (heap s !! a) in
  let s := with_heap (<[a := mkNode (nodeName n) (numExecutors n)
                                   (to_int (busyExecutors n - 1)) (tags n)]> (heap s)) s in
  let completedAt := now (world s) in
  (* compress log *)
  let '(maybeZipped, logsize) := persistLog (log r) in
  let row := mkRow (name r) (build r) (nodeName n) (queuedAt r) (startedAt r) completedAt
                   (result r) maybeZipped logsize (parentName r) (parentBuild r) (reason r) in
  let '(rows, ins) := insertBuild row (db s) in
  let s := emit ins (with_db rows s) in
  (* notify clients *)
  let s := with_jobTags (touch (name r) ∅ (jobTags s)) s in
  let msg :=
    job_completed (name r) (build r) (startedAt r - queuedAt r) completedAt (startedAt r)
      (result r) (reason r) (elements (default ∅ (jobTags s !! name r)))
      (populateArtifacts s (name r) (build r)) in
  let s := emit (fanout s (rid r) (λ sc, wantsStatus sc (name r) (build r)) msg) s in
  (* notify the waiters *)
  let s := emit (map (λ w, Woken w (rid r)) (waiters s)) s in
  (* erase reference to run from activeJobs *)
  let s := with_activeJobs (filter (λ x, rid x ≠ rid r) (activeJobs s)) s in
  (* remove old run directories *)
  let s := with_buildNums
             (match filter (λ x, name x = name r) (activeJobs s) with
              | [] => touch (name r) 0 (buildNums s)
              | _ => buildNums s
              end) s in
  let oldestActive :=
    match filter (λ x, name x = name r) (activeJobs s) with
    | [] => default 0 (buildNums s !! name r)
    | first :: _ => to_uint (build first - 1)
    end in
  let i := to_int (to_uint (oldestActive - numKeepRunDirs s)) in
  with_world (sweep (Z.to_nat i) i (homeDir s </> "run" </> name r) (world s)) s.

Definition runFinished (r : Run) (s : Laminar) : Laminar :=
  (* in case we freed up an executor, check the queue *)
  assignNewJobs (finishRun r s).

(** ** Parameters of a running build: [Laminar::setParam] *)

Definition setParam (jname : string) (buildNum : Z) (param value : string) (s : Laminar)
  : bool * Laminar :=
  match activeRun s jname buildNum with
  | Some run =>
      (true,
       with_activeJobs
         (updateRun (rid run) (λ x, with_params (<[param := value]> (params x)) x)
                    (activeJobs s)) s)
  | None => (false, s)
  end.

End Scheduler.

Section Reactor.
Context `{Externals}.

(** ** Status snapshots: [Laminar::sendStatus] *)

Definition runsPerPage : Z := 10.

(** [(nRuns-1) / runsPerPage + 1] on [uint] operands. *)
Definition pages (nRuns : Z) : Z := to_uint (to_uint (nRuns - 1) / runsPerPage + 1).

Definition jobStatus (sc : MonitorScope) (s : Laminar) : JobStatus :=
  {| js_pages := pages (to_uint (countBuilds (db s) (job sc)));
     js_sort_page := page sc;
     js_sort_field := field sc;
     js_sort_order := if order_desc sc then "dsc" else "asc";
     js_running :=
       map (λ run, (build run,
                    nodeName (default newNode (heap s !! default O (node run))),
                    startedAt run))
           (filter (λ run, name run = job sc) (activeJobs s));
     js_nQueued :=
       to_int (Z.of_nat (length (filter (λ run, name run = job sc) (queuedJobs s)))) |}.

Definition sendStatus (c : LaminarClient) (s : Laminar) : Laminar :=
  let sc := scope c in
  match stype sc with
  | LOG =>
      match activeRun s (job sc) (num sc) with
      | Some run => emit [Status (cid c) (raw (c_str (log run)))] s
      | None =>
          match findBuild (db s) (job sc) (num sc) with
          | Some row =>
              match fetchLog (b_output row) (b_outputLen row) with
              | Some m => emit [Status (cid c) (raw m)] s
              | None => s
              end
          | None => s
          end
      end
  | RUN =>
      emit [Status (cid c) (status_other RUN)]
           (with_buildNums (touch (job sc) 0 (buildNums s)) s)
  | JOB => emit [Status (cid c) (status_job (jobStatus sc s))] s
  | ALL =>
      emit [Status (cid c) (status_other ALL)]
           (with_jobTags
              (foldl (λ m k, touch k ∅ m) (jobTags s)
                     (map b_name (db s) ++ map name (activeJobs s))) s)
  | HOME => emit [Status (cid c) (status_other HOME)] s
  end.

(** ** Reactor callbacks of the run executor *)

(** The callback of [readDescriptor]: a chunk of output of the current
    child of run [r]. *)
Definition onData (r : nat) (bytes : string) (s : Laminar) : Laminar :=
  match activeById s r with
  | Some run =>
      match phase run with
      | Draining _ =>
          emit (fanout s r (λ sc, wantsLog sc (name run) (build run)) (raw bytes))
               (with_activeJobs
                  (updateRun r (λ x, with_log (log x +:+ bytes) x) (activeJobs s)) s)
      | _ => s
      end
  | None => s
  end.

(** The last continuation of [handleRunStep]: the child is reaped and the
    next step is taken. *)
Definition onReaped (r : nat) (status : Z) (s : Laminar) : Laminar :=
  emit [Reaped r status]
       (with_activeJobs
          (updateRun r (λ x, handleRunStep (reaped status x)) (activeJobs s)) s).

(** End of file on the pipe: the chain now waits for the exit promise,
    which may be fulfilled already. *)
Definition onEof (r : nat) (s : Laminar) : Laminar :=
  match activeById s r with
  | Some run =>
      match phase run with
      | Draining (Some status) => onReaped r status s
      | Draining None =>
          with_activeJobs (updateRun r (with_phase AwaitExit) (activeJobs s)) s
      | _ => s
      end
  | None => s
  end.

(** The promise of [onChildExit] is fulfilled. *)
Definition onExit (r : nat) (status : Z) (s : Laminar) : Laminar :=
  match activeById s r with
  | Some run =>
      match phase run with
      | Draining None =>
          with_activeJobs (updateRun r (with_phase (Draining (Some status))) (activeJobs s)) s
      | AwaitExit => onReaped r status s
      | _ => s
      end
  | None => s
  end.

(** The continuation attached in [tryStartRun]: once the promise of
    [handleRunStep] is ready, [runFinished] runs. *)
Definition resume (r : nat) (s : Laminar) : Laminar :=
  match activeById s r with
  | Some run =>
      match phase run with
      | Ready => runFinished run s
      | _ => s
      end
  | None => s
  end.

Definition abortAll (s : Laminar) : Laminar :=
  with_activeJobs (map abort (activeJobs s)) s.

Definition notifyConfigChanged (s : Laminar) : Laminar :=
  assignNewJobs (loadConfiguration s).

(** ** The scheduler as a transition system *)

Inductive Input :=
| QueueJob (jname : string) (ps : gmap string string)
| ConfigChanged
| PipeData (r : nat) (bytes : string)
| PipeEof (r : nat)
| ChildExit (r : nat) (status : Z)
| Resume (r : nat)
| Abort (r : nat)
| AbortAll
| SetParam (jname : string) (buildNum : Z) (param value : string)
| RegisterClient (c : LaminarClient)
| DeregisterClient (c : nat)
| RegisterWaiter (w : nat)
| DeregisterWaiter (w : nat)
| SendStatus (c : LaminarClient)
| Outside (w : World).

(** One callback, run to completion. [Outside w]: between two callbacks
    the clock advanced and the files changed. A callback for a run that
    is not waiting for it does not occur and leaves the state as it is. *)
Definition react (s : Laminar) (i : Input) : Laminar :=
  match i with
  | QueueJob jname ps => (queueJob jname ps s).2
  | ConfigChanged => notifyConfigChanged s
  | PipeData r bytes => onData r bytes s
  | PipeEof r => onEof r s
  | ChildExit r status => onExit r status s
  | Resume r => resume r s
  | Abort r => with_activeJobs (updateRun r abort (activeJobs s)) s
  | AbortAll => abortAll s
  | SetParam jname buildNum param value => (setParam jname buildNum param value s).2
  | RegisterClient c => with_clients (clients s ++ [c]) s
  | DeregisterClient c => with_clients (filter (λ x, cid x ≠ c) (clients s)) s
  | RegisterWaiter w => with_waiters (waiters s ++ [w]) s
  | DeregisterWaiter w => with_waiters (filter (λ x, x ≠ w) (waiters s)) s
  | SendStatus c => sendStatus c s
  | Outside w => with_world w s
  end.

(** [Laminar::Laminar]: the build numbers are read from the database and
    the configuration is loaded. *)
Definition construct (home : string) (w : World) (rows : list BuildRow) : Laminar :=
  loadConfiguration
    (mkLaminar home 0 [] ∅ ∅ (lastBuildNums rows) [] [] [] [] rows O w []).

Definition reachable (home : string) (w : World) (rows : list BuildRow) (s : Laminar) : Prop :=
  ∃ inputs, s = foldl react (construct home w rows) inputs.

End Reactor.

(** ** Properties of scheduler states and of traces *)

(** The number of runs of [l] placed on the node at address [a]. *)
Definition countOn (a : nat) (l : list Run) : nat :=
  length (filter (λ r, node r = Some a) l).

(** The accounting of executors: every node object counts the active
    runs placed on it, capacities are [int] values, and every node
    referred to by the registry or by an active run exists. *)
Definition Accounting (s : Laminar) : Prop :=
  (∀ a n, heap s !! a = Some n →
     busyExecutors n = Z.of_nat (countOn a (activeJobs s)) ∧
     int_range (numExecutors n) ∧ busyExecutors n < 2 ^ 31) ∧
  (∀ x, x ∈ activeJobs s → ∃ a, node x = Some a ∧ (a < length (heap s))%nat) ∧
  (∀ nm a, nodes s !! nm = Some a → (a < length (heap s))%nat).

(** No node runs more than its capacity. *)
Definition WithinCapacity (s : Laminar) : Prop :=
  ∀ a n, heap s !! a = Some n → busyExecutors n ≤ numExecutors n.

(** [e] tells a client that run [r] completed. *)
Definition completedEvent (r : nat) (e : Event) : Prop :=
  ∃ c jname number queued completed started res why jtags artifacts,
    e = Sent c r (job_completed jname number queued completed started res why jtags
                                artifacts).

(** [e] is a step of run [r]: a chunk of its log is delivered to a client,
    or the exit status of one of its children is recorded. *)
Definition progressEvent (r : nat) (e : Event) : Prop :=
  (∃ c bytes, e = Sent c r (raw bytes)) ∨ (∃ st, e = Reaped r st).

(** In a trace, every step of a run comes before every completion event
    of that run. *)
Definition logBeforeCompleted (tr : list Event) : Prop :=
  ∀ (i j r : nat) (ei ej : Event),
    tr !! i = Some ei → tr !! j = Some ej →
    completedEvent r ei → progressEvent r ej → (j < i)%nat.

(** Neither a step nor a completion of any run. *)
Definition quiet (e : Event) : Prop :=
  ∀ r, ¬ progressEvent r e ∧ ¬ completedEvent r e.

(** The identities [ids] of the queued and active runs are distinct and
    were handed out by the counter [nextRun]; a run whose completion was
    announced is neither queued nor active. *)
Definition IdsOk (ids : list nat) (s : Laminar) : Prop :=
  NoDup ids ∧
  (∀ r, r ∈ ids → (r < nextRun s)%nat) ∧
  (∀ e r, e ∈ trace s → completedEvent r e → (r < nextRun s)%nat ∧ r ∉ ids).

(** The invariant of the scheduler, stated for the identities [ids] of the
    queued runs; inside the admission loop these are the runs on both
    sides of the iterator. *)
Definition InvAt (ids : list nat) (s : Laminar) : Prop :=
  Accounting s ∧
  IdsOk (ids ++ map rid (activeJobs s)) s ∧
  logBeforeCompleted (trace s).

Definition Inv (s : Laminar) : Prop := InvAt (map rid (queuedJobs s)) s.

(** [r'] is the run object [r] after a change that keeps its identity, its
    job and its node. *)
Definition sameRun (r r' : Run) : Prop :=
  rid r' = rid r ∧ name r' = name r ∧ node r' = node r.

(** [s'] differs from [s] at most in the build counters and in the
    world. *)
Definition sameSched (s s' : Laminar) : Prop :=
  homeDir s' = homeDir s ∧ heap s' = heap s ∧ nodes s' = nodes s ∧
  jobTags s' = jobTags s ∧ queuedJobs s' = queuedJobs s ∧
  activeJobs s' = activeJobs s ∧ clients s' = clients s ∧ waiters s' = waiters s ∧
  db s' = db s ∧ nextRun s' = nextRun s ∧ trace s' = trace s.

(** [s'] has the queue, the active set, the run counter and the trace of
    [s]. *)
Definition sameRuns (s s' : Laminar) : Prop :=
  queuedJobs s' = queuedJobs s ∧ activeJobs s' = activeJobs s ∧
  nextRun s' = nextRun s ∧ trace s' = trace s.



(** ** A concrete instance

    The definitions are run on concrete states with these collaborators:
    HOME and ALL scopes want the status of every job, a JOB scope that of
    its job, a RUN scope that of its build; a LOG scope wants the log of
    its build; the reason of a run is its reason message; a run-length
    code with a one-byte header stands in for the deflate codec. *)
Module Sample.

Fixpoint rle (s : string) : list (nat * ascii) :=
  match s with
  | EmptyString => []
  | String c rest =>
      match rle rest with
      | (k, d) :: tl =>
          if decide (c = d ∧ (k < 255)%nat) then (S k, d) :: tl else (1%nat, c) :: (k, d) :: tl
      | [] => [(1%nat, c)]
      end
  end.

Fixpoint encode (l : list (nat * ascii)) : string :=
  match l with
  | [] => EmptyString
  | (k, c) :: tl => String (ascii_of_nat k) (String c (encode tl))
  end.

Fixpoint repeatChar (k : nat) (c : ascii) (tl : string) : string :=
  match k with
  | O => tl
  | S k' => String c (repeatChar k' c tl)
  end.

Fixpoint decode (fuel : nat) (s : string) : option string :=
  match fuel, s with
  | _, EmptyString => Some EmptyString
  | S fuel', String k (String c tl) => repeatChar (nat_of_ascii k) c <$> decode fuel' tl
  | _, _ => None
  end.

Definition deflate (cap : nat) (s : string) : option string :=
  let z := String "Z"%char (encode (rle s)) in
  if bool_decide (String.length z ≤ cap)%nat then Some z else None.

Definition inflate (cap : nat) (z : string) : option string :=
  match z with
  | String "Z"%char body =>
      match decode (String.length body) body with
      | Some out => if bool_decide (String.length out ≤ cap)%nat then Some out else None
      | None => None
      end
  | _ => None
  end.

Definition externals : Externals :=
  {| wantsStatus sc jname k :=
       match stype sc with
       | HOME | ALL => true
       | JOB => bool_decide (job sc = jname)
       | RUN => bool_decide (job sc = jname ∧ num sc = k)
       | LOG => false
       end;
     wantsLog sc jname k :=
       bool_decide (stype sc = LOG ∧ job sc = jname ∧ num sc = k);
     reason := reasonMsg;
     compress := deflate;
     uncompress := inflate |}.

(** A home directory with one job [j] and one node [a] of [cap] executors
    and tags [t]. *)
Definition world1 (cap : Z) (t : string) : World :=
  {| now := 100;
     dirs := ∅;
     files := {["/h/cfg/jobs/j.run"]};
     denied := ∅;
     nodeConfs := [("a", mkNodeConf cap t)];
     jobConfs := [];
     keepRunDirs := None |}.

Definition with_nodeConfs (c : list (string * NodeConf)) (w : World) : World :=
  mkWorld (now w) (dirs w) (files w) (denied w) c (jobConfs w) (keepRunDirs w).

Definition with_denied (d : gset string) (w : World) : World :=
  mkWorld (now w) (dirs w) (files w) d (nodeConfs w) (jobConfs w) (keepRunDirs w).

(** The scheduler started on [world1]. *)
Definition fresh (cap : Z) (t : string) : Laminar := construct "/h" (world1 cap t) [].

(** Two builds of [j] run on the two executors of [a]. *)
Definition twoRunning : Laminar :=
  foldl (react (H := externals)) (fresh 2 "") [QueueJob "j" ∅; QueueJob "j" ∅].

(** The file [a.conf] now asks for one executor, and the change is
    noticed. *)
Definition lowered : list Input :=
  [QueueJob "j" ∅; QueueJob "j" ∅;
   Outside (with_nodeConfs [("a", mkNodeConf 1 "")] (world twoRunning));
   ConfigChanged].

(** A second home directory: jobs [j] (tag [x]) and [k] (tag [y]), and
    one node [a] with one executor and the tag [x]. *)
Definition world2 : World :=
  {| now := 100;
     dirs := ∅;
     files := {["/h/cfg/jobs/j.run"; "/h/cfg/jobs/k.run"]};
     denied := ∅;
     nodeConfs := [("a", mkNodeConf 1 "x")];
     jobConfs := [("j", mkJobConf "x" 0); ("k", mkJobConf "y" 0)];
     keepRunDirs := None |}.

(** A HOME client watches; [k] is queued and cannot be placed, then [j] is
    queued behind it. *)
Definition behindBlocked : list Input :=
  [RegisterClient (mkClient 7 (mkScope HOME "" 0 0 "" false));
   QueueJob "k" ∅; QueueJob "j" ∅].

Fixpoint repeatString (k : nat) (s : string) : string :=
  match k with
  | O => EmptyString
  | S k' => s +:+ repeatString k' s
  end.

(** 1024 bytes that the codec cannot shrink. *)
Definition noise : string := repeatString 512 "ab".

(** A build of [j] writes [out], exits with 0 and finishes; then a client
    of LOG scope asks for the log of that build. *)
Definition logged (out : string) : list Input :=
  [QueueJob "j" ∅; PipeData 0 out; PipeEof 0; ChildExit 0 0; Resume 0;
   SendStatus (mkClient 9 (mkScope LOG "j" 1 0 "" false))].

Definition isStatus (e : Event) : bool :=
  match e with
  | Status _ _ => true
  | _ => false
  end.

(** The run directory of the first build of [j] cannot be made. *)
Definition deniedRunDir : Laminar :=
  with_world (with_denied {["/h/run/j/1"]} (world1 1 "")) (fresh 1 "").

(** The same scheduler with one run of [j] in the queue, before the
    admission loop runs. *)
Definition run0 : Run :=
  mkRun 0 "j" 0 None 100 0 ∅ "" 0 "" [] [] "" "" SUCCESS UNKNOWN None false NotStarted.

Definition stuck : Laminar := with_nextRun 1 (with_queuedJobs [run0] deniedRunDir).

(** One run of [j] in the queue of the scheduler started on [world1]. *)
Definition ready : Laminar := with_nextRun 1 (with_queuedJobs [run0] (fresh 1 "")).

(** A HOME client and a client of the log of build 1 of [j] watch one
    build of [j] that writes two bytes, exits with 0 and finishes. *)
Definition watched : list Input :=
  [RegisterClient (mkClient 7 (mkScope HOME "" 0 0 "" false));
   RegisterClient (mkClient 9 (mkScope LOG "j" 1 0 "" false));
   QueueJob "j" ∅; PipeData 0 "hi"; ChildExit 0 0; PipeEof 0; Resume 0].

End Sample.

(** ** Further notions: tags, strings and paths *)

(** Whether the character [c] occurs in [s]. *)
Fixpoint occurs (c : ascii) (s : string) : bool :=
  match s with
  | EmptyString => false
  | String d rest => bool_decide (d = c) || occurs c rest
  end.

(** The value of a [TAGS] key that lists the tags [l]. *)
Fixpoint joinTags (l : list string) : string :=
  match l with
  | [] => EmptyString
  | [t] => t
  | t :: rest => t +:+ String ","%char (joinTags rest)
  end.

(** The chunks of output of a child, one after the other. *)
Fixpoint concatChunks (l : list string) : string :=
  match l with
  | [] => EmptyString
  | b :: rest => b +:+ concatChunks rest
  end.

(** The node the run [x] was placed on takes the job of [x]: it is
    registered, and it has no tags or shares a tag with the job. *)
Definition placedByTags (s : Laminar) (x : Run) : Prop :=
  ∃ nm a n, node x = Some a ∧ nodes s !! nm = Some a ∧ heap s !! a = Some n ∧
            (tags n = ∅ ∨ ∃ t, t ∈ tags n ∧ t ∈ tagsOfJob s x).







(** The primary key of a row of [builds], and the job and number of a
    run. *)
Definition rowKey (row : BuildRow) : string * Z := (b_name row, b_number row).
Definition runKey (x : Run) : string * Z := (name x, build x).

(** The job and number of every stored row and of every active run. *)
Definition keys (s : Laminar) : list (string * Z) :=
  map rowKey (db s) ++ map runKey (activeJobs s).

(** The latest build number known for job [j]. *)
Definition latest (s : Laminar) (j : string) : Z := default 0 (buildNums s !! j).

(** Build numbers are in order: no two of the stored rows and active runs
    have the same job and number, the number of each is at most the
    latest number of its job, and [slack] more builds can start before a
    counter of type [uint] wraps around. *)
Definition Numbered (slack : nat) (s : Laminar) : Prop :=
  NoDup (keys s) ∧
  (∀ k, k ∈ keys s → k.2 ≤ latest s k.1) ∧
  (∀ j, 0 ≤ latest s j ∧ latest s j + Z.of_nat slack < 2 ^ 32).

(** ** Further concrete states *)

Module Scenario.

(** One build of [j] was started on the scheduler of [Sample.fresh]. *)
Definition started : Laminar :=
  react (H := Sample.externals) (Sample.fresh 1 "") (QueueJob "j" ∅).

Definition startedRun : Run := default Sample.run0 (activeById started 0).

(** The build has written five bytes, the third of which is NUL. *)
Definition live : Laminar :=
  react (H := Sample.externals) started
        (PipeData 0 (String "a" (String "b" (String NUL (String "c" (String "d" EmptyString)))))).

Definition liveRun : Run := default Sample.run0 (activeRun live "j" 1).

Definition logClient : LaminarClient := mkClient 9 (mkScope LOG "j" 1 0 "" false).

(** Two runs of [j] wait in the queue of a scheduler whose one node has
    one executor. *)
Definition run1 : Run :=
  mkRun 1 "j" 0 None 100 0 ∅ "" 0 "" [] [] "" "" SUCCESS UNKNOWN None false NotStarted.


(** The build of [j] wrote [hi], its child exited with 0 and the pipe was
    closed: the run is about to finish. *)
Definition finishing : Laminar :=
  foldl (react (H := Sample.externals)) (Sample.fresh 1 "")
        [QueueJob "j" ∅; PipeData 0 "hi"; ChildExit 0 0; PipeEof 0].

Definition finishingRun : Run := default Sample.run0 (activeById finishing 0).

(** The two builds of [j] that run in [Sample.twoRunning]. *)
Definition olderRun : Run := default Sample.run0 (activeById Sample.twoRunning 0).
Definition newerRun : Run := default Sample.run0 (activeById Sample.twoRunning 1).

End Scenario.

(** * Theorems *)

(** ** Machine integers *)

Lemma to_int_id (z : Z) : int_range z → to_int z = z.
Proof.
  unfold int_range, to_int. intros Hz.
  rewrite Z.mod_small; lia.
Qed.

Lemma to_int_range (z : Z) : int_range (to_int z).
Proof.
  unfold int_range, to_int.
  pose proof (Z.mod_pos_bound (z + 2 ^ 31) (2 ^ 32)). lia.
Qed.

Lemma to_uint_id (z : Z) : 0 ≤ z < 2 ^ 32 → to_uint z = z.
Proof. intros Hz. unfold to_uint. rewrite Z.mod_small; lia. Qed.

(** C1. [nodeCanQueue] accepts exactly when the node has a free executor
    and either has no tags or shares a tag with the job of the run; a
    tagged node rejects a run whose job has no tags. *)
Theorem C1_nodeCanQueue_spec (s : Laminar) (n : Node) (run : Run) :
  (nodeCanQueue s n run = true ↔
     busyExecutors n < numExecutors n ∧
     (tags n = ∅ ∨ ∃ t, t ∈ tagsOfJob s run ∧ t ∈ tags n)) ∧
  (tags n ≠ ∅ → tagsOfJob s run = ∅ → nodeCanQueue s n run = false).
Proof.
  assert (Hiff : nodeCanQueue s n run = true ↔
     busyExecutors n < numExecutors n ∧
     (tags n = ∅ ∨ ∃ t, t ∈ tagsOfJob s run ∧ t ∈ tags n)).
  { unfold nodeCanQueue, tagsOfJob.
    case_bool_decide as Hbusy.
    { split; [discriminate | intros [? _]; lia]. }
    case_bool_decide as Hsz.
    { apply size_empty_inv in Hsz. apply leibniz_equiv in Hsz.
      split; [intros _; split; [lia | by left] | done]. }
    assert (Hne : tags n ≠ ∅).
    { intros E. apply Hsz. rewrite E. apply size_empty. }
    destruct (jobTags s !! name run) as [jt|]; simpl.
    - rewrite existsb_exists. split.
      + intros (t & Hin & Ht). apply bool_decide_eq_true in Ht.
        split; [lia|]. right. exists t. split; [|done].
        apply elem_of_elements. by apply list_elem_of_In.
      + intros [_ [E | (t & Hin & Ht)]]; [done|].
        exists t. split; [|by apply bool_decide_eq_true].
        apply list_elem_of_In. by apply elem_of_elements.
    - split; [discriminate|].
      intros [_ [E | (t & Hin & _)]]; [done | set_solver]. }
  split; [exact Hiff|].
  intros Hne Hjob. apply not_true_is_false. intros Hacc.
  apply Hiff in Hacc as [_ [E | (t & Hin & _)]]; [done|].
  rewrite Hjob in Hin. set_solver.
Qed.

(** C1, at a node with one free executor and the tag [x]: a run of a job
    without tags is rejected, a run of a job tagged [x] is accepted. *)
Lemma C1_nodeCanQueue_witness :
  nodeCanQueue (Sample.fresh 1 "x") (mkNode "a" 1 0 {["x"]})
    (mkRun 0 "j" 0 None 0 0 ∅ "" 0 "" [] [] "" "" SUCCESS UNKNOWN None false NotStarted)
  = false.
Proof.
  apply (C1_nodeCanQueue_spec (Sample.fresh 1 "x") (mkNode "a" 1 0 {["x"]})).
  - vm_compute. discriminate.
  - reflexivity.
Defined.

(** ** Page count of the JOB scope *)

Lemma pages_uint (n : Z) : pages (to_uint n) = to_uint (to_uint (n - 1) / 10 + 1).
Proof.
  unfold pages, runsPerPage, to_uint.
  rewrite Zminus_mod_idemp_l. reflexivity.
Qed.

Lemma pages_ceiling (n : Z) :
  1 ≤ n < 2 ^ 32 → pages n = (n + 9) / 10 ∧ 10 * (pages n - 1) < n ≤ 10 * pages n.
Proof.
  intros Hn. unfold pages, runsPerPage.
  rewrite (to_uint_id (n - 1)) by lia.
  assert (Hq : 0 ≤ (n - 1) / 10 < 429496730).
  { split; [apply Z.div_pos; lia | apply Z.div_lt_upper_bound; lia]. }
  rewrite to_uint_id by lia.
  assert (Hs : (n + 9) / 10 = (n - 1) / 10 + 1).
  { replace (n + 9) with ((n - 1) + 1 * 10) by lia. apply Z.div_add. lia. }
  rewrite Hs. split; [reflexivity|].
  pose proof (Z.div_mod (n - 1) 10 ltac:(lia)).
  pose proof (Z.mod_pos_bound (n - 1) 10 ltac:(lia)). lia.
Qed.

(** C10. The [pages] member of a JOB status document is [(n-1)/10+1] in
    unsigned 32-bit arithmetic, [n] being the number of stored builds of
    the job: the ceiling of [n/10] for [n ≥ 1], and 429496730 for [n = 0]. *)
Theorem C10_job_pages `{E : Externals} (c : LaminarClient) (s : Laminar) :
  stype (scope c) = JOB →
  let n := countBuilds (db s) (job (scope c)) in
  ∃ doc,
    trace (sendStatus c s) = trace s ++ [Status (cid c) (status_job doc)] ∧
    js_pages doc = to_uint (to_uint (n - 1) / 10 + 1) ∧
    (1 ≤ n < 2 ^ 32 →
       js_pages doc = (n + 9) / 10 ∧ 10 * (js_pages doc - 1) < n ≤ 10 * js_pages doc) ∧
    (n = 0 → js_pages doc = 429496730).
Proof.
  intros Hjob n. exists (jobStatus (scope c) s).
  split; [unfold sendStatus; rewrite Hjob; reflexivity|].
  simpl. fold n. split; [apply pages_uint|]. split.
  - intros Hn. rewrite (to_uint_id n) by lia. by apply pages_ceiling.
  - intros ->. reflexivity.
Qed.

(** C10 on a scheduler without stored builds: one JOB client is told
    429496730 pages. *)
Lemma C10_job_pages_witness :
  ∃ doc,
    trace (sendStatus (H := Sample.externals) (mkClient 7 (mkScope JOB "j" 0 0 "number" true))
             (Sample.fresh 1 "")) = [Status 7 (status_job doc)] ∧
    js_pages doc = 429496730.
Proof.
  destruct (C10_job_pages (E := Sample.externals)
              (mkClient 7 (mkScope JOB "j" 0 0 "number" true)) (Sample.fresh 1 "")
              eq_refl) as (doc & Htr & _ & _ & Hzero).
  exists doc. split; [exact Htr | apply Hzero; reflexivity].
Defined.

(** ** Updating a run in place *)

Lemma find_map_stable {A} (P : A → bool) (g : A → A) (l : list A) :
  (∀ x, P (g x) = P x) → List.find P (map g l) = g <$> List.find P l.
Proof.
  intros Hg. induction l as [|x l IH]; [reflexivity|].
  simpl. rewrite Hg. destruct (P x); [reflexivity | exact IH].
Qed.

Lemma find_some_holds {A} (P : A → bool) (l : list A) (x : A) :
  List.find P l = Some x → P x = true ∧ x ∈ l.
Proof.
  intros Hf. apply find_some in Hf as [Hin HP].
  split; [exact HP | by apply list_elem_of_In].
Qed.

Lemma map_rid_updateRun (r : nat) (f : Run → Run) (l : list Run) :
  (∀ x, rid (f x) = rid x) → map rid (updateRun r f l) = map rid l.
Proof.
  intros Hf. unfold updateRun. rewrite map_map. apply map_ext.
  intros x. case_bool_decide; [apply Hf | reflexivity].
Qed.

(** C9. [setParam] on an active build returns true and stores the value
    under the key in the parameters of that run, touching nothing else of
    the scheduler; on any other build it returns false and leaves the state
    as it is. *)
Theorem C9_setParam (s : Laminar) (J : string) (B : Z) (K V : string) :
  (∀ run, activeRun s J B = Some run →
     ∃ s',
       setParam J B K V s = (true, s') ∧
       activeRun s' J B = Some (with_params (<[K := V]> (params run)) run) ∧
       (∀ run', activeRun s' J B = Some run' →
          params run' !! K = Some V ∧
          ∀ K', K' ≠ K → params run' !! K' = params run !! K') ∧
       map rid (activeJobs s') = map rid (activeJobs s) ∧
       queuedJobs s' = queuedJobs s ∧ heap s' = heap s ∧ nodes s' = nodes s ∧
       buildNums s' = buildNums s ∧ jobTags s' = jobTags s ∧ db s' = db s ∧
       nextRun s' = nextRun s ∧ world s' = world s ∧ trace s' = trace s) ∧
  (activeRun s J B = None → setParam J B K V s = (false, s)).
Proof.
  split.
  - intros run Hrun. unfold setParam. rewrite Hrun. eexists. split; [reflexivity|].
    assert (Hact : activeRun
              (with_activeJobs
                 (updateRun (rid run) (λ x, with_params (<[K := V]> (params x)) x)
                            (activeJobs s)) s) J B
            = Some (with_params (<[K := V]> (params run)) run)).
    { unfold activeRun, updateRun in *. simpl.
      rewrite find_map_stable.
      - rewrite Hrun. simpl. by rewrite bool_decide_true.
      - intros x. destruct (bool_decide (rid x = rid run)); reflexivity. }
    split; [exact Hact|]. split.
    { intros run' Hrun'. rewrite Hact in Hrun'. injection Hrun' as <-. simpl.
      split; [apply lookup_insert_eq | intros K' HK'; by apply lookup_insert_ne]. }
    split; [|by repeat split].
    simpl. by apply map_rid_updateRun.
  - intros Hnone. unfold setParam. by rewrite Hnone.
Qed.

(** C9 on the state with two running builds of [j]: build 2 gets the
    parameter, build 3 does not exist. *)
Lemma C9_setParam_witness :
  (∃ s', setParam "j" 2 "k" "v" Sample.twoRunning = (true, s')) ∧
  setParam "j" 3 "k" "v" Sample.twoRunning = (false, Sample.twoRunning).
Proof.
  split.
  - assert (Hrun : ∃ run, activeRun Sample.twoRunning "j" 2 = Some run)
      by (vm_compute; eexists; reflexivity).
    destruct Hrun as [run Hrun].
    destruct (proj1 (C9_setParam Sample.twoRunning "j" 2 "k" "v") run Hrun) as (s' & Hs' & _).
    exists s'. exact Hs'.
  - apply (proj2 (C9_setParam Sample.twoRunning "j" 3 "k" "v")). reflexivity.
Defined.

(** ** Persisting a log and reading it back *)

Section LogCodec.
Context `{E : Externals}.

Lemma persistLog_raw (l : string) :
  Z.of_nat (String.length l) < COMPRESS_LOG_MIN_SIZE →
  persistLog l = (l, Z.of_nat (String.length l)).
Proof.
  intros Hlen. unfold persistLog, COMPRESS_LOG_MIN_SIZE in *.
  by rewrite bool_decide_false by lia.
Qed.

Lemma fetchLog_raw (l : string) :
  Z.of_nat (String.length l) < COMPRESS_LOG_MIN_SIZE →
  fetchLog (persistLog l).1 (persistLog l).2 = Some l.
Proof.
  intros Hlen. rewrite persistLog_raw by done. simpl.
  unfold fetchLog, COMPRESS_LOG_MIN_SIZE in *.
  by rewrite bool_decide_false by lia.
Qed.

(** When [compress] fails the raw log is stored with its own length, and
    the read path hands this raw log to [uncompress]. *)
Lemma fetchLog_after_failed_compress (l : string) :
  COMPRESS_LOG_MIN_SIZE ≤ Z.of_nat (String.length l) →
  compress (String.length l) l = None →
  uncompress (String.length l) l = None →
  persistLog l = (l, Z.of_nat (String.length l)) ∧
  fetchLog (persistLog l).1 (persistLog l).2 = None.
Proof.
  intros Hlen Hc Hu.
  assert (Hp : persistLog l = (l, Z.of_nat (String.length l))).
  { unfold persistLog, COMPRESS_LOG_MIN_SIZE in *.
    rewrite bool_decide_true by lia. by rewrite Hc. }
  rewrite Hp. split; [done|]. simpl.
  unfold fetchLog, COMPRESS_LOG_MIN_SIZE in *.
  rewrite bool_decide_true by lia. by rewrite Nat2Z.id, Hu.
Qed.

(** When both directions of the codec succeed, the message is the log
    followed by the last byte of the buffer of [sz+1] bytes. *)
Lemma fetchLog_compressed (l z : string) :
  COMPRESS_LOG_MIN_SIZE ≤ Z.of_nat (String.length l) →
  compress (String.length l) l = Some z →
  uncompress (String.length l) z = Some l →
  fetchLog (persistLog l).1 (persistLog l).2 = Some (l +:+ String NUL EmptyString).
Proof.
  intros Hlen Hc Hu.
  assert (Hp : persistLog l = (z, Z.of_nat (String.length l))).
  { unfold persistLog, COMPRESS_LOG_MIN_SIZE in *.
    rewrite bool_decide_true by lia. by rewrite Hc. }
  rewrite Hp. simpl. unfold fetchLog, COMPRESS_LOG_MIN_SIZE in *.
  rewrite bool_decide_true by lia. rewrite Nat2Z.id, Hu.
  replace (Z.to_nat (Z.of_nat (String.length l) + 1) - String.length l)%nat with 1%nat by lia.
  reflexivity.
Qed.

End LogCodec.

(** C5, at a log of 1024 bytes that the codec cannot shrink: the row holds
    the raw bytes with [outputLen] 1024, and the client of LOG scope that
    asks for the log afterwards is sent nothing. *)
Theorem C5_log_lost_when_compression_fails :
  let s := foldl (react (H := Sample.externals)) (Sample.fresh 1 "")
                 (Sample.logged Sample.noise) in
  String.length Sample.noise = 1024%nat ∧
  map (λ row, (b_name row, b_number row, b_outputLen row)) (db s) = [("j", 1, 1024)] ∧
  map b_output (db s) = [Sample.noise] ∧
  filter (λ e, Sample.isStatus e = true) (trace s) = [].
Proof. vm_compute. repeat split. Qed.

(** A short log is stored raw and read back as it was written. *)
Lemma short_log_read_back :
  let s := foldl (react (H := Sample.externals)) (Sample.fresh 1 "")
                 (Sample.logged "world") in
  filter (λ e, Sample.isStatus e = true) (trace s) = [Status 9 (raw "world")].
Proof. vm_compute. reflexivity. Qed.

(** A log of 1024 bytes that the codec shrinks is read back with one more
    byte than was written. *)
Lemma long_log_read_back :
  let s := foldl (react (H := Sample.externals)) (Sample.fresh 1 "")
                 (Sample.logged (Sample.repeatString 1024 "A")) in
  filter (λ e, Sample.isStatus e = true) (trace s)
  = [Status 9 (raw (Sample.repeatString 1024 "A" +:+ String NUL EmptyString))].
Proof. vm_compute. reflexivity. Qed.

(** ** Configuration reload *)

(** One step of the scan on a node that is registered already: the node
    object stays at its address with its busy count, its name and its
    capacity are replaced, and its tags are replaced only when the file
    names some. *)
Lemma loadNode_existing (s : Laminar) (known : gset string) (nm : string) (conf : NodeConf)
    (a : nat) (n : Node) :
  nodes s !! nm = Some a → heap s !! a = Some n →
  ∃ s',
    loadNode (s, known) (nm, conf) = (s', {[nm]} ∪ known) ∧
    nodes s' = nodes s ∧
    heap s' = <[a := mkNode nm (to_int (nc_EXECUTORS conf)) (busyExecutors n)
                        (if decide (nc_TAGS conf = EmptyString) then tags n
                         else tagList (nc_TAGS conf))]> (heap s).
Proof.
  intros Hreg Hn. unfold loadNode. rewrite Hreg, Hn. simpl.
  eexists. split; [reflexivity|]. split; reflexivity.
Qed.

(** C7, at a node [a] registered with the tag [x] whose file is rewritten
    without a TAGS key: after the reload the node object is the same, its
    capacity and busy count are as the claim says, and its tag set still
    holds [x]. *)
Theorem C7_reload_keeps_stale_tags :
  let s := Sample.fresh 6 "x" in
  let s' := foldl (react (H := Sample.externals)) s
                  [Outside (Sample.world1 6 ""); ConfigChanged] in
  map (λ e : string * NodeConf, (e.1, nc_TAGS e.2)) (nodeConfs (world s')) = [("a", "")] ∧
  map_to_list (nodes s) = [("a", 0%nat)] ∧ map_to_list (nodes s') = [("a", 0%nat)] ∧
  map (λ n, (nodeName n, numExecutors n, busyExecutors n, elements (tags n))) (heap s)
    = [("a", 6, 0, ["x"])] ∧
  map (λ n, (nodeName n, numExecutors n, busyExecutors n, elements (tags n))) (heap s')
    = [("a", 6, 0, ["x"])].
Proof. vm_compute. repeat split. Qed.

(** ** The queue index of [job_started] *)

(** C8, at a queue whose head cannot be placed: the run of [j] is admitted
    from position 1 of the queue, and its [job_started] event carries the
    queue index -1. *)
Theorem C8_queueIndex_is_negated_position :
  let before := foldl (react (H := Sample.externals)) (construct "/h" Sample.world2 [])
                      [RegisterClient (mkClient 7 (mkScope HOME "" 0 0 "" false));
                       QueueJob "k" ∅] in
  let s := foldl (react (H := Sample.externals)) (construct "/h" Sample.world2 [])
                 Sample.behindBlocked in
  map name (queuedJobs before) = ["k"] ∧
  map name (queuedJobs s) = ["k"] ∧ map name (activeJobs s) = ["j"] ∧
  trace s = [Sent 7 0 (job_queued "k"); Sent 7 1 (job_queued "j");
             Sent 7 1 (job_started (-1) "j" 0 100 1 "" None ["x"])].
Proof. vm_compute. repeat split. Qed.

(** ** Run startup *)

Lemma sameRun_refl (r : Run) : sameRun r r.
Proof. by repeat split. Qed.

Lemma sameRun_trans (r1 r2 r3 : Run) : sameRun r1 r2 → sameRun r2 r3 → sameRun r1 r3.
Proof. unfold sameRun. intros (-> & -> & ->) (-> & -> & ->). done. Qed.

Lemma handleRunStep_same (r : Run) : sameRun r (handleRunStep r).
Proof.
  unfold handleRunStep, step.
  destruct (scripts r); [by repeat split|].
  destruct (decide (result r = SUCCESS)); by repeat split.
Qed.

Lemma handleRunStep_phase (r : Run) :
  phase (handleRunStep r) = Ready ∨ phase (handleRunStep r) = Draining None.
Proof.
  unfold handleRunStep, step.
  destruct (scripts r); [by left|].
  destruct (decide (result r = SUCCESS)); [by right | by left].
Qed.

Lemma reaped_same (st : Z) (r : Run) : sameRun r (reaped st r).
Proof. unfold reaped. destruct (decide (result r = ABORTED)); by repeat split. Qed.

Lemma addScripts_same (s : Laminar) (n : Node) (w : World) (r : Run) :
  sameRun r (addScripts s n w r).
Proof.
  unfold addScripts, addScript.
  repeat (match goal with |- context [fs_exists ?w ?p] => destruct (fs_exists w p) end);
    by repeat split.
Qed.

Lemma addEnvs_same (s : Laminar) (n : Node) (w : World) (r : Run) :
  sameRun r (addEnvs s n w r).
Proof.
  unfold addEnvs, addEnv.
  repeat (match goal with |- context [fs_exists ?w ?p] => destruct (fs_exists w p) end);
    by repeat split.
Qed.

Lemma addTimeout_same (w : World) (r : Run) : sameRun r (addTimeout w r).
Proof.
  unfold addTimeout.
  destruct (List.find _ _) as [[? conf]|]; [|by repeat split].
  case_bool_decide; by repeat split.
Qed.

Lemma create_directory_frame (p : string) (w : World) (ok : bool) (w' : World) :
  create_directory p w = (ok, w') → denied w' = denied w ∧ files w' = files w.
Proof.
  unfold create_directory.
  case_bool_decide; [by intros [= <- <-]|].
  destruct (fs_exists w p); by intros [= <- <-].
Qed.


Lemma makeWorkspace_frame (run : Run) (s : Laminar) (ok : bool) (run' : Run) (w : World) :
  makeWorkspace run s = (ok, run', w) →
  sameRun run run' ∧ denied w = denied (world s) ∧ files w = files (world s).
Proof.
  unfold makeWorkspace.
  destruct (fs_exists (world s) (workspaceOf s run)).
  { intros [= <- <- <-]. by repeat split. }
  destruct (create_directory _ _) as [made w1] eqn:Hmk.
  apply create_directory_frame in Hmk as [Hd Hf].
  destruct made; intros [= <- <- <-]; [|by repeat split].
  split; [|done].
  destruct (fs_exists w1 _); by repeat split.
Qed.


Lemma makeArchive_frame (p : string) (w : World) (ok : bool) (w' : World) :
  makeArchive p w = (ok, w') → denied w' = denied w ∧ files w' = files w.
Proof.
  unfold makeArchive. destruct (is_directory w p); [by intros [= <- <-]|].
  apply create_directory_frame.
Qed.

Lemma quiet_job_started (c r : nat) (qi : Z) (n : string) (q st k : Z) (why : string)
    (etc : option Z) (tg : list string) :
  quiet (Sent c r (job_started qi n q st k why etc tg)).
Proof.
  intros r'. split.
  - intros [(? & ? & [=]) | (? & [=])].
  - intros (? & ? & ? & ? & ? & ? & ? & ? & ? & ? & [=]).
Qed.

Lemma quiet_job_queued (c r : nat) (n : string) : quiet (Sent c r (job_queued n)).
Proof.
  intros r'. split.
  - intros [(? & ? & [=]) | (? & [=])].
  - intros (? & ? & ? & ? & ? & ? & ? & ? & ? & ? & [=]).
Qed.

Lemma fanout_Forall (s : Laminar) (r : nat) (want : MonitorScope → bool) (m : Message)
    (P : Event → Prop) :
  (∀ c, P (Sent c r m)) → Forall P (fanout s r want m).
Proof.
  intros HP. unfold fanout. apply Forall_forall. intros e He.
  apply list_elem_of_fmap in He as (c & -> & _). apply HP.
Qed.

Section Startup.
Context `{E : Externals}.

(** A start that fails changes the build counters and the world only. *)
Lemma startRun_false (a : nat) (n : Node) (run : Run) (qi : Z) (s : Laminar)
    (run' : Run) (s' : Laminar) :
  startRun a n run qi s = (false, run', s') → sameRun run run' ∧ sameSched s s'.
Proof.
  unfold startRun.
  destruct (makeWorkspace run s) as [[ok1 r1] w1] eqn:Hws.
  apply makeWorkspace_frame in Hws as [Hr1 _].
  destruct ok1; [|intros [= <- <-]; split; [done | by repeat split]].
  destruct (makeRunDir _ w1) as [ok2 w2].
  destruct ok2; [|intros [= <- <-]; split; [done | by repeat split]].
  destruct (makeArchive _ w2) as [ok3 w3].
  destruct ok3; [|intros [= <- <-]; split; [|by repeat split]].
  - destruct (launch _ _ _ _ _ _ _). intros [=].
  - eapply sameRun_trans; [exact Hr1 | by repeat split].
Qed.

(** A start that succeeds takes one executor of the node, gives the run
    its node, and tells the clients that the job started. *)
Lemma startRun_true (a : nat) (n : Node) (run : Run) (qi : Z) (s : Laminar)
    (run' : Run) (s' : Laminar) :
  startRun a n run qi s = (true, run', s') →
  rid run' = rid run ∧ name run' = name run ∧ node run' = Some a ∧
  heap s' = <[a := mkNode (nodeName n) (numExecutors n) (to_int (busyExecutors n + 1))
                          (tags n)]> (heap s) ∧
  homeDir s' = homeDir s ∧ nodes s' = nodes s ∧ queuedJobs s' = queuedJobs s ∧
  activeJobs s' = activeJobs s ∧ db s' = db s ∧ nextRun s' = nextRun s ∧
  ∃ new, trace s' = trace s ++ new ∧ Forall quiet new.
Proof.
  unfold startRun.
  destruct (makeWorkspace run s) as [[ok1 r1] w1] eqn:Hws.
  apply makeWorkspace_frame in Hws as [Hr1 _].
  destruct ok1; [|intros [=]].
  destruct (makeRunDir _ w1) as [ok2 w2].
  destruct ok2; [|intros [=]].
  destruct (makeArchive _ w2) as [ok3 w3].
  destruct ok3; [|intros [=]].
  unfold launch.
  match goal with |- context [addTimeout ?w ?r] =>
    pose proof (addTimeout_same w r) as Ht; set (r4 := addTimeout w r) in * end.
  match goal with H : sameRun (addEnvs ?s ?n ?w ?r) _ |- _ =>
    pose proof (addEnvs_same s n w r) as He end.
  match goal with H : sameRun (addScripts ?s ?n ?w ?r) _ |- _ =>
    pose proof (addScripts_same s n w r) as Hsc end.
  assert (Hr4 : sameRun run r4).
  { eapply sameRun_trans; [exact Hr1|].
    eapply sameRun_trans; [|exact Ht].
    eapply sameRun_trans; [|exact He].
    eapply sameRun_trans; [|exact Hsc]. by repeat split. }
  destruct Hr4 as (Hid & Hname & _).
  intros [= <- <-].
  match goal with |- context [handleRunStep ?r] =>
    destruct (handleRunStep_same r) as (Hh1 & Hh2 & Hh3) end.
  rewrite Hh1, Hh2, Hh3. simpl.
  repeat (split; [done|]).
  eexists. split; [reflexivity|].
  apply fanout_Forall. intros c. apply quiet_job_started.
Qed.

End Startup.

(** ** The accepting node *)

Lemma acceptingNode_Some (s : Laminar) (run : Run) (a : nat) (n : Node) :
  acceptingNode s run = Some (a, n) →
  heap s !! a = Some n ∧ nodeCanQueue s n run = true ∧ ∃ nm, nodes s !! nm = Some a.
Proof.
  unfold acceptingNode. intros Hf.
  apply find_some_holds in Hf as [Hacc Hin]. simpl in Hacc.
  apply list_elem_of_omap in Hin as ([nm a'] & Hreg & Hn). simpl in Hn.
  destruct (heap s !! a') as [n'|] eqn:Hh; simpl in Hn; [|done].
  injection Hn as <- <-.
  apply elem_of_map_to_list in Hreg. eauto.
Qed.


Section Admission.
Context `{E : Externals}.

Lemma tryStartRun_false (run : Run) (qi : Z) (s : Laminar) (run' : Run) (s' : Laminar) :
  tryStartRun run qi s = (false, run', s') → sameRun run run' ∧ sameSched s s'.
Proof.
  unfold tryStartRun. destruct (acceptingNode s run) as [[a n]|].
  - apply startRun_false.
  - intros [= <- <-]. split; [apply sameRun_refl | by repeat split].
Qed.

Lemma tryStartRun_true (run : Run) (qi : Z) (s : Laminar) (run' : Run) (s' : Laminar) :
  tryStartRun run qi s = (true, run', s') →
  ∃ a n,
    acceptingNode s run = Some (a, n) ∧
    rid run' = rid run ∧ name run' = name run ∧ node run' = Some a ∧
    heap s' = <[a := mkNode (nodeName n) (numExecutors n) (to_int (busyExecutors n + 1))
                            (tags n)]> (heap s) ∧
    homeDir s' = homeDir s ∧ nodes s' = nodes s ∧ queuedJobs s' = queuedJobs s ∧
    activeJobs s' = activeJobs s ∧ db s' = db s ∧ nextRun s' = nextRun s ∧
    ∃ new, trace s' = trace s ++ new ∧ Forall quiet new.
Proof.
  unfold tryStartRun. destruct (acceptingNode s run) as [[a n]|] eqn:Hacc; [|intros [=]].
  intros Hst. exists a, n. split; [done|]. by apply startRun_true in Hst.
Qed.

(** The runs before the iterator stay queued, in their order. *)
Lemma assignLoop_keeps (todo kept : list Run) (s : Laminar) :
  ∃ more, queuedJobs (assignLoop kept todo s) = kept ++ more.
Proof.
  revert kept s. induction todo as [|run rest IH]; intros kept s; simpl.
  - exists []. by rewrite app_nil_r.
  - destruct (tryStartRun run _ s) as [[ok run'] s'].
    destruct ok; [apply IH|].
    destruct (IH (kept ++ [run']) s') as [more Hmore].
    exists (run' :: more). by rewrite Hmore, <- app_assoc.
Qed.

(** The admission loop writes no row. *)
Lemma assignLoop_db (todo kept : list Run) (s : Laminar) :
  db (assignLoop kept todo s) = db s.
Proof.
  revert kept s. induction todo as [|run rest IH]; intros kept s; simpl; [done|].
  destruct (tryStartRun run _ s) as [[ok run'] s'] eqn:Hst.
  destruct ok.
  - rewrite IH. simpl. by apply tryStartRun_true in Hst as (? & ? & _ & _ & _ & _ & _ & _ & _ & _ & _ & ? & _).
  - rewrite IH. apply tryStartRun_false in Hst as [_ Hs]. apply Hs.
Qed.

(** The runs the loop starts are appended to the active set and come from
    the range the loop walks over. *)
Lemma assignLoop_active (todo kept : list Run) (s : Laminar) :
  ∃ started,
    activeJobs (assignLoop kept todo s) = activeJobs s ++ started ∧
    ∀ x, x ∈ started → rid x ∈ map rid todo.
Proof.
  revert kept s. induction todo as [|run rest IH]; intros kept s; simpl.
  - exists []. split; [by rewrite app_nil_r | intros x Hx; by apply elem_of_nil in Hx].
  - destruct (tryStartRun run _ s) as [[ok run'] s'] eqn:Hst.
    destruct ok.
    + apply tryStartRun_true in Hst
        as (a & n & _ & Hid & _ & _ & _ & _ & _ & _ & Hact & _).
      destruct (IH kept (with_activeJobs (activeJobs s' ++ [run']) s')) as (more & Hmore & Hids).
      exists (run' :: more). split.
      * rewrite Hmore. simpl. rewrite Hact, <- app_assoc. done.
      * intros x Hx. apply elem_of_cons in Hx as [-> | Hx].
        -- rewrite Hid. apply elem_of_cons. by left.
        -- apply elem_of_cons. right. by apply Hids.
    + apply tryStartRun_false in Hst as [_ Hs].
      destruct (IH (kept ++ [run']) s') as (more & Hmore & Hids).
      exists more. split.
      * rewrite Hmore. f_equal. apply Hs.
      * intros x Hx. apply elem_of_cons. right. by apply Hids.
Qed.

End Admission.

(** ** Startup failures *)

Section StartupFailure.
Context `{E : Externals}.

(** C4 (amended). When the run directory of a run cannot be made, the run
    is not started: it stays in the queue at its position, the admission
    loop goes on with the runs behind it, writes no row, and starts runs
    from among those only. *)
Theorem C4_failed_run_directory_keeps_run_queued
    (kept rest : list Run) (run run1 : Run) (s : Laminar) (a : nat) (n : Node)
    (w1 w2 : World) :
  acceptingNode s run = Some (a, n) →
  makeWorkspace run s = (true, run1, w1) →
  makeRunDir (runDirOf s run) w1 = (false, w2) →
  let s1 := with_world w2 (with_buildNums (touch (name run) 0 (buildNums s)) s) in
  let s' := assignLoop kept (run :: rest) s in
  rid run1 = rid run ∧
  s' = assignLoop (kept ++ [run1]) rest s1 ∧
  (∃ more, queuedJobs s' = kept ++ run1 :: more) ∧
  db s' = db s ∧
  (∃ started, activeJobs s' = activeJobs s ++ started ∧
              ∀ x, x ∈ started → rid x ∈ map rid rest).
Proof.
  intros Hacc Hws Hrd s1 s'.
  assert (Hid : rid run1 = rid run).
  { apply makeWorkspace_frame in Hws as [Hsame _]. apply Hsame. }
  assert (Hname : name run1 = name run).
  { apply makeWorkspace_frame in Hws as [Hsame _]. apply Hsame. }
  assert (Hs' : s' = assignLoop (kept ++ [run1]) rest s1).
  { subst s' s1. simpl. unfold tryStartRun. rewrite Hacc.
    unfold startRun. rewrite Hws.
    unfold runDirOf, nextBuildNum in *. rewrite Hname in *. rewrite Hrd. reflexivity. }
  split; [exact Hid|]. split; [exact Hs'|]. rewrite Hs'. split; [|split].
  - destruct (assignLoop_keeps rest (kept ++ [run1]) s1) as [more Hmore].
    exists more. by rewrite Hmore, <- app_assoc.
  - rewrite assignLoop_db. reflexivity.
  - exact (assignLoop_active rest (kept ++ [run1]) s1).
Qed.

End StartupFailure.

(** C4 on the scheduler whose first run directory is denied: the queued
    run of [j] is still queued after the admission loop. *)
Lemma C4_failed_run_directory_witness :
  let s := Sample.stuck in
  let run := Sample.run0 in
  let w1 := (makeWorkspace run s).2 in
  let w2 := (makeRunDir (runDirOf s run) w1).2 in
  (acceptingNode s run = Some (0%nat, mkNode "a" 1 0 ∅) ∧
   makeWorkspace run s = (true, run, w1) ∧
   makeRunDir (runDirOf s run) w1 = (false, w2)) ∧
  ∃ more, queuedJobs (assignLoop (H := Sample.externals) [] [run] s) = [] ++ run :: more.
Proof.
  intros s run w1 w2.
  assert (Hacc : acceptingNode s run = Some (0%nat, mkNode "a" 1 0 ∅))
    by (vm_compute; reflexivity).
  assert (Hws : makeWorkspace run s = (true, run, w1)) by (vm_compute; reflexivity).
  assert (Hrd : makeRunDir (runDirOf s run) w1 = (false, w2)) by (vm_compute; reflexivity).
  split; [by repeat split|].
  exact (proj1 (proj2 (proj2 (C4_failed_run_directory_keeps_run_queued
           (E := Sample.externals) [] [] run run s _ _ w1 w2 Hacc Hws Hrd)))).
Defined.

(** The claim C4 fails as stated: a node accepts the queued run, its
    workspace is made, making its run directory fails, and after the
    admission loop the run is still in the queue and not active. *)
Lemma C4_counterexample :
  let s := Sample.stuck in
  let s' := assignNewJobs (H := Sample.externals) s in
  queuedJobs s = [Sample.run0] ∧
  is_Some (acceptingNode s Sample.run0) ∧
  (makeWorkspace Sample.run0 s).1.1 = true ∧
  (makeRunDir (runDirOf s Sample.run0) (makeWorkspace Sample.run0 s).2).1 = false ∧
  queuedJobs s' = [Sample.run0] ∧ activeJobs s' = [].
Proof.
  vm_compute. split; [reflexivity|]. split; [by eexists|]. by repeat split.
Qed.

(** ** Work conservation *)


Section WorkConserving.
Context `{E : Externals}.







End WorkConserving.



(** ** Traces *)

Lemma progress_not_completed (r r' : nat) (e : Event) :
  progressEvent r e → ¬ completedEvent r' e.
Proof.
  intros [(c & b & ->) | (st & ->)];
    intros (? & ? & ? & ? & ? & ? & ? & ? & ? & ? & [=]).
Qed.

Lemma quiet_Inserted (row : BuildRow) : quiet (Inserted row).
Proof.
  intros r. split.
  - intros [(? & ? & [=]) | (? & [=])].
  - intros (? & ? & ? & ? & ? & ? & ? & ? & ? & ? & [=]).
Qed.

Lemma quiet_Woken (w r : nat) : quiet (Woken w r).
Proof.
  intros r'. split.
  - intros [(? & ? & [=]) | (? & [=])].
  - intros (? & ? & ? & ? & ? & ? & ? & ? & ? & ? & [=]).
Qed.

Lemma quiet_Status (c : nat) (m : Message) : quiet (Status c m).
Proof.
  intros r'. split.
  - intros [(? & ? & [=]) | (? & [=])].
  - intros (? & ? & ? & ? & ? & ? & ? & ? & ? & ? & [=]).
Qed.

(** Appending events keeps the order when every appended step belongs to
    a run whose completion has not been announced, and the appended events
    are ordered among themselves. *)
Lemma logBeforeCompleted_app (tr new : list Event) :
  logBeforeCompleted tr → logBeforeCompleted new →
  (∀ e r, e ∈ new → progressEvent r e → ∀ e0, e0 ∈ tr → ¬ completedEvent r e0) →
  logBeforeCompleted (tr ++ new).
Proof.
  intros Htr Hnew Hfresh i j r ei ej Hi Hj Hc Hp.
  destruct (decide (i < length tr)%nat) as [Hil | Hil];
    destruct (decide (j < length tr)%nat) as [Hjl | Hjl].
  - rewrite lookup_app_l in Hi, Hj by done. eauto.
  - rewrite lookup_app_l in Hi by done. rewrite lookup_app_r in Hj by lia.
    exfalso. eapply Hfresh; [| exact Hp | | exact Hc].
    + eapply list_elem_of_lookup_2, Hj.
    + eapply list_elem_of_lookup_2, Hi.
  - lia.
  - rewrite lookup_app_r in Hi, Hj by lia.
    pose proof (Hnew _ _ _ _ _ Hi Hj Hc Hp). lia.
Qed.

Lemma logBeforeCompleted_no_progress (new : list Event) :
  (∀ e r, e ∈ new → ¬ progressEvent r e) → logBeforeCompleted new.
Proof.
  intros Hno i j r ei ej _ Hj _ Hp. exfalso.
  eapply Hno; [eapply list_elem_of_lookup_2, Hj | exact Hp].
Qed.

Lemma logBeforeCompleted_no_completed (new : list Event) :
  (∀ e r, e ∈ new → ¬ completedEvent r e) → logBeforeCompleted new.
Proof.
  intros Hno i j r ei ej Hi _ Hc _. exfalso.
  eapply Hno; [eapply list_elem_of_lookup_2, Hi | exact Hc].
Qed.

Lemma logBeforeCompleted_quiet (tr new : list Event) :
  logBeforeCompleted tr → Forall quiet new → logBeforeCompleted (tr ++ new).
Proof.
  intros Htr Hq. rewrite Forall_forall in Hq.
  apply logBeforeCompleted_app; [done | |].
  - apply logBeforeCompleted_no_progress. intros e r He. apply (Hq e He r).
  - intros e r He Hp. by destruct (proj1 (Hq e He r)).
Qed.

(** ** Identities *)

Lemma IdsOk_perm (ids ids' : list nat) (s s' : Laminar) :
  ids ≡ₚ ids' → nextRun s' = nextRun s → trace s' = trace s →
  IdsOk ids s → IdsOk ids' s'.
Proof.
  intros Hp Hn Ht (Hnd & Hlt & Hdone). unfold IdsOk. rewrite Hn, Ht.
  split; [by rewrite <- Hp|]. split.
  - intros r Hr. apply Hlt. by rewrite Hp.
  - intros e r He Hc. destruct (Hdone e r He Hc) as [Hr Hnot].
    split; [done|]. by rewrite <- Hp.
Qed.

Lemma IdsOk_quiet (ids : list nat) (s s' : Laminar) (new : list Event) :
  nextRun s' = nextRun s → trace s' = trace s ++ new → Forall quiet new →
  IdsOk ids s → IdsOk ids s'.
Proof.
  intros Hn Ht Hq (Hnd & Hlt & Hdone). unfold IdsOk. rewrite Hn, Ht.
  split; [done|]. split; [done|].
  intros e r He Hc. apply elem_of_app in He as [He | He]; [eauto|].
  rewrite Forall_forall in Hq. by destruct (proj2 (Hq e He r)).
Qed.

(** ** Counting runs on a node *)

Lemma countOn_app (a : nat) (l1 l2 : list Run) :
  countOn a (l1 ++ l2) = (countOn a l1 + countOn a l2)%nat.
Proof. unfold countOn. by rewrite filter_app, length_app. Qed.

Lemma countOn_same (a : nat) (l l' : list Run) :
  Forall2 sameRun l l' → countOn a l' = countOn a l.
Proof.
  unfold countOn. induction 1 as [|x y l l' (_ & _ & Hn) _ IH]; [done|].
  rewrite !filter_cons, Hn. destruct (decide (node x = Some a)); simpl; by rewrite IH.
Qed.

Lemma map_rid_same (l l' : list Run) : Forall2 sameRun l l' → map rid l' = map rid l.
Proof. induction 1 as [|x y l l' (Hr & _) _ IH]; [done|]. simpl. by rewrite Hr, IH. Qed.

Lemma updateRun_same (r : nat) (f : Run → Run) (l : list Run) :
  (∀ x, sameRun x (f x)) → Forall2 sameRun l (updateRun r f l).
Proof.
  intros Hf. unfold updateRun. induction l as [|x l IH]; simpl; [constructor|].
  constructor; [|done]. case_bool_decide; [apply Hf | apply sameRun_refl].
Qed.

Lemma map_same (f : Run → Run) (l : list Run) :
  (∀ x, sameRun x (f x)) → Forall2 sameRun l (map f l).
Proof. intros Hf. induction l as [|x l IH]; simpl; constructor; auto. Qed.

Lemma Forall2_sameRun_refl (l : list Run) : Forall2 sameRun l l.
Proof. induction l; constructor; [apply sameRun_refl | done]. Qed.

Lemma filter_all {A} (P : A → Prop) `{∀ x, Decision (P x)} (l : list A) :
  Forall P l → filter P l = l.
Proof.
  induction 1 as [|x l Hx _ IH]; [done|].
  by rewrite filter_cons_True, IH.
Qed.

(** Erasing the run with the identity of [x] from a list without
    duplicate identities removes [x] and nothing else. *)
Lemma erase_by_rid (l : list Run) (x : Run) :
  NoDup (map rid l) → x ∈ l → l ≡ₚ x :: filter (λ y, rid y ≠ rid x) l.
Proof.
  induction l as [|y l IH]; intros Hnd Hx; [by apply elem_of_nil in Hx|].
  simpl in Hnd. apply NoDup_cons in Hnd as [Hy Hnd].
  apply elem_of_cons in Hx as [-> | Hx].
  - rewrite filter_cons_False by (intros Hne; by apply Hne).
    rewrite filter_all; [done|].
    apply Forall_forall. intros z Hz Heq. apply Hy. rewrite <- Heq.
    apply list_elem_of_fmap. by exists z.
  - rewrite filter_cons_True.
    + rewrite (IH Hnd Hx) at 1. apply Permutation_swap.
    + intros Heq. apply Hy. rewrite Heq. apply list_elem_of_fmap. by exists x.
Qed.

Lemma countOn_perm (a : nat) (l l' : list Run) : l ≡ₚ l' → countOn a l = countOn a l'.
Proof. intros Hp. unfold countOn. by rewrite Hp. Qed.

Lemma countOn_erase (a : nat) (l : list Run) (x : Run) :
  NoDup (map rid l) → x ∈ l →
  countOn a l = ((if decide (node x = Some a) then 1 else 0)
                 + countOn a (filter (λ y, rid y ≠ rid x) l))%nat.
Proof.
  intros Hnd Hx. rewrite (countOn_perm a _ _ (erase_by_rid l x Hnd Hx)) at 1.
  unfold countOn. rewrite filter_cons. by destruct (decide (node x = Some a)).
Qed.

(** ** Executor accounting *)

Lemma nodeCanQueue_free (s : Laminar) (n : Node) (run : Run) :
  nodeCanQueue s n run = true → busyExecutors n < numExecutors n.
Proof. unfold nodeCanQueue. case_bool_decide; [discriminate | lia]. Qed.

Lemma Accounting_same (s s' : Laminar) :
  heap s' = heap s → nodes s' = nodes s → Forall2 sameRun (activeJobs s) (activeJobs s') →
  Accounting s → Accounting s'.
Proof.
  intros Hh Hn Hact (Hbusy & Hrun & Hreg). unfold Accounting. rewrite Hh, Hn.
  split; [|split; [|done]].
  - intros a n Ha. rewrite (countOn_same a _ _ Hact). by apply Hbusy.
  - intros y Hy. apply list_elem_of_lookup in Hy as [i Hi].
    destruct (Forall2_lookup_r _ _ _ _ _ Hact Hi) as (x & Hx & (_ & _ & Hnode)).
    rewrite Hnode. apply Hrun. by eapply list_elem_of_lookup_2.
Qed.

(** Taking an executor of the node at [a] for a run that is added to the
    active set. *)
Lemma Accounting_start (s s' : Laminar) (a : nat) (n : Node) (run' : Run) :
  Accounting s → heap s !! a = Some n → busyExecutors n < numExecutors n →
  node run' = Some a →
  heap s' = <[a := mkNode (nodeName n) (numExecutors n) (to_int (busyExecutors n + 1))
                          (tags n)]> (heap s) →
  nodes s' = nodes s → activeJobs s' = activeJobs s ++ [run'] →
  Accounting s' ∧ (WithinCapacity s → WithinCapacity s').
Proof.
  intros (Hbusy & Hrun & Hreg) Ha Hfree Hnode Hh Hn Hact.
  destruct (Hbusy a n Ha) as (Hcount & Hcap & Hlt).
  assert (Hlen : (a < length (heap s))%nat) by (by eapply lookup_lt_Some).
  assert (Hbump : to_int (busyExecutors n + 1) = busyExecutors n + 1).
  { apply to_int_id. unfold int_range in *. lia. }
  split.
  - unfold Accounting. rewrite Hh, Hn, Hact, length_insert. split; [|split; [|done]].
    + intros b nb Hb. rewrite countOn_app.
      destruct (decide (b = a)) as [-> | Hne].
      * rewrite list_lookup_insert_eq in Hb by done. injection Hb as <-. simpl.
        rewrite Hbump. unfold countOn at 2. rewrite filter_cons_True by done. simpl.
        unfold int_range in *. lia.
      * rewrite list_lookup_insert_ne in Hb by done.
        unfold countOn at 2. rewrite filter_cons_False by congruence. simpl.
        rewrite Nat.add_0_r. by apply Hbusy.
    + intros x Hx. apply elem_of_app in Hx as [Hx | Hx]; [by apply Hrun|].
      apply list_elem_of_singleton in Hx as ->. eauto.
  - intros Hwc b nb Hb. rewrite Hh in Hb.
    destruct (decide (b = a)) as [-> | Hne].
    + rewrite list_lookup_insert_eq in Hb by done. injection Hb as <-. simpl. lia.
    + rewrite list_lookup_insert_ne in Hb by done. by apply (Hwc b nb).
Qed.

Section Invariant.
Context `{E : Externals}.

(** The admission loop keeps the invariant, and keeps every node within
    its capacity. *)
Lemma assignLoop_inv (todo kept : list Run) (s : Laminar) :
  InvAt (map rid kept ++ map rid todo) s →
  Inv (assignLoop kept todo s) ∧
  (WithinCapacity s → WithinCapacity (assignLoop kept todo s)).
Proof.
  revert kept s. induction todo as [|run rest IH]; intros kept s (Hacc & Hids & Htr).
  { simpl. rewrite app_nil_r in Hids. split; [|done].
    split; [exact Hacc|]. split; [|exact Htr].
    eapply IdsOk_perm; [| | |exact Hids]; done. }
  simpl. destruct (tryStartRun run _ s) as [[ok run'] s'] eqn:Hst. destruct ok.
  - apply tryStartRun_true in Hst
      as (a & n & Hnode & Hid & _ & Hnd & Hh & _ & Hn & _ & Hact & _ & Hnext & new & Hnew & Hq).
    apply acceptingNode_Some in Hnode as (Ha & Hcan & _).
    apply nodeCanQueue_free in Hcan.
    destruct (Accounting_start s (with_activeJobs (activeJobs s' ++ [run']) s') a n run'
                Hacc Ha Hcan Hnd Hh Hn) as [Hacc' Hwc'].
    { simpl. by rewrite Hact. }
    destruct (IH kept (with_activeJobs (activeJobs s' ++ [run']) s')) as [Hinv Hwc].
    + split; [exact Hacc'|]. split.
      * eapply (IdsOk_quiet _ s _ new); [exact Hnext | exact Hnew | exact Hq |].
        eapply IdsOk_perm; [| reflexivity | reflexivity | exact Hids].
        simpl. rewrite Hact, map_app. simpl. rewrite Hid.
        rewrite <- !app_assoc. simpl.
        apply Permutation_app_head. rewrite (assoc_L (++)).
        apply Permutation_cons_append.
      * simpl. rewrite Hnew. by apply logBeforeCompleted_quiet.
    + split; [exact Hinv | auto].
  - apply tryStartRun_false in Hst
      as [(Hid & _) (_ & Hh & Hn & _ & _ & Hact & _ & _ & _ & Hnext & Htrace)].
    destruct (IH (kept ++ [run']) s') as [Hinv Hwc].
    + split; [|split].
      * eapply Accounting_same; [done | done | | exact Hacc].
        rewrite Hact. apply Forall2_sameRun_refl.
      * eapply IdsOk_perm; [| exact Hnext | | exact Hids]; [|by rewrite Htrace].
        rewrite Hact, map_app. simpl. rewrite Hid, <- !app_assoc. done.
      * by rewrite Htrace.
    + split; [exact Hinv|]. intros Hwcs. apply Hwc.
      intros b nb Hb. rewrite Hh in Hb. by apply (Hwcs b nb).
Qed.

Lemma assignNewJobs_inv (s : Laminar) :
  Inv s → Inv (assignNewJobs s) ∧ (WithinCapacity s → WithinCapacity (assignNewJobs s)).
Proof. intros Hinv. by apply (assignLoop_inv (queuedJobs s) [] s). Qed.

End Invariant.

(** ** Callbacks that change runs in place *)

Lemma progress_inj (r r' : nat) (e : Event) :
  progressEvent r e → progressEvent r' e → r = r'.
Proof.
  intros [(c & b & ->) | (st & ->)] [(c' & b' & Heq) | (st' & Heq)]; congruence.
Qed.

(** A callback that keeps the nodes, the queue and the identity, job and
    node of every active run, and that adds to the trace only quiet
    events and steps of active runs, keeps the invariant. *)
Lemma Inv_update (s s' : Laminar) (new : list Event) :
  Inv s →
  heap s' = heap s → nodes s' = nodes s → queuedJobs s' = queuedJobs s →
  nextRun s' = nextRun s → Forall2 sameRun (activeJobs s) (activeJobs s') →
  trace s' = trace s ++ new →
  (∀ e, e ∈ new → quiet e ∨ ∃ r, r ∈ map rid (activeJobs s) ∧ progressEvent r e) →
  Inv s'.
Proof.
  intros (Hacc & (Hnd & Hlt & Hdone) & Htr) Hh Hn Hq Hnext Hact Htrace Hnew.
  assert (Hnc : ∀ e r, e ∈ new → ¬ completedEvent r e).
  { intros e r He Hc. destruct (Hnew e He) as [Hquiet | (r' & _ & Hp)].
    - by destruct (proj2 (Hquiet r)).
    - by apply (progress_not_completed r' r e). }
  split; [by eapply Accounting_same|]. split.
  - unfold IdsOk. rewrite Hq, (map_rid_same _ _ Hact), Hnext, Htrace.
    split; [done|]. split; [done|].
    intros e r He Hc. apply elem_of_app in He as [He | He]; [eauto|].
    by destruct (Hnc e r He).
  - rewrite Htrace. apply logBeforeCompleted_app; [done | |].
    + by apply logBeforeCompleted_no_completed.
    + intros e r He Hp e0 He0 Hc.
      destruct (Hnew e He) as [Hquiet | (r' & Hr' & Hp')].
      * by destruct (proj1 (Hquiet r)).
      * rewrite (progress_inj r r' e Hp Hp') in *.
        destruct (Hdone e0 r' He0 Hc) as [_ Hnot]. apply Hnot.
        apply elem_of_app. by right.
Qed.

Lemma WithinCapacity_same (s s' : Laminar) :
  heap s' = heap s → WithinCapacity s → WithinCapacity s'.
Proof. intros Hh Hwc a n Ha. rewrite Hh in Ha. by apply (Hwc a n). Qed.

Lemma activeById_Some (s : Laminar) (r : nat) (run : Run) :
  activeById s r = Some run → run ∈ activeJobs s ∧ rid run = r.
Proof.
  unfold activeById. intros Hf. apply find_some_holds in Hf as [Hr Hin].
  split; [done|]. by apply bool_decide_eq_true in Hr.
Qed.

Lemma activeById_rid (s : Laminar) (r : nat) (run : Run) :
  activeById s r = Some run → r ∈ map rid (activeJobs s).
Proof.
  intros Hf. apply activeById_Some in Hf as [Hin <-].
  apply list_elem_of_fmap. by exists run.
Qed.

(** ** The terminal transition *)

Section Terminal.
Context `{E : Externals}.

Lemma insertBuild_quiet (row : BuildRow) (rows rows' : list BuildRow) (ins : list Event) :
  insertBuild row rows = (rows', ins) → Forall quiet ins.
Proof.
  unfold insertBuild. destruct (findBuild rows _ _); intros [= <- <-].
  - constructor.
  - constructor; [apply quiet_Inserted | constructor].
Qed.

(** What [runFinished] does before it runs the admission loop: the
    executor is given back, the run leaves the active set, and the events
    added to the trace are quiet or announce the completion of the run. *)
Lemma finishRun_shape (s : Laminar) (run : Run) (a : nat) (n : Node) :
  node run = Some a → heap s !! a = Some n →
  heap (finishRun run s)
    = <[a := mkNode (nodeName n) (numExecutors n) (to_int (busyExecutors n - 1)) (tags n)]>
        (heap s) ∧
  nodes (finishRun run s) = nodes s ∧
  queuedJobs (finishRun run s) = queuedJobs s ∧
  nextRun (finishRun run s) = nextRun s ∧
  activeJobs (finishRun run s) = filter (λ x, rid x ≠ rid run) (activeJobs s) ∧
  ∃ new,
    trace (finishRun run s) = trace s ++ new ∧
    Forall (λ e, quiet e ∨ (completedEvent (rid run) e ∧ ∀ r, ¬ progressEvent r e)) new.
Proof.
  intros Hnode Hn. unfold finishRun. rewrite Hnode. simpl. rewrite Hn. simpl.
  destruct (persistLog (log run)) as [maybeZipped logsize].
  destruct (insertBuild _ _) as [rows ins] eqn:Hins.
  apply insertBuild_quiet in Hins. simpl.
  repeat (split; [reflexivity|]).
  eexists. split; [rewrite <- !app_assoc; reflexivity|].
  apply Forall_app. split; [eapply Forall_impl; [exact Hins | by left]|].
  apply Forall_app. split.
  - apply fanout_Forall. intros c. right. split.
    + unfold completedEvent. by repeat eexists.
    + intros r [(? & ? & [=]) | (? & [=])].
  - apply Forall_forall. intros e He. apply list_elem_of_fmap in He as (w & -> & _).
    left. apply quiet_Woken.
Qed.

End Terminal.

Lemma completed_inj (r r' : nat) (e : Event) :
  completedEvent r e → completedEvent r' e → r = r'.
Proof.
  intros (? & ? & ? & ? & ? & ? & ? & ? & ? & ? & ->)
         (? & ? & ? & ? & ? & ? & ? & ? & ? & ? & [=]). done.
Qed.

Lemma elem_of_ids_erase (q : list nat) (l : list Run) (x : Run) (r : nat) :
  r ∈ q ++ map rid (filter (λ y, rid y ≠ rid x) l) → r ∈ q ++ map rid l.
Proof.
  intros Hr. apply elem_of_app in Hr as [Hr | Hr]; apply elem_of_app; [by left|].
  right. apply list_elem_of_fmap in Hr as (y & -> & Hy).
  apply list_elem_of_filter in Hy as [_ Hy]. apply list_elem_of_fmap. by exists y.
Qed.

Section TerminalInvariant.
Context `{E : Externals}.

Lemma finishRun_inv (s : Laminar) (run : Run) :
  Inv s → run ∈ activeJobs s →
  Inv (finishRun run s) ∧ (WithinCapacity s → WithinCapacity (finishRun run s)).
Proof.
  intros (Hacc & (Hnd & Hlt & Hdone) & Htr) Hrun.
  destruct Hacc as (Hbusy & Hact & Hreg).
  destruct (Hact run Hrun) as (a & Hnode & Hlen).
  destruct (lookup_lt_is_Some_2 _ _ Hlen) as [n Hn].
  destruct (finishRun_shape s run a n Hnode Hn)
    as (Hh & Hnodes & Hq & Hnext & Hactive & new & Htrace & Hnew).
  rewrite Forall_forall in Hnew.
  assert (Hnda : NoDup (map rid (activeJobs s))) by (by apply NoDup_app in Hnd as (_ & _ & ?)).
  destruct (Hbusy a n Hn) as (Hcount & Hcap & Hbig).
  pose proof (countOn_erase a _ run Hnda Hrun) as Hone.
  rewrite decide_True in Hone by done.
  assert (Hdec : to_int (busyExecutors n - 1) = busyExecutors n - 1).
  { apply to_int_id. unfold int_range in *. lia. }
  assert (Hrid : rid run ∈ map rid (activeJobs s)).
  { apply list_elem_of_fmap. by exists run. }
  split; [split; [|split]|].
  - unfold Accounting. rewrite Hh, Hnodes, Hactive, length_insert.
    split; [|split; [|done]].
    + intros b nb Hb. destruct (decide (b = a)) as [-> | Hne].
      * rewrite list_lookup_insert_eq in Hb by done. injection Hb as <-. simpl.
        rewrite Hdec. unfold int_range in *. lia.
      * rewrite list_lookup_insert_ne in Hb by done.
        pose proof (countOn_erase b _ run Hnda Hrun) as Hb1.
        rewrite decide_False in Hb1 by congruence. simpl in Hb1. rewrite <- Hb1.
        by apply Hbusy.
    + intros x Hx. apply list_elem_of_filter in Hx as [_ Hx]. by apply Hact.
  - unfold IdsOk. rewrite Hq, Hactive, Hnext, Htrace. split; [|split].
    + eapply sublist_NoDup; [exact Hnd|].
      apply sublist_app; [done|]. apply (fmap_sublist rid), sublist_filter.
    + intros r Hr. apply Hlt. by eapply elem_of_ids_erase.
    + intros e r He Hc. apply elem_of_app in He as [He | He].
      * destruct (Hdone e r He Hc) as [Hr Hnot]. split; [done|].
        intros Hin. apply Hnot. by eapply elem_of_ids_erase.
      * destruct (Hnew e He) as [Hquiet | [Hc' _]]; [by destruct (proj2 (Hquiet r))|].
        rewrite (completed_inj r (rid run) e Hc Hc'). split.
        -- apply Hlt. apply elem_of_app. by right.
        -- intros Hin. apply elem_of_app in Hin as [Hin | Hin].
           ++ apply NoDup_app in Hnd as (_ & Hdisj & _). by apply (Hdisj (rid run)).
           ++ apply list_elem_of_fmap in Hin as (y & Hy & Hin).
              apply list_elem_of_filter in Hin as [Hne _]. by apply Hne.
  - rewrite Htrace. apply logBeforeCompleted_app; [done | |].
    + apply logBeforeCompleted_no_progress. intros e r He Hp.
      destruct (Hnew e He) as [Hquiet | [_ Hno]].
      * by destruct (proj1 (Hquiet r)).
      * by apply (Hno r).
    + intros e r He Hp. destruct (Hnew e He) as [Hquiet | [_ Hno]].
      * by destruct (proj1 (Hquiet r)).
      * by destruct (Hno r).
  - intros Hwc b nb Hb. rewrite Hh in Hb. destruct (decide (b = a)) as [-> | Hne].
    + rewrite list_lookup_insert_eq in Hb by done. injection Hb as <-. simpl.
      rewrite Hdec. pose proof (Hwc a n Hn). lia.
    + rewrite list_lookup_insert_ne in Hb by done. by apply (Hwc b nb).
Qed.

Lemma runFinished_inv (s : Laminar) (run : Run) :
  Inv s → run ∈ activeJobs s →
  Inv (runFinished run s) ∧ (WithinCapacity s → WithinCapacity (runFinished run s)).
Proof.
  intros Hinv Hrun. destruct (finishRun_inv s run Hinv Hrun) as [Hmid Hwc].
  destruct (assignNewJobs_inv (finishRun run s) Hmid) as [Hfin Hwc'].
  split; [exact Hfin | auto].
Qed.

End TerminalInvariant.

(** ** Configuration reload and the accounting *)

Lemma countOn_beyond (l : list Run) (len : nat) :
  (∀ x, x ∈ l → ∃ a, node x = Some a ∧ (a < len)%nat) → countOn len l = 0%nat.
Proof.
  intros Hl. unfold countOn. induction l as [|x l IH]; [done|].
  destruct (Hl x) as (a & Ha & Hlt); [apply elem_of_cons; by left|].
  rewrite filter_cons_False.
  - apply IH. intros y Hy. apply Hl. apply elem_of_cons. by right.
  - rewrite Ha. intros [= ->]. lia.
Qed.

(** A node object is rewritten in place with its busy count kept. *)
Lemma Accounting_set (s s' : Laminar) (a : nat) (n n' : Node) :
  Accounting s → heap s !! a = Some n →
  busyExecutors n' = busyExecutors n → int_range (numExecutors n') →
  heap s' = <[a := n']> (heap s) → nodes s' = nodes s → activeJobs s' = activeJobs s →
  Accounting s'.
Proof.
  intros (Hbusy & Hact & Hreg) Hn Hb Hcap Hh Hnodes Hactive.
  assert (Hlen : (a < length (heap s))%nat) by (by eapply lookup_lt_Some).
  unfold Accounting. rewrite Hh, Hnodes, Hactive, length_insert.
  split; [|by split].
  intros b nb Hnb. destruct (decide (b = a)) as [-> | Hne].
  - rewrite list_lookup_insert_eq in Hnb by done. injection Hnb as <-.
    destruct (Hbusy a n Hn) as (? & ? & ?). rewrite Hb.
    split; [done | split; [exact Hcap | done]].
  - rewrite list_lookup_insert_ne in Hnb by done. by apply Hbusy.
Qed.

(** A new idle node object is allocated. *)
Lemma Accounting_alloc (s s' : Laminar) (n0 : Node) :
  Accounting s → busyExecutors n0 = 0 → int_range (numExecutors n0) →
  heap s' = heap s ++ [n0] →
  (∀ nm a, nodes s' !! nm = Some a → (a ≤ length (heap s))%nat) →
  activeJobs s' = activeJobs s →
  Accounting s'.
Proof.
  intros (Hbusy & Hact & Hreg) Hb Hcap Hh Hnodes Hactive.
  unfold Accounting. rewrite Hh, Hactive, length_app. simpl. split; [|split].
  - intros b nb Hnb. destruct (decide (b < length (heap s))%nat) as [Hlt | Hge].
    + rewrite lookup_app_l in Hnb by done. by apply Hbusy.
    + rewrite lookup_app_r in Hnb by lia.
      destruct (b - length (heap s))%nat as [|k] eqn:Hk; [|by destruct k].
      injection Hnb as <-. assert (b = length (heap s)) as -> by lia.
      rewrite (countOn_beyond _ _ Hact), Hb. split; [done | split; [exact Hcap | lia]].
  - intros x Hx. destruct (Hact x Hx) as (a & Ha & Hlt). exists a. split; [done | lia].
  - intros nm a Ha. apply Hnodes in Ha. lia.
Qed.

Lemma int_range_6 : int_range 6.
Proof. unfold int_range. lia. Qed.

Lemma loadNode_inv (s : Laminar) (known : gset string) (entry : string * NodeConf) :
  Accounting s →
  Accounting (loadNode (s, known) entry).1 ∧ sameRuns s (loadNode (s, known) entry).1.
Proof.
  intros Hacc. destruct entry as [nm conf]. unfold loadNode.
  destruct (nodes s !! nm) as [a|] eqn:Hreg.
  - pose proof Hacc as (Hbusy & Hact & Hnodes).
    destruct (lookup_lt_is_Some_2 _ _ (Hnodes nm a Hreg)) as [n Hn].
    rewrite Hn. simpl. split; [|by repeat split].
    eapply (Accounting_set s _ a n
              (mkNode nm (to_int (nc_EXECUTORS conf)) (busyExecutors n) _));
      [exact Hacc | exact Hn | reflexivity | apply to_int_range
      | reflexivity | reflexivity | reflexivity].
  - simpl. rewrite lookup_app_r by lia. rewrite Nat.sub_diag. simpl.
    split; [|by repeat split].
    set (s1 := with_nodes (<[nm := length (heap s)]> (nodes s))
                          (with_heap (heap s ++ [newNode]) s)).
    assert (Hacc1 : Accounting s1).
    { eapply (Accounting_alloc s s1 newNode);
        [exact Hacc | reflexivity | apply int_range_6 | reflexivity | | reflexivity].
      intros nm' a. simpl. destruct (decide (nm = nm')) as [-> | Hne].
      - rewrite lookup_insert_eq. by intros [= <-].
      - rewrite lookup_insert_ne by done. intros Ha.
        destruct Hacc as (_ & _ & Hnodes). apply Hnodes in Ha. lia. }
    eapply (Accounting_set s1 _ (length (heap s)) newNode
              (mkNode nm (to_int (nc_EXECUTORS conf)) (busyExecutors newNode) _));
      [exact Hacc1 | | reflexivity | apply to_int_range
      | reflexivity | reflexivity | reflexivity].
    simpl. rewrite lookup_app_r by lia. by rewrite Nat.sub_diag.
Qed.

Lemma sameRuns_refl (s : Laminar) : sameRuns s s.
Proof. by repeat split. Qed.

Lemma sameRuns_trans (s1 s2 s3 : Laminar) : sameRuns s1 s2 → sameRuns s2 s3 → sameRuns s1 s3.
Proof.
  unfold sameRuns. intros (-> & -> & -> & ->) (-> & -> & -> & ->). done.
Qed.

Lemma loadNodes_inv (l : list (string * NodeConf)) (s : Laminar) (known : gset string) :
  Accounting s →
  Accounting (foldl loadNode (s, known) l).1 ∧ sameRuns s (foldl loadNode (s, known) l).1.
Proof.
  revert s known. induction l as [|entry l IH]; intros s known Hacc.
  { split; [done | apply sameRuns_refl]. }
  change (foldl loadNode (s, known) (entry :: l))
    with (foldl loadNode (loadNode (s, known) entry) l).
  destruct (loadNode_inv s known entry Hacc) as [Hacc1 Hsame1].
  destruct (loadNode (s, known) entry) as [s1 known1]. simpl in Hacc1, Hsame1.
  destruct (IH s1 known1 Hacc1) as [Hacc2 Hsame2].
  split; [exact Hacc2 | eapply sameRuns_trans; [exact Hsame1 | exact Hsame2]].
Qed.

Lemma loadJob_frame (s : Laminar) (entry : string * JobConf) :
  heap (loadJob s entry) = heap s ∧ nodes (loadJob s entry) = nodes s ∧
  sameRuns s (loadJob s entry).
Proof.
  destruct entry as [jn conf]. unfold loadJob.
  destruct (decide (jc_TAGS conf = EmptyString)); by repeat split.
Qed.

Lemma loadJobs_frame (l : list (string * JobConf)) (s : Laminar) :
  heap (foldl loadJob s l) = heap s ∧ nodes (foldl loadJob s l) = nodes s ∧
  sameRuns s (foldl loadJob s l).
Proof.
  revert s. induction l as [|entry l IH]; intros s.
  { split; [done|]. split; [done | apply sameRuns_refl]. }
  change (foldl loadJob s (entry :: l)) with (foldl loadJob (loadJob s entry) l).
  destruct (IH (loadJob s entry)) as (Hh & Hn & Hsame).
  destruct (loadJob_frame s entry) as (Hh1 & Hn1 & Hsame1).
  rewrite Hh, Hn. split; [done|]. split; [done|].
  eapply sameRuns_trans; [exact Hsame1 | exact Hsame].
Qed.

Lemma loadConfiguration_inv (s : Laminar) :
  Accounting s → Accounting (loadConfiguration s) ∧ sameRuns s (loadConfiguration s).
Proof.
  intros Hacc. unfold loadConfiguration.
  set (s0 := match keepRunDirs (world s) with
             | Some ndirs => with_numKeepRunDirs (to_uint (atoi ndirs)) s
             | None => s
             end).
  assert (H0 : Accounting s0 ∧ sameRuns s s0).
  { subst s0. destruct (keepRunDirs (world s)); [|split; [done | apply sameRuns_refl]].
    split; [|by repeat split].
    eapply Accounting_same; [| | |exact Hacc]; try done. apply Forall2_sameRun_refl. }
  destruct H0 as [Hacc0 Hsame0].
  destruct (loadNodes_inv (nodeConfs (world s0)) s0 ∅ Hacc0) as [Hacc1 Hsame1].
  destruct (foldl loadNode (s0, ∅) (nodeConfs (world s0))) as [s1 knownNodes].
  simpl in Hacc1, Hsame1.
  set (kept := filter _ (nodes s1)).
  assert (Hacc2 : Accounting (with_nodes kept s1)).
  { destruct Hacc1 as (Hbusy & Hact & Hreg). split; [done|]. split; [done|].
    intros nm a Ha. simpl in Ha. subst kept.
    apply map_lookup_filter_Some in Ha as [Ha _]. by eapply Hreg. }
  set (s2 := with_nodes kept s1) in *.
  set (s3 := if decide (nodes s2 = ∅) then _ else s2).
  assert (H3 : Accounting s3 ∧ sameRuns s2 s3).
  { subst s3. destruct (decide (nodes s2 = ∅)) as [Hempty|]; [|split; [done | apply sameRuns_refl]].
    split; [|by repeat split].
    eapply (Accounting_alloc s2 _ (mkNode EmptyString 6 (busyExecutors newNode) (tags newNode)));
      [exact Hacc2 | reflexivity | apply int_range_6 | reflexivity | | reflexivity].
    intros nm a. simpl. simpl in Hempty. rewrite Hempty.
    destruct (decide (EmptyString = nm)) as [<- | Hne].
    - rewrite lookup_insert_eq. by intros [= <-].
    - rewrite lookup_insert_ne by done. by rewrite lookup_empty. }
  destruct H3 as [Hacc3 Hsame3].
  destruct (loadJobs_frame (jobConfs (world s3)) s3) as (Hh & Hn & Hsame4).
  split.
  - eapply Accounting_same; [exact Hh | exact Hn | | exact Hacc3].
    destruct Hsame4 as (_ & -> & _). apply Forall2_sameRun_refl.
  - eapply sameRuns_trans; [exact Hsame0|].
    eapply sameRuns_trans; [exact Hsame1|].
    eapply sameRuns_trans; [|exact Hsame4].
    eapply sameRuns_trans; [|exact Hsame3]. by repeat split.
Qed.

Lemma Inv_sameRuns (s s' : Laminar) : Accounting s' → sameRuns s s' → Inv s → Inv s'.
Proof.
  intros Hacc (Hq & Ha & Hn & Ht) (_ & Hids & Htr).
  split; [done|]. split.
  - rewrite Hq, Ha. eapply IdsOk_perm; [| exact Hn | exact Ht | exact Hids]. done.
  - by rewrite Ht.
Qed.

(** ** Every callback keeps the invariant *)

Section Reachable.
Context `{E : Externals}.

Lemma queueJob_inv (jn : string) (ps : gmap string string) (s : Laminar) :
  Inv s →
  Inv (queueJob jn ps s).2 ∧ (WithinCapacity s → WithinCapacity (queueJob jn ps s).2).
Proof.
  intros Hinv. unfold queueJob.
  destruct (negb (fs_exists _ _)); [done|]. cbn [snd].
  match goal with |- context [assignNewJobs ?x] => set (s1 := x) end.
  assert (Hinv1 : Inv s1).
  { destruct Hinv as (Hacc & (Hnd & Hlt & Hdone) & Htr).
    split; [|split].
    - eapply (Accounting_same s); [reflexivity | reflexivity | | exact Hacc].
      apply Forall2_sameRun_refl.
    - subst s1. unfold IdsOk. simpl. rewrite map_app. simpl.
      assert (Hfresh : nextRun s ∉ map rid (queuedJobs s) ++ map rid (activeJobs s)).
      { intros Hin. apply Hlt in Hin. lia. }
      split; [|split].
      + rewrite <- app_assoc. simpl. rewrite <- Permutation_middle.
        apply NoDup_cons. by split.
      + intros r Hr. rewrite <- app_assoc in Hr. simpl in Hr.
        rewrite <- Permutation_middle in Hr.
        apply elem_of_cons in Hr as [-> | Hr]; [lia|]. apply Hlt in Hr. lia.
      + intros e r He Hc. apply elem_of_app in He as [He | He].
        * destruct (Hdone e r He Hc) as [Hr Hnot]. split; [lia|].
          rewrite <- app_assoc. simpl. rewrite <- Permutation_middle.
          intros Hin. apply elem_of_cons in Hin as [-> | Hin]; [lia | done].
        * exfalso. unfold fanout in He. apply list_elem_of_fmap in He as (c & -> & _).
          by destruct (proj2 (quiet_job_queued (cid c) (nextRun s) jn r)).
    - subst s1. simpl. apply logBeforeCompleted_quiet; [done|].
      apply fanout_Forall. intros c. apply quiet_job_queued. }
  destruct (assignNewJobs_inv s1 Hinv1) as [Hfin Hwc].
  split; [exact Hfin|]. intros Hwcs. apply Hwc.
  by apply (WithinCapacity_same s).
Qed.

Lemma onData_inv (r : nat) (bytes : string) (s : Laminar) : Inv s → Inv (onData r bytes s).
Proof.
  intros Hinv. unfold onData.
  destruct (activeById s r) as [run|] eqn:Hrun; [|done].
  destruct (phase run); try done.
  eapply (Inv_update s); [exact Hinv | reflexivity | reflexivity | reflexivity | reflexivity
                         | | reflexivity |].
  - simpl. apply updateRun_same. intros x. by repeat split.
  - intros e He. right. exists r. split; [by eapply activeById_rid|].
    unfold fanout in He. apply list_elem_of_fmap in He as (c & -> & _).
    left. by eexists _, _.
Qed.

Lemma onReaped_inv (r : nat) (st : Z) (s : Laminar) :
  Inv s → r ∈ map rid (activeJobs s) → Inv (onReaped r st s).
Proof.
  intros Hinv Hr. unfold onReaped.
  eapply (Inv_update s); [exact Hinv | reflexivity | reflexivity | reflexivity | reflexivity
                         | | reflexivity |].
  - simpl. apply updateRun_same. intros x.
    eapply sameRun_trans; [apply reaped_same | apply handleRunStep_same].
  - intros e He. apply list_elem_of_singleton in He as ->.
    right. exists r. split; [done|]. right. by eexists.
Qed.

(** A callback that changes active runs in place and adds nothing to the
    trace. *)
Lemma Inv_silent (s s' : Laminar) :
  Inv s → heap s' = heap s → nodes s' = nodes s → queuedJobs s' = queuedJobs s →
  nextRun s' = nextRun s → Forall2 sameRun (activeJobs s) (activeJobs s') →
  trace s' = trace s → Inv s'.
Proof.
  intros Hinv Hh Hn Hq Hnext Hact Htr.
  eapply (Inv_update s s' []); try done.
  - by rewrite app_nil_r.
  - intros e He. by apply elem_of_nil in He.
Qed.

Lemma Inv_status (s s' : Laminar) (c : nat) (m : Message) :
  Inv s → heap s' = heap s → nodes s' = nodes s → queuedJobs s' = queuedJobs s →
  nextRun s' = nextRun s → activeJobs s' = activeJobs s →
  trace s' = trace s ++ [Status c m] → Inv s'.
Proof.
  intros Hinv Hh Hn Hq Hnext Hact Htr.
  eapply (Inv_update s s' [Status c m]); try done.
  - rewrite Hact. apply Forall2_sameRun_refl.
  - intros e He. apply list_elem_of_singleton in He as ->. left. apply quiet_Status.
Qed.

Lemma sendStatus_inv (c : LaminarClient) (s : Laminar) :
  Inv s → Inv (sendStatus c s) ∧ heap (sendStatus c s) = heap s.
Proof.
  intros Hinv. unfold sendStatus. destruct (stype (scope c)).
  - split; [by eapply Inv_status | done].
  - split; [by eapply Inv_status | done].
  - split; [by eapply Inv_status | done].
  - split; [by eapply Inv_status | done].
  - destruct (activeRun s _ _); [split; [by eapply Inv_status | done]|].
    destruct (findBuild _ _ _); [|done].
    destruct (fetchLog _ _); [|done].
    split; [by eapply Inv_status | done].
Qed.

Lemma react_inv (s : Laminar) (i : Input) :
  Inv s → Inv (react s i) ∧ (i ≠ ConfigChanged → WithinCapacity s → WithinCapacity (react s i)).
Proof.
  intros Hinv. destruct i; simpl.
  - destruct (queueJob_inv jname ps s Hinv) as [H1 H2]. split; [done | auto].
  - split; [|done]. unfold notifyConfigChanged.
    destruct (loadConfiguration_inv s) as [Hacc Hsame]; [apply Hinv|].
    apply assignNewJobs_inv. by eapply Inv_sameRuns.
  - split; [by apply onData_inv|]. intros _. apply WithinCapacity_same.
    unfold onData. destruct (activeById s r); [|done]. by destruct (phase _).
  - split.
    + unfold onEof. destruct (activeById s r) as [run|] eqn:Hrun; [|done].
      destruct (phase run) as [|[st|]| |]; try done.
      * apply onReaped_inv; [done | by eapply activeById_rid].
      * eapply Inv_silent; try done. simpl. apply updateRun_same. intros x. by repeat split.
    + intros _. apply WithinCapacity_same.
      unfold onEof. destruct (activeById s r); [|done].
      by destruct (phase _) as [|[st|]| |].
  - split.
    + unfold onExit. destruct (activeById s r) as [run|] eqn:Hrun; [|done].
      destruct (phase run) as [|[st|]| |]; try done.
      * eapply Inv_silent; try done. simpl. apply updateRun_same. intros x. by repeat split.
      * apply onReaped_inv; [done | by eapply activeById_rid].
    + intros _. apply WithinCapacity_same.
      unfold onExit. destruct (activeById s r); [|done].
      by destruct (phase _) as [|[st|]| |].
  - unfold resume. destruct (activeById s r) as [run|] eqn:Hrun; [|by split].
    destruct (phase run); try (by split).
    apply activeById_Some in Hrun as [Hrun _].
    destruct (runFinished_inv s run Hinv Hrun) as [H1 H2]. split; [done | auto].
  - split; [|intros _; by apply WithinCapacity_same].
    eapply Inv_silent; try done. simpl. apply updateRun_same. intros x. by repeat split.
  - split; [|intros _; by apply WithinCapacity_same].
    eapply Inv_silent; try done. simpl. apply map_same. intros x. by repeat split.
  - split.
    + unfold setParam. destruct (activeRun s jname buildNum); [|done]. simpl.
      eapply Inv_silent; try done. simpl. apply updateRun_same. intros x. by repeat split.
    + intros _. apply WithinCapacity_same. unfold setParam.
      by destruct (activeRun s jname buildNum).
  - split; [|intros _; by apply WithinCapacity_same].
    eapply Inv_silent; try done. apply Forall2_sameRun_refl.
  - split; [|intros _; by apply WithinCapacity_same].
    eapply Inv_silent; try done. apply Forall2_sameRun_refl.
  - split; [|intros _; by apply WithinCapacity_same].
    eapply Inv_silent; try done. apply Forall2_sameRun_refl.
  - split; [|intros _; by apply WithinCapacity_same].
    eapply Inv_silent; try done. apply Forall2_sameRun_refl.
  - destruct (sendStatus_inv c s Hinv) as [H1 H2].
    split; [done | intros _; by apply WithinCapacity_same].
  - split; [|intros _; by apply WithinCapacity_same].
    eapply Inv_silent; try done. apply Forall2_sameRun_refl.
Qed.

Lemma construct_inv (home : string) (w : World) (rows : list BuildRow) :
  Inv (construct home w rows).
Proof.
  unfold construct.
  set (s0 := mkLaminar home 0 [] ∅ ∅ (lastBuildNums rows) [] [] [] [] rows O w []).
  assert (Hinv0 : Inv s0).
  { split; [|split].
    - split; [|split].
      + intros a n Ha. simpl in Ha. by rewrite lookup_nil in Ha.
      + intros x Hx. simpl in Hx. by apply elem_of_nil in Hx.
      + intros nm a Ha. simpl in Ha. by rewrite lookup_empty in Ha.
    - split; [constructor|]. split.
      + intros r Hr. simpl in Hr. by apply elem_of_nil in Hr.
      + intros e r He. simpl in He. by apply elem_of_nil in He.
    - intros i j r ei ej Hi. simpl in Hi. by rewrite lookup_nil in Hi. }
  destruct (loadConfiguration_inv s0) as [Hacc Hsame]; [apply Hinv0|].
  by eapply Inv_sameRuns.
Qed.

Lemma reachable_inv (home : string) (w : World) (rows : list BuildRow) (s : Laminar) :
  reachable home w rows s → Inv s.
Proof.
  intros [inputs ->]. induction inputs as [|i inputs IH] using rev_ind.
  - apply construct_inv.
  - rewrite foldl_app. simpl. by apply react_inv.
Qed.

End Reachable.

(** ** Executor accounting of reachable states *)

(** C2 (amended). Between callbacks every node object, registered or
    still referred to by a run, has a busy count equal to the number of
    active runs placed on it, and that count is not negative. Every
    callback other than a configuration reload keeps the busy counts within
    the capacities. *)
Theorem C2_busy_counts_active_runs `{E : Externals}
    (home : string) (w : World) (rows : list BuildRow) (s : Laminar) :
  reachable home w rows s →
  (∀ a n, heap s !! a = Some n →
     busyExecutors n = Z.of_nat (countOn a (activeJobs s)) ∧ 0 ≤ busyExecutors n) ∧
  (∀ nm a, nodes s !! nm = Some a → is_Some (heap s !! a)) ∧
  (∀ x, x ∈ activeJobs s → ∃ a, node x = Some a ∧ is_Some (heap s !! a)) ∧
  (∀ i, i ≠ ConfigChanged → WithinCapacity s → WithinCapacity (react s i)).
Proof.
  intros Hreach. pose proof (reachable_inv home w rows s Hreach) as Hinv.
  destruct Hinv as [(Hbusy & Hact & Hreg) Hrest].
  split; [|split; [|split]].
  - intros a n Ha. destruct (Hbusy a n Ha) as (Hc & _ & _). split; [done | lia].
  - intros nm a Ha. apply lookup_lt_is_Some_2. by eapply Hreg.
  - intros x Hx. destruct (Hact x Hx) as (a & Ha & Hlt).
    exists a. split; [done | by apply lookup_lt_is_Some_2].
  - intros i Hi. apply react_inv; [|done]. by split.
Qed.

(** C2 on the state with two running builds on the two executors of the
    node [a]. *)
Lemma C2_busy_counts_active_runs_witness :
  reachable (H := Sample.externals) "/h" (Sample.world1 2 "") [] Sample.twoRunning ∧
  ∀ a n, heap Sample.twoRunning !! a = Some n →
    busyExecutors n = Z.of_nat (countOn a (activeJobs Sample.twoRunning)) ∧
    0 ≤ busyExecutors n.
Proof.
  assert (Hreach : reachable (H := Sample.externals) "/h" (Sample.world1 2 "") []
                     Sample.twoRunning).
  { exists [QueueJob "j" ∅; QueueJob "j" ∅]. reflexivity. }
  split; [exact Hreach|].
  exact (proj1 (C2_busy_counts_active_runs (E := Sample.externals)
                  "/h" (Sample.world1 2 "") [] Sample.twoRunning Hreach)).
Defined.

(** The claim C2 fails as stated: after two builds were started on the two
    executors of [a] and the file of [a] was rewritten to one executor, a
    reload leaves the node with busy count 2 and capacity 1. *)
Lemma C2_counterexample :
  let s := foldl (react (H := Sample.externals)) (Sample.fresh 2 "") Sample.lowered in
  reachable (H := Sample.externals) "/h" (Sample.world1 2 "") [] s ∧
  map (λ n, (nodeName n, numExecutors n, busyExecutors n)) (heap s) = [("a", 1, 2)] ∧
  map node (activeJobs s) = [Some 0%nat; Some 0%nat].
Proof.
  split; [exists Sample.lowered; reflexivity|].
  vm_compute. split; reflexivity.
Qed.

(** ** Log chunks come before the completion event *)



(** The trace of the watched build. *)
Lemma watched_trace :
  map (λ e, match e with
            | Sent c r (raw b) => (c, r, "log")
            | Sent c r (job_completed _ _ _ _ _ _ _ _ _) => (c, r, "job_completed")
            | Sent c r (job_started _ _ _ _ _ _ _ _) => (c, r, "job_started")
            | Sent c r _ => (c, r, "other")
            | Reaped r _ => (0%nat, r, "reaped")
            | Inserted _ => (0%nat, 0%nat, "inserted")
            | Woken _ r => (0%nat, r, "woken")
            | Status c _ => (c, 0%nat, "status")
            end)
      (trace (foldl (react (H := Sample.externals)) (Sample.fresh 1 "") Sample.watched))
  = [(7%nat, 0%nat, "other"); (7%nat, 0%nat, "job_started"); (9%nat, 0%nat, "log");
     (0%nat, 0%nat, "reaped"); (0%nat, 0%nat, "inserted"); (7%nat, 0%nat, "job_completed")].
Proof. vm_compute. reflexivity. Qed.

(** * Further properties of the code *)

(** ** Splitting the value of TAGS *)

Lemma append_cons (c : ascii) (s t : string) : String c s +:+ t = String c (s +:+ t).
Proof. reflexivity. Qed.

Lemma append_nil_l (t : string) : EmptyString +:+ t = t.
Proof. reflexivity. Qed.

Lemma append_nil_r (s : string) : s +:+ EmptyString = s.
Proof.
  induction s as [|c s IH]; [done|]. by rewrite append_cons, IH.
Qed.

Lemma append_assoc (a b c : string) : (a +:+ b) +:+ c = a +:+ (b +:+ c).
Proof.
  induction a as [|x a IH]; [done|]. by rewrite !append_cons, IH.
Qed.

Lemma occurs_append (c : ascii) (a b : string) :
  occurs c (a +:+ b) = occurs c a || occurs c b.
Proof.
  induction a as [|x a IH]; [done|].
  rewrite append_cons. simpl. rewrite IH. by rewrite orb_assoc.
Qed.

(** A stretch without comma is read into the current tag. *)
Lemma getlines_append (t cur rest : string) :
  occurs ","%char t = false →
  getlines cur (t +:+ rest) = getlines (cur +:+ t) rest.
Proof.
  revert cur. induction t as [|c t IH]; intros cur Hfree.
  { by rewrite append_nil_l, append_nil_r. }
  simpl in Hfree. apply orb_false_iff in Hfree as [Hc Ht].
  apply bool_decide_eq_false in Hc.
  rewrite append_cons. simpl.
  rewrite decide_False by done. rewrite IH by done.
  by rewrite append_assoc.
Qed.

(** No tag that the loop produces holds a comma. *)
Lemma getlines_comma_free (s cur t : string) :
  occurs ","%char cur = false → t ∈ getlines cur s → occurs ","%char t = false.
Proof.
  revert cur. induction s as [|c s IH]; intros cur Hcur Ht; simpl in Ht.
  - destruct (decide (cur = EmptyString)); [by apply elem_of_nil in Ht|].
    by apply list_elem_of_singleton in Ht as ->.
  - destruct (decide (c = ","%char)) as [-> | Hne].
    + apply elem_of_cons in Ht as [-> | Ht]; [done|]. by apply (IH EmptyString).
    + apply (IH (cur +:+ String c EmptyString)); [|done].
      rewrite occurs_append, Hcur. simpl. by rewrite bool_decide_false.
Qed.

(** X1 (tags round trip). Splitting the comma-joined list of tags gives the
    list back, when no tag holds a comma and the last tag is not empty;
    and whatever the value of TAGS, no tag of the set holds a comma. *)
Theorem tags_split_join (l : list string) :
  Forall (λ t, occurs ","%char t = false) l →
  last l ≠ Some EmptyString →
  getlines EmptyString (joinTags l) = l ∧
  tagList (joinTags l) = list_to_set l ∧
  ∀ v t, t ∈ tagList v → occurs ","%char t = false.
Proof.
  intros Hfree Hlast.
  assert (Hsplit : getlines EmptyString (joinTags l) = l).
  { induction l as [|t l IH]; [done|].
    apply Forall_cons in Hfree as [Ht Hl].
    destruct l as [|u l].
    - pose proof (getlines_append t EmptyString EmptyString Ht) as Hone.
      rewrite append_nil_r, append_nil_l in Hone.
      change (joinTags [t]) with t. rewrite Hone. simpl.
      rewrite decide_False; [done|]. intros ->. by apply Hlast.
    - change (joinTags (t :: u :: l)) with (t +:+ String ","%char (joinTags (u :: l))).
      rewrite getlines_append, append_nil_l by done. simpl.
      f_equal. apply IH; [done|]. intros Hl'. apply Hlast. by rewrite last_cons, Hl'. }
  split; [exact Hsplit|]. split; [unfold tagList; by rewrite Hsplit|].
  intros v t Ht. unfold tagList in Ht. apply elem_of_list_to_set in Ht.
  by apply (getlines_comma_free v EmptyString).
Qed.

(** The two tags of a node file [TAGS=linux,gpu]. *)
Lemma tags_split_join_witness :
  getlines EmptyString (joinTags ["linux"; "gpu"]) = ["linux"; "gpu"].
Proof.
  apply (tags_split_join ["linux"; "gpu"]).
  - repeat constructor.
  - simpl. discriminate.
Defined.

(** ** The live log *)

Lemma c_str_whole (s : string) : occurs NUL s = false → c_str s = s.
Proof.
  induction s as [|c s IH]; intros Hs; [done|].
  simpl in *. apply orb_false_iff in Hs as [Hc Hs].
  apply bool_decide_eq_false in Hc. rewrite decide_False by done. by rewrite IH.
Qed.

Lemma c_str_cut (a b : string) :
  occurs NUL a = false → c_str (a +:+ String NUL b) = a.
Proof.
  induction a as [|c a IH]; intros Ha.
  - reflexivity.
  - simpl in Ha. apply orb_false_iff in Ha as [Hc Ha].
    apply bool_decide_eq_false in Hc.
    rewrite append_cons. simpl. rewrite decide_False by done. by rewrite IH.
Qed.

(** X2 (live log snapshot). A client of LOG scope that asks for the log of
    a build that is still running is sent the log collected so far up to
    its first NUL byte: all of it when it holds none. *)
Theorem live_log_snapshot `{E : Externals} (c : LaminarClient) (s : Laminar) (run : Run) :
  stype (scope c) = LOG →
  activeRun s (job (scope c)) (num (scope c)) = Some run →
  (occurs NUL (log run) = false →
     trace (sendStatus c s) = trace s ++ [Status (cid c) (raw (log run))]) ∧
  (∀ a b, log run = a +:+ String NUL b → occurs NUL a = false →
     trace (sendStatus c s) = trace s ++ [Status (cid c) (raw a)]).
Proof.
  intros Hlog Hrun. unfold sendStatus. rewrite Hlog, Hrun. simpl. split.
  - intros Hfree. by rewrite c_str_whole.
  - intros a b Hab Ha. by rewrite Hab, c_str_cut.
Qed.

(** The build has written [ab], a NUL byte and [cd]: the client gets [ab]. *)
Lemma live_log_snapshot_witness :
  (stype (scope Scenario.logClient) = LOG ∧
   activeRun Scenario.live (job (scope Scenario.logClient)) (num (scope Scenario.logClient))
     = Some Scenario.liveRun ∧
   log Scenario.liveRun = "ab" +:+ String NUL "cd" ∧
   occurs NUL "ab" = false) ∧
  trace (sendStatus (H := Sample.externals) Scenario.logClient Scenario.live)
  = trace Scenario.live ++ [Status (cid Scenario.logClient) (raw "ab")].
Proof.
  assert (Hrun : activeRun Scenario.live (job (scope Scenario.logClient))
                   (num (scope Scenario.logClient)) = Some Scenario.liveRun)
    by (vm_compute; reflexivity).
  assert (Hlog : log Scenario.liveRun = "ab" +:+ String NUL "cd")
    by (vm_compute; reflexivity).
  split; [exact (conj eq_refl (conj Hrun (conj Hlog eq_refl)))|].
  exact (proj2 (live_log_snapshot (E := Sample.externals) Scenario.logClient Scenario.live
                  Scenario.liveRun eq_refl Hrun) "ab" "cd" Hlog eq_refl).
Defined.

Lemma activeById_updateRun (s : Laminar) (r : nat) (f : Run → Run) (run : Run) :
  (∀ x, rid (f x) = rid x) → activeById s r = Some run →
  activeById (with_activeJobs (updateRun r f (activeJobs s)) s) r = Some (f run).
Proof.
  intros Hf Hrun. unfold activeById, updateRun in *. simpl.
  rewrite find_map_stable.
  - rewrite Hrun. simpl. apply find_some_holds in Hrun as [Hr _].
    by rewrite Hr.
  - intros x. destruct (bool_decide (rid x = r)) eqn:Hx; [|by rewrite Hx].
    by rewrite Hf, Hx.
Qed.

Section LiveLog.
Context `{E : Externals}.

Lemma onData_log (s : Laminar) (r : nat) (bytes : string) (run : Run) (e : option Z) :
  activeById s r = Some run → phase run = Draining e →
  activeById (onData r bytes s) r = Some (with_log (log run +:+ bytes) run).
Proof.
  intros Hrun Hphase. unfold onData. rewrite Hrun, Hphase.
  pose proof (activeById_updateRun s r (λ x, with_log (log x +:+ bytes) x) run
                (λ x, eq_refl) Hrun) as Hupd.
  exact Hupd.
Qed.

(** X3 (live log). While a child of a run writes, the log of the run is the
    log it had followed by the chunks read from the pipe, in their order;
    identity, job and node of the run stay. *)
Theorem live_log_accumulates (chunks : list string) (s : Laminar) (r : nat) (run : Run)
    (e : option Z) :
  activeById s r = Some run → phase run = Draining e →
  ∃ run',
    activeById (foldl (λ st b, react st (PipeData r b)) s chunks) r = Some run' ∧
    log run' = log run +:+ concatChunks chunks ∧
    phase run' = Draining e ∧ sameRun run run'.
Proof.
  revert s run. induction chunks as [|b chunks IH]; intros s run Hrun Hphase.
  { exists run. simpl. rewrite append_nil_r. by repeat split. }
  pose proof (onData_log s r b run e Hrun Hphase) as Hstep.
  destruct (IH (react s (PipeData r b)) (with_log (log run +:+ b) run) Hstep Hphase)
    as (run' & Hrun' & Hlog & Hph & Hsame).
  exists run'. split; [exact Hrun'|]. split; [|split; [exact Hph|]].
  - rewrite Hlog. simpl. apply append_assoc.
  - eapply sameRun_trans; [|exact Hsame]. by repeat split.
Qed.

End LiveLog.

(** The started build of [j] reads [he], [l] and [lo]: its log is [hello]. *)
Lemma live_log_accumulates_witness :
  (activeById Scenario.started 0 = Some Scenario.startedRun ∧
   phase Scenario.startedRun = Draining None) ∧
  ∃ run',
    activeById (foldl (λ st b, react (H := Sample.externals) st (PipeData 0 b))
                      Scenario.started ["he"; "l"; "lo"]) 0 = Some run' ∧
    log run' = log Scenario.startedRun +:+ concatChunks ["he"; "l"; "lo"] ∧
    phase run' = Draining None ∧ sameRun Scenario.startedRun run'.
Proof.
  assert (Hrun : activeById Scenario.started 0 = Some Scenario.startedRun)
    by (vm_compute; reflexivity).
  assert (Hphase : phase Scenario.startedRun = Draining None) by (vm_compute; reflexivity).
  split; [exact (conj Hrun Hphase)|].
  exact (live_log_accumulates (E := Sample.externals) ["he"; "l"; "lo"] Scenario.started 0
           Scenario.startedRun None Hrun Hphase).
Defined.

(** ** End of output and exit of the child *)

Lemma updateRun_twice (r : nat) (f g : Run → Run) (l : list Run) :
  (∀ x, rid (g x) = rid x) →
  updateRun r f (updateRun r g l) = updateRun r (λ x, f (g x)) l.
Proof.
  intros Hg. unfold updateRun. rewrite map_map. apply map_ext. intros x.
  destruct (bool_decide (rid x = r)) eqn:Hx; [|by rewrite Hx].
  by rewrite Hg, Hx.
Qed.

Lemma handleRunStep_reaped_phase (st : Z) (p : Phase) (x : Run) :
  handleRunStep (reaped st (with_phase p x)) = handleRunStep (reaped st x).
Proof.
  unfold handleRunStep, reaped, step. simpl.
  destruct (decide (result x = ABORTED)); simpl.
  - destruct (scripts x); [reflexivity|].
    destruct (decide (result x = SUCCESS)); reflexivity.
  - destruct (decide (st = 0)); destruct (scripts x); reflexivity.
Qed.

(** X4 (drain before reap). For a run whose child is running, the exit of
    the child alone records nothing: the exit status is recorded only once
    the pipe has reached its end, and the end of the pipe and the exit of
    the child may be reported in either order with the same result. *)
Theorem exit_and_eof_commute `{E : Externals} (s : Laminar) (r : nat) (run : Run) (st : Z) :
  activeById s r = Some run → phase run = Draining None →
  react (react s (ChildExit r st)) (PipeEof r) = react (react s (PipeEof r)) (ChildExit r st) ∧
  trace (react s (ChildExit r st)) = trace s ∧
  trace (react s (PipeEof r)) = trace s ∧
  trace (react (react s (ChildExit r st)) (PipeEof r)) = trace s ++ [Reaped r st].
Proof.
  intros Hrun Hphase.
  assert (Hexit : react s (ChildExit r st)
                  = with_activeJobs (updateRun r (with_phase (Draining (Some st)))
                                               (activeJobs s)) s).
  { simpl. unfold onExit. by rewrite Hrun, Hphase. }
  assert (Heof : react s (PipeEof r)
                 = with_activeJobs (updateRun r (with_phase AwaitExit) (activeJobs s)) s).
  { simpl. unfold onEof. by rewrite Hrun, Hphase. }
  assert (Hexit_eof : react (react s (ChildExit r st)) (PipeEof r)
                      = onReaped r st (react s (ChildExit r st))).
  { rewrite Hexit. simpl. unfold onEof.
    by rewrite (activeById_updateRun s r (with_phase (Draining (Some st))) run
                  (λ x, eq_refl) Hrun). }
  assert (Heof_exit : react (react s (PipeEof r)) (ChildExit r st)
                      = onReaped r st (react s (PipeEof r))).
  { rewrite Heof. simpl. unfold onExit.
    by rewrite (activeById_updateRun s r (with_phase AwaitExit) run (λ x, eq_refl) Hrun). }
  split; [|split; [by rewrite Hexit | split; [by rewrite Heof|]]].
  - rewrite Hexit_eof, Heof_exit, Hexit, Heof. unfold onReaped. simpl.
    rewrite !updateRun_twice by done.
    assert (Hsame : ∀ p,
              updateRun r (λ x, handleRunStep (reaped st (with_phase p x))) (activeJobs s)
              = updateRun r (λ x, handleRunStep (reaped st x)) (activeJobs s)).
    { intros p. unfold updateRun. apply map_ext. intros x.
      destruct (bool_decide (rid x = r)); [|done].
      by rewrite handleRunStep_reaped_phase. }
    by rewrite !Hsame.
  - rewrite Hexit_eof, Hexit. reflexivity.
Qed.

(** On the started build of [j]: exit 0 and end of output, in both orders. *)
Lemma exit_and_eof_commute_witness :
  (activeById Scenario.started 0 = Some Scenario.startedRun ∧
   phase Scenario.startedRun = Draining None) ∧
  react (H := Sample.externals) (react (H := Sample.externals) Scenario.started (ChildExit 0 0))
        (PipeEof 0)
  = react (H := Sample.externals) (react (H := Sample.externals) Scenario.started (PipeEof 0))
          (ChildExit 0 0).
Proof.
  assert (Hrun : activeById Scenario.started 0 = Some Scenario.startedRun)
    by (vm_compute; reflexivity).
  assert (Hphase : phase Scenario.startedRun = Draining None) by (vm_compute; reflexivity).
  split; [exact (conj Hrun Hphase)|].
  exact (proj1 (exit_and_eof_commute (E := Sample.externals) Scenario.started 0
                  Scenario.startedRun 0 Hrun Hphase)).
Defined.

(** ** Queued, active, completed *)

(** X5 (one place per run). In every reachable state no run is queued
    twice, active twice, or queued and active at once; and a run whose
    completion has been announced to a client is neither queued nor
    active. *)
Theorem run_in_one_place `{E : Externals}
    (home : string) (w : World) (rows : list BuildRow) (s : Laminar) :
  reachable home w rows s →
  NoDup (map rid (queuedJobs s) ++ map rid (activeJobs s)) ∧
  ∀ e r, e ∈ trace s → completedEvent r e →
         ¬ r ∈ map rid (queuedJobs s) ∧ ¬ r ∈ map rid (activeJobs s).
Proof.
  intros Hreach. destruct (reachable_inv home w rows s Hreach) as (_ & (Hnd & _ & Hdone) & _).
  split; [exact Hnd|].
  intros e r He Hc. destruct (Hdone e r He Hc) as [_ Hnot].
  split; intros Hin; apply Hnot; apply elem_of_app; [by left | by right].
Qed.

(** On the state with two running builds of [j]. *)
Lemma run_in_one_place_witness :
  reachable (H := Sample.externals) "/h" (Sample.world1 2 "") [] Sample.twoRunning ∧
  NoDup (map rid (queuedJobs Sample.twoRunning) ++ map rid (activeJobs Sample.twoRunning)).
Proof.
  assert (Hreach : reachable (H := Sample.externals) "/h" (Sample.world1 2 "") []
                     Sample.twoRunning).
  { exists [QueueJob "j" ∅; QueueJob "j" ∅]. reflexivity. }
  split; [exact Hreach|].
  exact (proj1 (run_in_one_place (E := Sample.externals) "/h" (Sample.world1 2 "") []
                  Sample.twoRunning Hreach)).
Defined.

(** ** What a reload of the configuration keeps and what it registers *)

Lemma list_to_set_nonempty (l : list string) :
  l ≠ [] → (list_to_set l : gset string) ≠ ∅.
Proof.
  destruct l as [|x l]; [done|]. intros _ Heq.
  apply (not_elem_of_empty (C := gset string) x).
  rewrite <- Heq, list_to_set_cons. apply elem_of_union_l. by apply elem_of_singleton.
Qed.

Lemma union_step (A B : gset string) (x : string) :
  A ∪ ({[x]} ∪ B) = ({[x]} ∪ A) ∪ B.
Proof. apply set_eq. intros k. rewrite !elem_of_union. tauto. Qed.

(** One file of the scan: the name of the file becomes known and is
    registered; the other registered names stay; node objects keep their
    address and their busy count. *)
Lemma loadNode_registry (s : Laminar) (known : gset string) (entry : string * NodeConf) :
  let r := loadNode (s, known) entry in
  r.2 = {[entry.1]} ∪ known ∧
  dom (nodes r.1) = {[entry.1]} ∪ dom (nodes s) ∧
  world r.1 = world s ∧ sameRuns s r.1 ∧
  (length (heap s) ≤ length (heap r.1))%nat ∧
  ∀ a n, heap s !! a = Some n →
         ∃ n', heap r.1 !! a = Some n' ∧ busyExecutors n' = busyExecutors n.
Proof.
  destruct entry as [nm conf]. unfold loadNode.
  destruct (nodes s !! nm) as [a|] eqn:Hreg; simpl.
  - split; [done|]. split; [|split; [done|split; [by repeat split|split]]].
    + apply set_eq. intros k. rewrite elem_of_union, elem_of_singleton, !elem_of_dom.
      split; [by right | intros [-> | ?]; [by rewrite Hreg | done]].
    + by rewrite length_insert.
    + intros b n Hb. destruct (decide (b = a)) as [-> | Hne].
      * rewrite list_lookup_insert_eq by (by eapply lookup_lt_Some).
        eexists. split; [done|]. simpl. by rewrite Hb.
      * rewrite list_lookup_insert_ne by done. by exists n.
  - rewrite lookup_app_r by lia. rewrite Nat.sub_diag. simpl.
    split; [done|]. split; [|split; [done|split; [by repeat split|split]]].
    + by rewrite dom_insert_L.
    + rewrite length_insert, length_app. lia.
    + intros b n Hb. pose proof (lookup_lt_Some _ _ _ Hb) as Hlt.
      rewrite list_lookup_insert_ne by lia. rewrite lookup_app_l by done. by exists n.
Qed.

Lemma loadNodes_registry (l : list (string * NodeConf)) (s : Laminar) (known : gset string) :
  let r := foldl loadNode (s, known) l in
  r.2 = list_to_set (map fst l) ∪ known ∧
  dom (nodes r.1) = list_to_set (map fst l) ∪ dom (nodes s) ∧
  world r.1 = world s ∧ sameRuns s r.1 ∧
  (length (heap s) ≤ length (heap r.1))%nat ∧
  ∀ a n, heap s !! a = Some n →
         ∃ n', heap r.1 !! a = Some n' ∧ busyExecutors n' = busyExecutors n.
Proof.
  revert s known. induction l as [|entry l IH]; intros s known.
  { simpl. split; [by rewrite union_empty_l_L|]. split; [by rewrite union_empty_l_L|]. split; [done|].
    split; [apply sameRuns_refl|]. split; [done|]. intros a n Ha. by exists n. }
  change (foldl loadNode (s, known) (entry :: l))
    with (foldl loadNode (loadNode (s, known) entry) l).
  pose proof (loadNode_registry s known entry) as H1. cbv zeta in H1.
  destruct (loadNode (s, known) entry) as [s1 known1]. simpl in H1.
  destruct H1 as (Hk1 & Hd1 & Hw1 & Hs1 & Hl1 & Hb1).
  pose proof (IH s1 known1) as H2. cbv zeta in H2.
  destruct H2 as (Hk2 & Hd2 & Hw2 & Hs2 & Hl2 & Hb2).
  cbv zeta. split; [|split; [|split; [congruence|split; [|split; [lia|]]]]].
  - rewrite Hk2, Hk1. simpl. apply union_step.
  - rewrite Hd2, Hd1. simpl. apply union_step.
  - by eapply sameRuns_trans.
  - intros a n Ha. destruct (Hb1 a n Ha) as (n1 & Hn1 & Hbusy1).
    destruct (Hb2 a n1 Hn1) as (n2 & Hn2 & Hbusy2). exists n2. split; [done | congruence].
Qed.

Lemma loadConfiguration_keeps (s : Laminar) :
  sameRuns s (loadConfiguration s) ∧
  ∀ a n, heap s !! a = Some n →
         ∃ n', heap (loadConfiguration s) !! a = Some n' ∧
               busyExecutors n' = busyExecutors n.
Proof.
  unfold loadConfiguration.
  set (s0 := match keepRunDirs (world s) with
             | Some ndirs => with_numKeepRunDirs (to_uint (atoi ndirs)) s
             | None => s
             end).
  assert (H0 : sameRuns s s0 ∧ heap s0 = heap s).
  { subst s0. destruct (keepRunDirs (world s)); by repeat split. }
  destruct H0 as [Hsame0 Hheap0].
  pose proof (loadNodes_registry (nodeConfs (world s0)) s0 ∅) as H1. cbv zeta in H1.
  destruct (foldl loadNode (s0, ∅) (nodeConfs (world s0))) as [s1 knownNodes].
  simpl in H1. destruct H1 as (_ & _ & _ & Hsame1 & Hlen1 & Hbusy1).
  set (kept := filter _ (nodes s1)).
  set (s2 := with_nodes kept s1).
  set (s3 := if decide (nodes s2 = ∅) then _ else s2).
  assert (H3 : sameRuns s1 s3 ∧
               ∀ a n, heap s1 !! a = Some n → heap s3 !! a = Some n).
  { subst s3. destruct (decide (nodes s2 = ∅)); [|by repeat split].
    split; [by repeat split|]. intros a n Ha. simpl.
    rewrite lookup_app_l; [done | by eapply lookup_lt_Some]. }
  destruct H3 as [Hsame3 Hheap3].
  destruct (loadJobs_frame (jobConfs (world s3)) s3) as (Hh & _ & Hsame4).
  split.
  - eapply sameRuns_trans; [exact Hsame0|].
    eapply sameRuns_trans; [exact Hsame1|].
    eapply sameRuns_trans; [exact Hsame3 | exact Hsame4].
  - intros a n Ha. rewrite <- Hheap0 in Ha.
    destruct (Hbusy1 a n Ha) as (n' & Hn' & Hb). exists n'. split; [|done].
    rewrite Hh. by apply Hheap3.
Qed.

(** X6 (reload keeps the running work). A reload of the configuration
    leaves the queue, the active set and the trace as they are, and every
    node object at its address with its busy count, whatever the files
    say. *)
Theorem reload_keeps_running_work (s : Laminar) :
  sameRuns s (loadConfiguration s) ∧
  ∀ a n, heap s !! a = Some n →
         ∃ n', heap (loadConfiguration s) !! a = Some n' ∧
               busyExecutors n' = busyExecutors n.
Proof. exact (loadConfiguration_keeps s). Qed.

(** X7 (the registry after a reload). After a reload the registered node
    names are exactly the names of the files of the scan; when the scan
    found no file, the default node with the empty name is the one
    registered node. In both cases some node is registered. *)
Theorem reload_registry (s : Laminar) :
  let scanned := map fst (nodeConfs (world s)) in
  dom (nodes (loadConfiguration s))
    = (if decide (scanned = []) then {[EmptyString]} else list_to_set scanned) ∧
  nodes (loadConfiguration s) ≠ ∅.
Proof.
  intros scanned.
  assert (Hdom : dom (nodes (loadConfiguration s))
                 = if decide (scanned = []) then {[EmptyString]} else list_to_set scanned).
  { unfold loadConfiguration.
    set (s0 := match keepRunDirs (world s) with
               | Some ndirs => with_numKeepRunDirs (to_uint (atoi ndirs)) s
               | None => s
               end).
    assert (Hw0 : nodeConfs (world s0) = nodeConfs (world s) ∧ nodes s0 = nodes s).
    { subst s0. by destruct (keepRunDirs (world s)). }
    destruct Hw0 as [Hw0 Hn0].
    pose proof (loadNodes_registry (nodeConfs (world s0)) s0 ∅) as H1. cbv zeta in H1.
    destruct (foldl loadNode (s0, ∅) (nodeConfs (world s0))) as [s1 knownNodes].
    simpl in H1. destruct H1 as (Hknown & Hdom1 & _).
    rewrite Hw0 in Hknown, Hdom1. fold scanned in Hknown, Hdom1.
    rewrite union_empty_r_L in Hknown.
    set (kept := filter _ (nodes s1)).
    assert (Hkept : dom kept = if decide (scanned = []) then dom (nodes s1) ∩ {[EmptyString]}
                               else list_to_set scanned).
    { subst kept. apply set_eq. intros k.
      rewrite elem_of_dom. unfold is_Some.
      setoid_rewrite map_lookup_filter_Some. simpl.
      destruct (decide (scanned = [])) as [Hnil | Hne].
      - rewrite Hknown, Hnil, list_to_set_nil, size_empty.
        rewrite elem_of_intersection, elem_of_singleton, elem_of_dom. unfold is_Some.
        split.
        + intros (a & Ha & [[-> _] | Hin]); [eauto | by apply not_elem_of_empty in Hin].
        + intros [[a Ha] ->]. exists a. split; [done | by left].
      - split.
        + intros (a & Ha & [[_ Hsz] | Hin]); [|by rewrite <- Hknown].
          exfalso. apply size_empty_inv in Hsz. apply leibniz_equiv in Hsz.
          rewrite Hknown in Hsz. by apply list_to_set_nonempty in Hsz.
        + intros Hk. assert (Hk' : k ∈ dom (nodes s1)) by (rewrite Hdom1; by apply elem_of_union_l).
          apply elem_of_dom in Hk' as [a Ha]. exists a. split; [done|].
          right. by rewrite Hknown. }
    set (s2 := with_nodes kept s1).
    set (s3 := if decide (nodes s2 = ∅) then _ else s2).
    destruct (loadJobs_frame (jobConfs (world s3)) s3) as (_ & Hn & _).
    rewrite Hn. subst s3. destruct (decide (nodes s2 = ∅)) as [Hempty | Hnonempty].
    - simpl in *. rewrite Hempty, dom_insert_L, dom_empty_L, union_empty_r_L.
      rewrite Hempty, dom_empty_L in Hkept.
      destruct (decide (scanned = [])) as [_ | Hne]; [done|].
      symmetry in Hkept. by apply list_to_set_nonempty in Hkept.
    - simpl in *. rewrite Hkept.
      destruct (decide (scanned = [])) as [Hnil | _]; [|done].
      apply set_eq. intros k. rewrite elem_of_intersection, !elem_of_singleton.
      split; [by intros [_ ?]|]. intros ->. split; [|done].
      assert (Hne : dom kept ≠ ∅) by (by intros ?%dom_empty_inv_L).
      rewrite Hkept in Hne. apply set_choose_L in Hne as [k Hk].
      apply elem_of_intersection in Hk as [Hk1 Hk2].
      by apply elem_of_singleton in Hk2 as ->. }
  split; [exact Hdom|].
  intros Hempty. rewrite Hempty, dom_empty_L in Hdom.
  destruct (decide (scanned = [])) as [_ | Hne].
  - apply (not_elem_of_empty (C := gset string) EmptyString).
    rewrite Hdom. by apply elem_of_singleton.
  - symmetry in Hdom. by apply list_to_set_nonempty in Hdom.
Qed.

(** ** The admission loop: what it starts, where, and what it leaves queued *)

Lemma touch_default {V} (k j : string) (d : V) (m : gmap string V) :
  default d (touch k d m !! j) = default d (m !! j).
Proof.
  unfold touch. destruct (m !! k) eqn:Hk; [done|].
  destruct (decide (j = k)) as [-> | Hne].
  - by rewrite lookup_insert_eq, Hk.
  - by rewrite lookup_insert_ne.
Qed.

Lemma nodeCanQueue_ext (s s' : Laminar) (n : Node) (x x' : Run) :
  name x' = name x →
  (∀ j, default ∅ (jobTags s' !! j) = default ∅ (jobTags s !! j)) →
  nodeCanQueue s' n x' = nodeCanQueue s n x.
Proof.
  intros Hname Htags. unfold nodeCanQueue. rewrite Hname.
  specialize (Htags (name x)).
  destruct (jobTags s' !! name x) as [jt'|], (jobTags s !! name x) as [jt|];
    simpl in Htags; subst; rewrite ?elements_empty; done.
Qed.


Lemma nodeCanQueue_tags (s : Laminar) (n : Node) (x : Run) :
  nodeCanQueue s n x = true → tags n = ∅ ∨ ∃ t, t ∈ tags n ∧ t ∈ tagsOfJob s x.
Proof.
  unfold nodeCanQueue, tagsOfJob.
  case_bool_decide; [discriminate|].
  case_bool_decide as Hsz.
  { intros _. left. by apply leibniz_equiv, size_empty_inv. }
  destruct (jobTags s !! name x) as [jt|]; [|discriminate].
  intros Hex. apply existsb_exists in Hex as (t & Hin & Ht).
  apply bool_decide_eq_true in Ht. right. exists t. split; [done|].
  simpl. apply elem_of_elements. by apply list_elem_of_In.
Qed.

Lemma tryStartRun_jobTags `{E : Externals} (run : Run) (qi : Z) (s : Laminar) (ok : bool) (run' : Run)
    (s' : Laminar) :
  tryStartRun run qi s = (ok, run', s') →
  ∀ j, default ∅ (jobTags s' !! j) = default ∅ (jobTags s !! j).
Proof.
  destruct ok.
  2: { intros Hst. apply tryStartRun_false in Hst as [_ (_ & _ & _ & Ht & _)].
       intros j. by rewrite Ht. }
  unfold tryStartRun. destruct (acceptingNode s run) as [[a n]|]; [|intros [=]].
  unfold startRun.
  destruct (makeWorkspace run s) as [[ok1 r1] w1].
  destruct ok1; [|intros [=]].
  destruct (makeRunDir _ w1) as [ok2 w2].
  destruct ok2; [|intros [=]].
  destruct (makeArchive _ w2) as [ok3 w3].
  destruct ok3; [|intros [=]].
  unfold launch. intros [= _ <-] j. simpl. apply touch_default.
Qed.



Lemma placedByTags_before_start (s s' : Laminar) (a : nat) (n : Node) (x : Run) :
  heap s !! a = Some n →
  heap s' = <[a := mkNode (nodeName n) (numExecutors n) (to_int (busyExecutors n + 1))
                          (tags n)]> (heap s) →
  nodes s' = nodes s →
  (∀ j, default ∅ (jobTags s' !! j) = default ∅ (jobTags s !! j)) →
  placedByTags s' x → placedByTags s x.
Proof.
  intros Ha Hh Hn Ht (nm & b & nb & Hnode & Hreg & Hb & Htags).
  rewrite Hn in Hreg. rewrite Hh in Hb.
  assert (Hjob : tagsOfJob s' x = tagsOfJob s x) by apply Ht.
  rewrite Hjob in Htags.
  destruct (decide (b = a)) as [-> | Hne].
  - rewrite list_lookup_insert_eq in Hb by (by eapply lookup_lt_Some).
    injection Hb as <-. by exists nm, a, n.
  - rewrite list_lookup_insert_ne in Hb by done. by exists nm, b, nb.
Qed.

Lemma assignLoop_partition `{E : Externals} (todo kept : list Run) (s : Laminar) :
  ∃ more started,
    queuedJobs (assignLoop kept todo s) = kept ++ more ∧
    activeJobs (assignLoop kept todo s) = activeJobs s ++ started ∧
    map rid more `sublist_of` map rid todo ∧
    map rid started `sublist_of` map rid todo ∧
    map rid todo ≡ₚ map rid more ++ map rid started.
Proof.
  revert kept s. induction todo as [|run rest IH]; intros kept s.
  { exists [], []. simpl. by rewrite !app_nil_r. }
  simpl. destruct (tryStartRun run _ s) as [[ok run'] s'] eqn:Hst. destruct ok.
  - apply tryStartRun_true in Hst
      as (a & n & _ & Hid & _ & _ & _ & _ & _ & _ & Hact & _).
    destruct (IH kept (with_activeJobs (activeJobs s' ++ [run']) s'))
      as (more & started & Hq & Ha & Hm & Hs & Hp).
    exists more, (run' :: started).
    split; [exact Hq|]. split; [rewrite Ha; simpl; by rewrite Hact, <- app_assoc|].
    simpl. rewrite Hid. split; [by apply sublist_cons|]. split; [by apply sublist_skip|].
    rewrite <- Permutation_middle. by apply perm_skip.
  - apply tryStartRun_false in Hst as [(Hid & _) (_ & _ & _ & _ & _ & Hact & _)].
    destruct (IH (kept ++ [run']) s') as (more & started & Hq & Ha & Hm & Hs & Hp).
    exists (run' :: more), started. rewrite Hact in Ha.
    split; [by rewrite Hq, <- app_assoc|]. split; [exact Ha|].
    simpl. rewrite Hid. split; [by apply sublist_skip|]. split; [by apply sublist_cons|].
    by apply perm_skip.
Qed.

(** X8 (admission neither loses nor duplicates a run). The admission loop
    splits the queue in two: the runs it leaves queued, in the order they
    had, and the runs it starts, appended to the active set in the order
    they had in the queue. Every queued run is in exactly one of the two
    parts. *)
Theorem admission_partitions_queue `{E : Externals} (s : Laminar) :
  ∃ started,
    activeJobs (assignNewJobs s) = activeJobs s ++ started ∧
    map rid (queuedJobs (assignNewJobs s)) `sublist_of` map rid (queuedJobs s) ∧
    map rid started `sublist_of` map rid (queuedJobs s) ∧
    map rid (queuedJobs s)
      ≡ₚ map rid (queuedJobs (assignNewJobs s)) ++ map rid started.
Proof.
  unfold assignNewJobs.
  destruct (assignLoop_partition (queuedJobs s) [] s)
    as (more & started & Hq & Ha & Hm & Hs & Hp).
  exists started. rewrite Hq. simpl. done.
Qed.

Lemma assignLoop_placement `{E : Externals} (todo kept : list Run) (s : Laminar) :
  ∃ started,
    activeJobs (assignLoop kept todo s) = activeJobs s ++ started ∧
    ∀ x, x ∈ started → placedByTags s x.
Proof.
  revert kept s. induction todo as [|run rest IH]; intros kept s.
  { exists []. simpl. split; [by rewrite app_nil_r|]. by intros x ?%elem_of_nil. }
  simpl. destruct (tryStartRun run _ s) as [[ok run'] s'] eqn:Hst.
  pose proof (tryStartRun_jobTags _ _ _ _ _ _ Hst) as Htags.
  destruct ok.
  - apply tryStartRun_true in Hst
      as (a & n & Hacc & _ & Hname & Hnd & Hh & _ & Hn & _ & Hact & _).
    apply acceptingNode_Some in Hacc as (Ha & Hcan & nm & Hreg).
    destruct (IH kept (with_activeJobs (activeJobs s' ++ [run']) s'))
      as (started & Hs & Hplaced).
    exists (run' :: started).
    split; [rewrite Hs; simpl; by rewrite Hact, <- app_assoc|].
    intros x Hx. apply elem_of_cons in Hx as [-> | Hx].
    + exists nm, a, n. repeat (split; [done|]).
      unfold tagsOfJob. rewrite Hname. by apply nodeCanQueue_tags.
    + eapply (placedByTags_before_start s _ a n); [exact Ha | exact Hh | exact Hn | exact Htags |].
      by apply Hplaced.
  - apply tryStartRun_false in Hst as [_ (_ & Hh & Hn & Ht & _ & Hact & _)].
    destruct (IH (kept ++ [run']) s') as (started & Hs & Hplaced).
    exists started. rewrite Hact in Hs. split; [exact Hs|].
    intros x Hx. destruct (Hplaced x Hx) as (nm & a & n & Hnode & Hreg & Ha & Hacc).
    exists nm, a, n. unfold tagsOfJob in *. by rewrite <- Hn, <- Hh, <- Ht.
Qed.

(** X9 (admission respects the tags). Every run the admission loop starts
    is placed on a registered node that has no tags or shares a tag with
    the job of the run. *)
Theorem admission_respects_tags `{E : Externals} (s : Laminar) :
  ∃ started,
    activeJobs (assignNewJobs s) = activeJobs s ++ started ∧
    ∀ x, x ∈ started → placedByTags s x.
Proof. exact (assignLoop_placement (queuedJobs s) [] s). Qed.

(** ** Paths: what the scheduler removes *)















Section Tidy.
Context `{E : Externals}.















End Tidy.




(** ** Enqueueing a run *)

Section Enqueue.
Context `{E : Externals}.









End Enqueue.

(** ** The log of a finished build *)

Section FinishedLog.
Context `{E : Externals}.

Lemma findBuild_app_new (rows : list BuildRow) (row : BuildRow) :
  findBuild rows (b_name row) (b_number row) = None →
  findBuild (rows ++ [row]) (b_name row) (b_number row) = Some row.
Proof.
  unfold findBuild. induction rows as [|x rows IH]; simpl.
  - intros _. by rewrite bool_decide_true.
  - destruct (bool_decide (b_name x = b_name row ∧ b_number x = b_number row));
      [discriminate | exact IH].
Qed.

Lemma finishRun_row (r : Run) (s : Laminar) :
  findBuild (db s) (name r) (build r) = None →
  ∃ row,
    findBuild (db (finishRun r s)) (name r) (build r) = Some row ∧
    b_output row = (persistLog (log r)).1 ∧ b_outputLen row = (persistLog (log r)).2 ∧
    b_result row = result r ∧ b_queuedAt row = queuedAt r ∧ b_startedAt row = startedAt r ∧
    b_completedAt row = now (world s).
Proof.
  intros Hnone. unfold finishRun.
  destruct (persistLog (log r)) as [maybeZipped logsize].
  unfold insertBuild. simpl. rewrite Hnone. simpl.
  match goal with |- context [db s ++ [?new]] => exists new end.
  split; [|by repeat split].
  match goal with |- findBuild (_ ++ [?row]) _ _ = _ =>
    apply (findBuild_app_new (db s) row) end.
  exact Hnone.
Qed.

(** X13 (the log of a finished build is read back). After [runFinished],
    when the table had no row for the build and no active run has its job
    and number, a client of LOG scope that asks for the build is answered
    with the log as the run collected it when the log is shorter than
    1024 bytes, and with the log followed by one NUL byte when it is
    longer and the codec took it and gives it back. *)
Theorem finished_log_is_served (s : Laminar) (run : Run) (c : LaminarClient) :
  findBuild (db s) (name run) (build run) = None →
  activeRun (runFinished run s) (name run) (build run) = None →
  stype (scope c) = LOG → job (scope c) = name run → num (scope c) = build run →
  (Z.of_nat (String.length (log run)) < COMPRESS_LOG_MIN_SIZE →
   trace (sendStatus c (runFinished run s))
   = trace (runFinished run s) ++ [Status (cid c) (raw (log run))]) ∧
  (∀ z, COMPRESS_LOG_MIN_SIZE ≤ Z.of_nat (String.length (log run)) →
        compress (String.length (log run)) (log run) = Some z →
        uncompress (String.length (log run)) z = Some (log run) →
        trace (sendStatus c (runFinished run s))
        = trace (runFinished run s)
          ++ [Status (cid c) (raw (log run +:+ String NUL EmptyString))]).
Proof.
  intros Hnone Hact Hty Hjob Hnum.
  destruct (finishRun_row run s Hnone) as (row & Hrow & Hout & Hlen & _).
  assert (Hdb : db (runFinished run s) = db (finishRun run s)).
  { unfold runFinished, assignNewJobs. apply assignLoop_db. }
  assert (Hsend : ∀ m, fetchLog (persistLog (log run)).1 (persistLog (log run)).2 = Some m →
                       trace (sendStatus c (runFinished run s))
                       = trace (runFinished run s) ++ [Status (cid c) (raw m)]).
  { intros m Hm. unfold sendStatus. rewrite Hty, Hjob, Hnum, Hact, Hdb, Hrow, Hout, Hlen, Hm.
    reflexivity. }
  split.
  - intros Hshort. apply Hsend. by apply fetchLog_raw.
  - intros z Hlong Hc Hu. apply Hsend. by eapply fetchLog_compressed.
Qed.

End FinishedLog.

(** The build of [j] that wrote [hi] finishes; the client that asks for
    its log gets [hi]. *)
Lemma finished_log_is_served_witness :
  let s := Scenario.finishing in
  let run := Scenario.finishingRun in
  let c := Scenario.logClient in
  (findBuild (db s) (name run) (build run) = None ∧
   activeRun (runFinished (H := Sample.externals) run s) (name run) (build run) = None ∧
   log run = "hi") ∧
  trace (sendStatus (H := Sample.externals) c (runFinished (H := Sample.externals) run s))
  = trace (runFinished (H := Sample.externals) run s) ++ [Status (cid c) (raw (log run))].
Proof.
  intros s run c.
  assert (Hnone : findBuild (db s) (name run) (build run) = None)
    by (vm_compute; reflexivity).
  assert (Hact : activeRun (runFinished (H := Sample.externals) run s) (name run) (build run)
                 = None) by (vm_compute; reflexivity).
  assert (Hjob : job (scope c) = name run) by (vm_compute; reflexivity).
  assert (Hnum : num (scope c) = build run) by (vm_compute; reflexivity).
  assert (Hlog : log run = "hi") by (vm_compute; reflexivity).
  assert (Hshort : Z.of_nat (String.length (log run)) < COMPRESS_LOG_MIN_SIZE)
    by (vm_compute; reflexivity).
  split; [exact (conj Hnone (conj Hact Hlog))|].
  exact (proj1 (finished_log_is_served (E := Sample.externals) s run c
                  Hnone Hact eq_refl Hjob Hnum) Hshort).
Defined.

(** ** The run directories that [runFinished] removes *)

Lemma prefix_inv (p q : string) : String.prefix p q = true → ∃ rest, q = p +:+ rest.
Proof.
  revert q. induction p as [|c p IH]; intros q.
  { intros _. exists q. by rewrite append_nil_l. }
  destruct q as [|d q]; [done|]. simpl.
  destruct (ascii_dec c d) as [-> | ?]; [|done].
  intros Hp. destruct (IH q Hp) as [rest ->]. exists rest. by rewrite append_cons.
Qed.

Lemma append_inv_head (a x y : string) : a +:+ x = a +:+ y → x = y.
Proof.
  induction a as [|c a IH]; [by rewrite !append_nil_l|].
  rewrite !append_cons. intros [= Heq]. by apply IH.
Qed.

(** A path below [p] is [p], or [p] followed by a slash and more. *)
Lemma below_shape (p q : string) :
  below p q = true →
  ∃ t, q = p +:+ t ∧ (t = EmptyString ∨ ∃ r, t = String "/" r).
Proof.
  unfold below. intros Hb. apply orb_true_iff in Hb as [Heq | Hpre].
  - apply bool_decide_eq_true in Heq as ->. exists EmptyString.
    split; [by rewrite append_nil_r | by left].
  - apply prefix_inv in Hpre as [rest ->]. exists (String "/" rest).
    split; [by rewrite append_assoc | right; by exists rest].
Qed.

(** A name without [c] is determined by a string in which it is followed
    by [c] or by nothing. *)
Lemma name_unique (c : ascii) (x y tx ty : string) :
  occurs c x = false → occurs c y = false →
  (tx = EmptyString ∨ ∃ r, tx = String c r) →
  (ty = EmptyString ∨ ∃ r, ty = String c r) →
  x +:+ tx = y +:+ ty → x = y.
Proof.
  revert y. induction x as [|a x IH]; intros y Hx Hy Htx Hty.
  - rewrite append_nil_l. destruct y as [|d y]; [done|].
    rewrite append_cons. simpl in Hy. apply orb_false_iff in Hy as [Hd _].
    apply bool_decide_eq_false in Hd.
    destruct Htx as [-> | [r ->]]; [done|]. by intros [= <- _].
  - simpl in Hx. apply orb_false_iff in Hx as [Ha Hx]. apply bool_decide_eq_false in Ha.
    rewrite append_cons. destruct y as [|d y].
    + rewrite append_nil_l. destruct Hty as [-> | [r ->]]; [done|]. by intros [= -> _].
    + simpl in Hy. apply orb_false_iff in Hy as [_ Hy].
      rewrite append_cons. intros [= <- Heq]. f_equal. by apply (IH y).
Qed.

Lemma pretty_N_go_slash (x : N) (s : string) :
  occurs "/" (pretty_N_go x s) = occurs "/" s.
Proof.
  revert s. induction (N.lt_wf_0 x) as [x _ IH]; intros s.
  assert (Hx : (x = 0 ∨ 0 < x)%N) by lia. destruct Hx as [-> | Hpos].
  - by rewrite pretty_N_go_0.
  - rewrite pretty_N_go_step by done. rewrite IH by (by apply N.div_lt).
    unfold pretty_N_char. by repeat case_match.
Qed.

Lemma pretty_Z_slash (z : Z) : occurs "/" (pretty z) = false.
Proof.
  assert (Hpos : ∀ p : positive, occurs "/" (pretty p) = false).
  { intros p. unfold pretty, pretty_positive, pretty, pretty_N.
    case_decide; [done|]. by rewrite pretty_N_go_slash. }
  destruct z as [|p|p]; [done | apply Hpos|].
  unfold pretty, pretty_Z. rewrite occurs_append, Hpos. done.
Qed.

(** The run directories of two builds of a job share no path. *)
Lemma runDirs_apart (base q : string) (j k : Z) :
  j ≠ k → below (base </> pretty k) q = true → below (base </> pretty j) q = false.
Proof.
  intros Hne Hk. destruct (below (base </> pretty j) q) eqn:Hj; [exfalso|done].
  apply below_shape in Hk as (tk & Hqk & Htk).
  apply below_shape in Hj as (tj & Hqj & Htj).
  rewrite Hqk in Hqj. unfold pathcat in Hqj.
  rewrite !append_assoc in Hqj. do 2 apply append_inv_head in Hqj.
  apply Hne. apply (inj pretty). symmetry.
  by eapply (name_unique "/" (pretty k) (pretty j) tk tj);
    [apply pretty_Z_slash | apply pretty_Z_slash | | |].
Qed.

Lemma remove_all_spares (p q : string) (w : World) :
  below p q = false →
  (q ∈ dirs w → q ∈ dirs (remove_all p w).2) ∧
  (q ∈ files w → q ∈ files (remove_all p w).2).
Proof.
  intros Hb. unfold remove_all. case_bool_decide; simpl; [done|].
  split; intros Hin; by apply elem_of_filter.
Qed.

Lemma sweep_spares (base q : string) (fuel : nat) (i : Z) (w : World) :
  (∀ j, 0 < j ≤ i → below (base </> pretty j) q = false) →
  (q ∈ dirs w → q ∈ dirs (sweep fuel i base w)) ∧
  (q ∈ files w → q ∈ files (sweep fuel i base w)).
Proof.
  revert i w. induction fuel as [|fuel IH]; intros i w Hq; simpl; [done|].
  case_bool_decide; [|done].
  destruct (fs_exists w _); [|done].
  destruct (remove_all_spares (base </> pretty i) q w) as [Hd Hf]; [apply Hq; lia|].
  destruct (IH (i - 1) (remove_all (base </> pretty i) w).2) as [Hd' Hf'].
  { intros j Hj. apply Hq. lia. }
  split; auto.
Qed.

(** The directories the loop of [runFinished] visits are numbered below
    the oldest active build [b]. *)
Lemma sweep_bound (b keep j : Z) :
  0 ≤ b < 2 ^ 32 → 0 ≤ keep < 2 ^ 31 →
  0 < j ≤ to_int (to_uint (to_uint (b - 1) - keep)) → j < b.
Proof.
  unfold to_int, to_uint.
  change (2 ^ 32) with 4294967296. change (2 ^ 31) with 2147483648.
  intros Hb Hk. Z.div_mod_to_equations. lia.
Qed.

Section Sweep.
Context `{E : Externals}.

(** X14 (the run directories of running builds stay). When a run finishes
    while other builds of its job are active, the first of them being the
    oldest, and at most [2^31 - 1] run directories are to be kept, the
    loop that removes old run directories leaves the run directory of
    every one of these builds, and what lies below it, in place. *)
Theorem sweep_spares_running_builds (r first x : Run) (rest : list Run) (s : Laminar)
    (q : string) :
  0 ≤ numKeepRunDirs s < 2 ^ 31 →
  filter (λ y, name y = name r) (filter (λ y, rid y ≠ rid r) (activeJobs s))
    = first :: rest →
  0 ≤ build first < 2 ^ 32 → build first ≤ build x →
  below (homeDir s </> "run" </> name r </> pretty (build x)) q = true →
  (q ∈ dirs (world s) → q ∈ dirs (world (finishRun r s))) ∧
  (q ∈ files (world s) → q ∈ files (world (finishRun r s))).
Proof.
  intros Hkeep Hothers Hfirst Hx Hq. unfold finishRun.
  destruct (persistLog (log r)) as [maybeZipped logsize].
  destruct (insertBuild _ (db _)) as [rows ins]. simpl.
  rewrite Hothers. apply sweep_spares.
  intros j Hj. eapply runDirs_apart; [|exact Hq].
  pose proof (sweep_bound (build first) (numKeepRunDirs s) j Hfirst Hkeep Hj). lia.
Qed.

End Sweep.

(** Two builds of [j] run; the older one finishes, and the run directory
    of the newer one stays. *)
Lemma sweep_spares_running_builds_witness :
  let s := Sample.twoRunning in
  (filter (λ y, name y = name Scenario.olderRun)
          (filter (λ y, rid y ≠ rid Scenario.olderRun) (activeJobs s))
   = [Scenario.newerRun] ∧
   build Scenario.newerRun = 2 ∧ "/h/run/j/2" ∈ dirs (world s)) ∧
  "/h/run/j/2" ∈ dirs (world (finishRun (H := Sample.externals) Scenario.olderRun s)).
Proof.
  intros s.
  assert (Hothers : filter (λ y, name y = name Scenario.olderRun)
                      (filter (λ y, rid y ≠ rid Scenario.olderRun) (activeJobs s))
                    = [Scenario.newerRun]) by (vm_compute; reflexivity).
  assert (Hbuild : build Scenario.newerRun = 2) by (vm_compute; reflexivity).
  assert (Hzero : numKeepRunDirs s = 0) by (vm_compute; reflexivity).
  assert (Hkeep : 0 ≤ numKeepRunDirs s < 2 ^ 31) by (rewrite Hzero; lia).
  assert (Hfirst : 0 ≤ build Scenario.newerRun < 2 ^ 32) by (rewrite Hbuild; lia).
  assert (Hq : below (homeDir s </> "run" </> name Scenario.olderRun
                        </> pretty (build Scenario.newerRun)) "/h/run/j/2" = true)
    by (vm_compute; reflexivity).
  assert (Hin : "/h/run/j/2" ∈ dirs (world s)).
  { assert (Hd : dirs (world s)
                 = {["/h/run/j/2"]} ∪ ({["/h/archive/j/2"]} ∪ dirs (world Scenario.started)))
      by (vm_compute; reflexivity).
    rewrite Hd. apply elem_of_union_l. by apply elem_of_singleton. }
  split; [exact (conj Hothers (conj Hbuild Hin))|].
  exact (proj1 (sweep_spares_running_builds (E := Sample.externals)
                  Scenario.olderRun Scenario.newerRun Scenario.newerRun [] s "/h/run/j/2"
                  Hkeep Hothers Hfirst (Z.le_refl _) Hq) Hin).
Defined.

(** ** What a started run finds on disk *)

Lemma pretty_N_go_other (c : ascii) (x : N) (s : string) :
  (∀ d, pretty_N_char d ≠ c) → occurs c (pretty_N_go x s) = occurs c s.
Proof.
  intros Hc. revert s. induction (N.lt_wf_0 x) as [x _ IH]; intros s.
  assert (Hx : (x = 0 ∨ 0 < x)%N) by lia. destruct Hx as [-> | Hpos].
  - by rewrite pretty_N_go_0.
  - rewrite pretty_N_go_step by done. rewrite IH by (by apply N.div_lt).
    simpl. by rewrite bool_decide_false by apply Hc.
Qed.

(** The decimal form of a number has no letter [w]. *)
Lemma pretty_Z_letter (z : Z) : occurs "w" (pretty z) = false.
Proof.
  assert (Hc : ∀ d, pretty_N_char d ≠ "w"%char).
  { intros d. unfold pretty_N_char. by repeat case_match. }
  assert (Hpos : ∀ p : positive, occurs "w" (pretty p) = false).
  { intros p. unfold pretty, pretty_positive, pretty, pretty_N.
    case_decide; [done|]. by rewrite pretty_N_go_other. }
  destruct z as [|p|p]; [done | apply Hpos|].
  unfold pretty, pretty_Z. rewrite occurs_append, Hpos. done.
Qed.

(** The workspace of a job does not lie below the run directory of any of
    its builds. *)
Lemma workspace_apart (base : string) (k : Z) :
  below (base </> pretty k) (base </> "workspace") = false.
Proof.
  destruct (below _ _) eqn:Hb; [exfalso|done].
  apply below_shape in Hb as (t & Heq & Ht).
  unfold pathcat in Heq. rewrite !append_assoc in Heq. do 2 apply append_inv_head in Heq.
  assert (Hw : "workspace" = pretty k).
  { apply (name_unique "/" "workspace" (pretty k) EmptyString t);
      [done | apply pretty_Z_slash | by left | exact Ht | by rewrite append_nil_r]. }
  pose proof (pretty_Z_letter k) as Hno. by rewrite <- Hw in Hno.
Qed.

Lemma create_directory_made (p : string) (w w' : World) :
  create_directory p w = (true, w') →
  is_directory w' p = true ∧
  (∀ q, is_directory w q = true → is_directory w' q = true) ∧
  (∀ q, fs_exists w q = true → fs_exists w' q = true).
Proof.
  unfold create_directory. case_bool_decide; [discriminate|].
  destruct (fs_exists w p); [discriminate|]. intros [= <-].
  unfold is_directory, fs_exists. simpl. split; [|split].
  - apply bool_decide_eq_true. apply elem_of_union_l. by apply elem_of_singleton.
  - intros q Hq. apply bool_decide_eq_true in Hq. apply bool_decide_eq_true.
    by apply elem_of_union_r.
  - intros q Hq. apply bool_decide_eq_true in Hq. apply bool_decide_eq_true.
    apply elem_of_union in Hq as [Hq | Hq].
    + apply elem_of_union_l. by apply elem_of_union_r.
    + by apply elem_of_union_r.
Qed.

Lemma makeRunDir_made (rd : string) (w w' : World) :
  makeRunDir rd w = (true, w') →
  is_directory w' rd = true ∧
  (∀ q, below rd q = false → fs_exists w q = true → fs_exists w' q = true).
Proof.
  unfold makeRunDir.
  destruct (is_directory w rd) eqn:Hdir.
  - unfold remove_all. case_bool_decide; simpl.
    + by intros [= <-].
    + intros Hmk. apply create_directory_made in Hmk as (Hrd & _ & Hex).
      split; [exact Hrd|]. intros q Hq Hin. apply Hex.
      unfold fs_exists in *. simpl. apply bool_decide_eq_true in Hin.
      apply bool_decide_eq_true.
      apply elem_of_union in Hin as [Hin | Hin].
      * apply elem_of_union_l. by apply elem_of_filter.
      * apply elem_of_union_r. by apply elem_of_filter.
  - intros Hmk. apply create_directory_made in Hmk as (Hrd & _ & Hex).
    split; [exact Hrd|]. intros q _. apply Hex.
Qed.

Lemma makeArchive_made (p : string) (w w' : World) :
  makeArchive p w = (true, w') →
  is_directory w' p = true ∧
  (∀ q, is_directory w q = true → is_directory w' q = true) ∧
  (∀ q, fs_exists w q = true → fs_exists w' q = true).
Proof.
  unfold makeArchive. destruct (is_directory w p) eqn:Hdir.
  - by intros [= <-].
  - apply create_directory_made.
Qed.

Section Started.
Context `{E : Externals}.

Lemma makeWorkspace_exists (run : Run) (s : Laminar) (run' : Run) (w : World) :
  makeWorkspace run s = (true, run', w) → fs_exists w (workspaceOf s run) = true.
Proof.
  unfold makeWorkspace.
  destruct (fs_exists (world s) (workspaceOf s run)) eqn:Hex; [by intros [= _ <-]|].
  destruct (create_directory _ _) as [made w1] eqn:Hmk.
  destruct made; [|discriminate]. intros [= _ <-].
  apply create_directory_made in Hmk as (Hdir & _).
  unfold is_directory in Hdir. apply bool_decide_eq_true in Hdir.
  unfold fs_exists. apply bool_decide_eq_true. by apply elem_of_union_l.
Qed.

Lemma handleRunStep_runDir (r : Run) :
  runDir (handleRunStep r) = runDir r ∧ build (handleRunStep r) = build r.
Proof.
  unfold handleRunStep, step.
  destruct (scripts r); [done|].
  by destruct (decide (result r = SUCCESS)).
Qed.

Lemma addScripts_runDir (s : Laminar) (n : Node) (w : World) (r : Run) :
  runDir (addScripts s n w r) = runDir r.
Proof.
  unfold addScripts, addScript.
  repeat (match goal with |- context [fs_exists ?w ?p] => destruct (fs_exists w p) end);
    done.
Qed.

Lemma addEnvs_runDir (s : Laminar) (n : Node) (w : World) (r : Run) :
  runDir (addEnvs s n w r) = runDir r.
Proof.
  unfold addEnvs, addEnv.
  repeat (match goal with |- context [fs_exists ?w ?p] => destruct (fs_exists w p) end);
    done.
Qed.

Lemma addTimeout_runDir (w : World) (r : Run) : runDir (addTimeout w r) = runDir r.
Proof.
  unfold addTimeout.
  destruct (List.find _ _) as [[? conf]|]; [|done].
  by case_bool_decide.
Qed.

(** X15 (a started run has its directories). When [tryStartRun] starts a
    run, the run has the next build number of its job, which is now the
    number recorded for the job; its run directory is
    [home/run/job/number], and this directory, the archive directory
    [home/archive/job/number] and the workspace of the job exist. *)
Theorem started_run_has_its_directories (run : Run) (qi : Z) (s : Laminar) (run' : Run)
    (s' : Laminar) :
  tryStartRun run qi s = (true, run', s') →
  build run' = nextBuildNum s run ∧
  buildNums s' !! name run = Some (nextBuildNum s run) ∧
  runDir run' = homeDir s </> "run" </> name run </> pretty (nextBuildNum s run) ∧
  is_directory (world s') (runDir run') = true ∧
  is_directory (world s') (homeDir s </> "archive" </> name run </> pretty (nextBuildNum s run))
    = true ∧
  fs_exists (world s') (homeDir s </> "run" </> name run </> "workspace") = true.
Proof.
  unfold tryStartRun. destruct (acceptingNode s run) as [[a n]|]; [|discriminate].
  unfold startRun.
  destruct (makeWorkspace run s) as [[ok1 r1] w1] eqn:Hws.
  destruct ok1; [|discriminate].
  pose proof (makeWorkspace_exists _ _ _ _ Hws) as Hwork.
  apply makeWorkspace_frame in Hws as [(_ & Hname & _) _].
  assert (Hnum : nextBuildNum s r1 = nextBuildNum s run).
  { unfold nextBuildNum. by rewrite Hname. }
  assert (Hrd : runDirOf s r1 = homeDir s </> "run" </> name run </> pretty (nextBuildNum s run)).
  { unfold runDirOf. by rewrite Hnum, Hname. }
  assert (Har : archiveOf s r1
                = homeDir s </> "archive" </> name run </> pretty (nextBuildNum s run)).
  { unfold archiveOf. by rewrite Hnum, Hname. }
  rewrite Hnum, Hrd, Har.
  destruct (makeRunDir _ w1) as [ok2 w2] eqn:Hmk.
  destruct ok2; [|discriminate].
  apply makeRunDir_made in Hmk as [Hdir2 Hkeep2].
  destruct (makeArchive _ w2) as [ok3 w3] eqn:Hma.
  destruct ok3; [|discriminate].
  apply makeArchive_made in Hma as (Hdir3 & Hkeepd & Hkeepf).
  unfold launch.
  match goal with |- context [addTimeout ?w ?r] =>
    pose proof (addTimeout_runDir w r) as Ht;
    pose proof (addTimeout_same w r) as (_ & Htn & _); set (r4 := addTimeout w r) in * end.
  rewrite addEnvs_runDir, addScripts_runDir in Ht. simpl in Ht.
  assert (Hname4 : name r4 = name run).
  { rewrite Htn.
    match goal with |- name (addEnvs ?s ?n ?w ?r) = _ =>
      destruct (addEnvs_same s n w r) as (_ & -> & _) end.
    match goal with |- name (addScripts ?s ?n ?w ?r) = _ =>
      destruct (addScripts_same s n w r) as (_ & -> & _) end.
    exact Hname. }
  intros [= <- <-].
  match goal with |- context [handleRunStep ?r] =>
    destruct (handleRunStep_runDir r) as [-> ->] end.
  simpl. rewrite Ht, Hname4.
  split; [done|]. split; [by rewrite lookup_insert_eq|]. split; [done|].
  split; [by apply Hkeepd|]. split; [exact Hdir3|].
  apply Hkeepf, Hkeep2; [apply workspace_apart | exact Hwork].
Qed.

End Started.

(** The queued run of [Sample.ready] is started as build 1 of [j]. *)
Lemma started_run_has_its_directories_witness :
  let s := Sample.ready in
  let r := tryStartRun (H := Sample.externals) Sample.run0 0 s in
  r.1.1 = true ∧
  build r.1.2 = 1 ∧ runDir r.1.2 = "/h/run/j/1" ∧
  is_directory (world r.2) (runDir r.1.2) = true.
Proof.
  intros s r.
  assert (Hr : tryStartRun (H := Sample.externals) Sample.run0 0 s = (true, r.1.2, r.2))
    by (vm_compute; reflexivity).
  assert (Hk : nextBuildNum s Sample.run0 = 1) by (vm_compute; reflexivity).
  assert (Hd : homeDir s </> "run" </> name Sample.run0 </> pretty (nextBuildNum s Sample.run0)
               = "/h/run/j/1") by (vm_compute; reflexivity).
  pose proof (started_run_has_its_directories (E := Sample.externals) Sample.run0 0 s
                r.1.2 r.2 Hr) as (Hb & _ & Hrd & Hdir & _).
  rewrite Hk in Hb. rewrite Hd in Hrd.
  split; [vm_compute; reflexivity|].
  exact (conj Hb (conj Hrd Hdir)).
Defined.

(** ** Status requests do not interfere with scheduling *)

Lemma foldl_touch_default {V} (d : V) (l : list string) (m : gmap string V) (j : string) :
  default d (foldl (λ m k, touch k d m) m l !! j) = default d (m !! j).
Proof.
  revert m. induction l as [|k l IH]; intros m; [done|].
  simpl. by rewrite IH, touch_default.
Qed.

Section StatusRequests.
Context `{E : Externals}.

Lemma sendStatus_frame (c : LaminarClient) (s : Laminar) :
  homeDir (sendStatus c s) = homeDir s ∧ world (sendStatus c s) = world s ∧
  heap (sendStatus c s) = heap s ∧ nodes (sendStatus c s) = nodes s ∧
  queuedJobs (sendStatus c s) = queuedJobs s ∧ activeJobs (sendStatus c s) = activeJobs s ∧
  db (sendStatus c s) = db s ∧ nextRun (sendStatus c s) = nextRun s ∧
  (∀ j, default ∅ (jobTags (sendStatus c s) !! j) = default ∅ (jobTags s !! j)) ∧
  (∀ j, default 0 (buildNums (sendStatus c s) !! j) = default 0 (buildNums s !! j)) ∧
  ∃ ms, (length ms ≤ 1)%nat ∧ trace (sendStatus c s) = trace s ++ map (Status (cid c)) ms.
Proof.
  assert (Hnone : ∃ ms, (length ms ≤ 1)%nat ∧ trace s = trace s ++ map (Status (cid c)) ms).
  { exists []. simpl. split; [lia | by rewrite app_nil_r]. }
  assert (Hone : ∀ m, ∃ ms, (length ms ≤ 1)%nat ∧
                   trace s ++ [Status (cid c) m] = trace s ++ map (Status (cid c)) ms).
  { intros m. exists [m]. simpl. split; [lia | done]. }
  unfold sendStatus. destruct (stype (scope c)).
  - repeat (split; [done|]). apply Hone.
  - repeat (split; [done|]). split; [intros j; apply foldl_touch_default|].
    split; [done | apply Hone].
  - repeat (split; [done|]). apply Hone.
  - repeat (split; [done|]). split; [intros j; apply touch_default | apply Hone].
  - destruct (activeRun s _ _); [repeat (split; [done|]); apply Hone|].
    destruct (findBuild _ _ _); [|by repeat (split; [done|])].
    destruct (fetchLog _ _); [|by repeat (split; [done|])].
    repeat (split; [done|]). apply Hone.
Qed.

(** X16 (a status request does not interfere). [sendStatus] answers with at
    most one message, addressed to the client that asked. It leaves the
    nodes, the queue, the active runs and the stored rows as they are, and
    although it may add default entries to [jobTags] and [buildNums], every
    node takes the same runs as before and every job gets the same next
    build number as before. *)
Theorem status_request_does_not_interfere (c : LaminarClient) (s : Laminar) :
  heap (sendStatus c s) = heap s ∧ nodes (sendStatus c s) = nodes s ∧
  queuedJobs (sendStatus c s) = queuedJobs s ∧ activeJobs (sendStatus c s) = activeJobs s ∧
  db (sendStatus c s) = db s ∧
  (∀ n run, nodeCanQueue (sendStatus c s) n run = nodeCanQueue s n run) ∧
  (∀ run, nextBuildNum (sendStatus c s) run = nextBuildNum s run) ∧
  ∃ ms, (length ms ≤ 1)%nat ∧ trace (sendStatus c s) = trace s ++ map (Status (cid c)) ms.
Proof.
  destruct (sendStatus_frame c s)
    as (_ & _ & Hh & Hn & Hq & Ha & Hdb & _ & Htags & Hnums & Htrace).
  repeat (split; [done|]). split; [|split; [|exact Htrace]].
  - intros n run. by apply nodeCanQueue_ext.
  - intros run. unfold nextBuildNum. by rewrite Hnums.
Qed.

End StatusRequests.

(** ** The scheduler is work-conserving *)

Section WorkConservation.
Context `{E : Externals}.





End WorkConservation.


(** ** Build numbers *)

Lemma Numbered_weaken (n m : nat) (s : Laminar) :
  (m ≤ n)%nat → Numbered n s → Numbered m s.
Proof.
  intros Hle (Hnd & Hle' & Hrange). split; [done|]. split; [done|].
  intros j. destruct (Hrange j). lia.
Qed.

Lemma Numbered_frame (n : nat) (s s' : Laminar) :
  keys s' = keys s → (∀ j, latest s' j = latest s j) → Numbered n s → Numbered n s'.
Proof.
  intros Hk Hl (Hnd & Hle & Hrange). unfold Numbered. rewrite Hk.
  split; [done|]. split.
  - intros k Hin. rewrite Hl. by apply Hle.
  - intros j. rewrite Hl. apply Hrange.
Qed.

Lemma latest_touch (s s' : Laminar) (k : string) :
  buildNums s' = touch k 0 (buildNums s) → ∀ j, latest s' j = latest s j.
Proof. intros Hb j. unfold latest. rewrite Hb. apply touch_default. Qed.

Lemma runKey_updateRun (r : nat) (f : Run → Run) (l : list Run) :
  (∀ x, runKey (f x) = runKey x) → map runKey (updateRun r f l) = map runKey l.
Proof.
  intros Hf. unfold updateRun. rewrite map_map. apply map_ext.
  intros x. by destruct (bool_decide (rid x = r)).
Qed.

Lemma handleRunStep_key (r : Run) : runKey (handleRunStep r) = runKey r.
Proof.
  unfold handleRunStep, step.
  destruct (scripts r); [done|].
  by destruct (decide (result r = SUCCESS)).
Qed.

Lemma reaped_key (st : Z) (r : Run) : runKey (reaped st r) = runKey r.
Proof. unfold reaped. by destruct (decide (result r = ABORTED)). Qed.

(** In a list without two runs of the same job and number, the run with a
    given job and number is determined. *)
Lemma runKey_determines (l : list Run) (x y : Run) :
  NoDup (map runKey l) → x ∈ l → y ∈ l → runKey x = runKey y → x = y.
Proof.
  induction l as [|z l IH]; intros Hnd Hx Hy Hk; [by apply elem_of_nil in Hx|].
  simpl in Hnd. apply NoDup_cons in Hnd as [Hz Hnd].
  apply elem_of_cons in Hx as [-> | Hx]; apply elem_of_cons in Hy as [-> | Hy]; try done.
  - exfalso. apply Hz. rewrite Hk. by apply (list_elem_of_fmap_2 runKey).
  - exfalso. apply Hz. rewrite <- Hk. by apply (list_elem_of_fmap_2 runKey).
  - by apply IH.
Qed.

Section Numbering.
Context `{E : Externals}.

Lemma tryStartRun_number (run : Run) (qi : Z) (s : Laminar) (run' : Run) (s' : Laminar) :
  tryStartRun run qi s = (true, run', s') →
  runKey run' = (name run, nextBuildNum s run) ∧
  buildNums s' = <[name run := nextBuildNum s run]> (touch (name run) 0 (buildNums s)).
Proof.
  unfold tryStartRun. destruct (acceptingNode s run) as [[a n]|]; [|discriminate].
  unfold startRun.
  destruct (makeWorkspace run s) as [[ok1 r1] w1] eqn:Hws.
  destruct ok1; [|discriminate].
  apply makeWorkspace_frame in Hws as [(_ & Hname & _) _].
  assert (Hnum : nextBuildNum s r1 = nextBuildNum s run).
  { unfold nextBuildNum. by rewrite Hname. }
  rewrite Hnum.
  destruct (makeRunDir _ w1) as [ok2 w2].
  destruct ok2; [|discriminate].
  destruct (makeArchive _ w2) as [ok3 w3].
  destruct ok3; [|discriminate].
  unfold launch.
  match goal with |- context [addTimeout ?w ?r] =>
    pose proof (addTimeout_same w r) as (_ & Htn & _); set (r4 := addTimeout w r) in * end.
  assert (Hname4 : name r4 = name run).
  { rewrite Htn.
    match goal with |- name (addEnvs ?s ?n ?w ?r) = _ =>
      destruct (addEnvs_same s n w r) as (_ & -> & _) end.
    match goal with |- name (addScripts ?s ?n ?w ?r) = _ =>
      destruct (addScripts_same s n w r) as (_ & -> & _) end.
    exact Hname. }
  intros [= <- <-]. rewrite handleRunStep_key.
  unfold runKey. simpl. by rewrite Hname4, Hname.
Qed.

Lemma tryStartRun_false_latest (run : Run) (qi : Z) (s : Laminar) (run' : Run)
    (s' : Laminar) :
  tryStartRun run qi s = (false, run', s') → ∀ j, latest s' j = latest s j.
Proof.
  unfold tryStartRun. destruct (acceptingNode s run) as [[a n]|]; [|by intros [= _ <-]].
  unfold startRun.
  destruct (makeWorkspace run s) as [[ok1 r1] w1].
  destruct ok1; [|by intros [= _ <-]].
  destruct (makeRunDir _ w1) as [ok2 w2].
  destruct ok2; [|intros [= _ <-]; by apply (latest_touch s _ (name r1))].
  destruct (makeArchive _ w2) as [ok3 w3].
  destruct ok3; [|intros [= _ <-]; by apply (latest_touch s _ (name r1))].
  unfold launch. discriminate.
Qed.

(** A build that starts while the counters have slack gets a number that
    no stored row and no active run of its job has. *)
Lemma Numbered_start (n : nat) (s s' : Laminar) (run' : Run) (j : string) :
  Numbered (S n) s →
  runKey run' = (j, to_uint (latest s j + 1)) →
  buildNums s' = <[j := to_uint (latest s j + 1)]> (touch j 0 (buildNums s)) →
  db s' = db s → activeJobs s' = activeJobs s ++ [run'] →
  Numbered n s'.
Proof.
  intros (Hnd & Hle & Hrange) Hkey Hnums Hdb Hact.
  destruct (Hrange j) as [H0 Hj].
  assert (Hnext : to_uint (latest s j + 1) = latest s j + 1).
  { apply to_uint_id. lia. }
  rewrite Hnext in Hkey, Hnums.
  assert (Hlatest : ∀ i, latest s' i = if decide (i = j) then latest s j + 1 else latest s i).
  { intros i. unfold latest at 1. rewrite Hnums.
    destruct (decide (i = j)) as [-> | Hne].
    - by rewrite lookup_insert_eq.
    - rewrite lookup_insert_ne by done. apply touch_default. }
  assert (Hkeys : keys s' = keys s ++ [(j, latest s j + 1)]).
  { unfold keys. by rewrite Hdb, Hact, map_app, app_assoc, <- Hkey. }
  unfold Numbered. rewrite Hkeys. split; [|split].
  - apply NoDup_app. split; [exact Hnd|]. split; [|apply NoDup_singleton].
    intros k Hk Hin. apply list_elem_of_singleton in Hin as ->.
    apply Hle in Hk. simpl in Hk. lia.
  - intros k Hk. rewrite Hlatest. apply elem_of_app in Hk as [Hk | Hk].
    + apply Hle in Hk. destruct (decide (k.1 = j)) as [Heq | _]; [rewrite Heq in Hk; lia | done].
    + apply list_elem_of_singleton in Hk as ->. simpl. by rewrite decide_True.
  - intros i. rewrite Hlatest. destruct (Hrange i).
    destruct (decide (i = j)); lia.
Qed.

Lemma assignLoop_numbered (n : nat) (todo kept : list Run) (s : Laminar) :
  Numbered (length kept + length todo + n) s →
  Numbered (length (queuedJobs (assignLoop kept todo s)) + n) (assignLoop kept todo s).
Proof.
  revert kept s. induction todo as [|run rest IH]; intros kept s Hs.
  { simpl in *. eapply Numbered_weaken; [|by eapply (Numbered_frame _ s)]. lia. }
  simpl. destruct (tryStartRun run _ s) as [[ok run'] s'] eqn:Hst. destruct ok.
  - pose proof (tryStartRun_number _ _ _ _ _ Hst) as [Hkey Hnums].
    apply tryStartRun_true in Hst
      as (a & nd & _ & _ & _ & _ & _ & _ & _ & _ & Hact & Hdb & _).
    apply IH.
    apply (Numbered_start _ s _ run' (name run)); [|exact Hkey|exact Hnums|exact Hdb|].
    + eapply Numbered_weaken; [|exact Hs]. simpl. lia.
    + simpl. by rewrite Hact.
  - pose proof (tryStartRun_false_latest _ _ _ _ _ Hst) as Hlatest.
    apply tryStartRun_false in Hst as [_ (_ & _ & _ & _ & _ & Hact & _ & _ & Hdb & _)].
    apply IH. eapply Numbered_weaken; [|eapply (Numbered_frame _ s); [| exact Hlatest | exact Hs]].
    + rewrite length_app. simpl. lia.
    + unfold keys. by rewrite Hdb, Hact.
Qed.

Lemma findBuild_None (rows : list BuildRow) (j : string) (k : Z) :
  (j, k) ∉ map rowKey rows → findBuild rows j k = None.
Proof.
  unfold findBuild. induction rows as [|row rows IH]; intros Hk; [done|].
  simpl in *. apply not_elem_of_cons in Hk as [Hne Hk].
  rewrite bool_decide_false; [by apply IH|].
  intros [<- <-]. by apply Hne.
Qed.

Lemma Numbered_finish (n : nat) (s s' : Laminar) (run : Run) (row : BuildRow) :
  Numbered n s → run ∈ activeJobs s →
  db s' = db s ++ [row] → rowKey row = runKey run →
  activeJobs s' = filter (λ x, rid x ≠ rid run) (activeJobs s) →
  (∀ j, latest s' j = latest s j) →
  Numbered n s'.
Proof.
  intros (Hnd & Hle & Hrange) Hrun Hdb Hkey Hact Hlatest.
  unfold keys in Hnd. apply NoDup_app in Hnd as (HA & HAB & HB).
  assert (Hsub : map runKey (filter (λ x, rid x ≠ rid run) (activeJobs s))
                   `sublist_of` map runKey (activeJobs s)).
  { apply (fmap_sublist runKey), sublist_filter. }
  assert (Hk : runKey run ∈ map runKey (activeJobs s)) by (by apply (list_elem_of_fmap_2 runKey)).
  assert (Hkeys : keys s' = map rowKey (db s)
                            ++ runKey run :: map runKey (filter (λ x, rid x ≠ rid run)
                                                           (activeJobs s))).
  { unfold keys. rewrite Hdb, Hact, map_app. simpl. by rewrite Hkey, <- app_assoc. }
  assert (Hin : ∀ k, k ∈ keys s' → k ∈ keys s).
  { intros k. rewrite Hkeys. unfold keys. rewrite !elem_of_app, elem_of_cons.
    intros [HkA | [-> | HkF]]; [by left | by right|].
    right. by eapply elem_of_sublist. }
  split; [|split].
  - rewrite Hkeys. apply NoDup_app. split; [exact HA|]. split.
    + intros k HkA HkF. apply (HAB k HkA).
      apply elem_of_cons in HkF as [-> | HkF]; [done | by eapply elem_of_sublist].
    + apply NoDup_cons. split; [|by eapply sublist_NoDup].
      intros HkF. apply list_elem_of_fmap in HkF as (y & Hy & Hyin).
      apply list_elem_of_filter in Hyin as [Hrid Hyin].
      apply Hrid. f_equal. symmetry.
      by apply (runKey_determines (activeJobs s)).
  - intros k Hkin. rewrite Hlatest. by apply Hle, Hin.
  - intros j. rewrite Hlatest. apply Hrange.
Qed.

(** A run that finishes in a state with build numbers in order is
    recorded: the table has no row with its job and number yet. *)
Lemma finishRun_numbered (n : nat) (run : Run) (s : Laminar) :
  run ∈ activeJobs s → Numbered n s →
  Numbered n (finishRun run s) ∧
  ∃ row,
    db (finishRun run s) = db s ++ [row] ∧
    rowKey row = runKey run ∧ b_result row = result run ∧
    b_output row = (persistLog (log run)).1 ∧ b_outputLen row = (persistLog (log run)).2.
Proof.
  intros Hrun Hs.
  assert (Hnone : findBuild (db s) (name run) (build run) = None).
  { apply findBuild_None. destruct Hs as (Hnd & _).
    unfold keys in Hnd. apply NoDup_app in Hnd as (_ & HAB & _).
    intros Hin. apply (HAB _ Hin). by apply (list_elem_of_fmap_2 runKey). }
  assert (Hshape : ∃ row,
             db (finishRun run s) = db s ++ [row] ∧
             rowKey row = runKey run ∧ b_result row = result run ∧
             b_output row = (persistLog (log run)).1 ∧
             b_outputLen row = (persistLog (log run)).2 ∧
             activeJobs (finishRun run s) = filter (λ x, rid x ≠ rid run) (activeJobs s) ∧
             ∀ j, latest (finishRun run s) j = latest s j).
  { unfold finishRun.
    destruct (persistLog (log run)) as [maybeZipped logsize].
    unfold insertBuild. simpl. rewrite Hnone. simpl.
    match goal with |- context [db s ++ [?new]] => exists new end.
    repeat (split; [done|]).
    intros j. unfold latest. simpl.
    destruct (filter _ (filter _ _)); [apply touch_default | done]. }
  destruct Hshape as (row & Hdb & Hkey & Hres & Hout & Hlen & Hact & Hlatest).
  split; [by eapply (Numbered_finish n s _ run row)|].
  by exists row.
Qed.

Lemma finishRun_queue (run : Run) (s : Laminar) :
  queuedJobs (finishRun run s) = queuedJobs s.
Proof.
  unfold finishRun.
  destruct (persistLog (log run)) as [maybeZipped logsize].
  by destruct (insertBuild _ (db _)) as [rows ins].
Qed.

Lemma loadNodes_numbers (l : list (string * NodeConf)) (s : Laminar) (known : gset string) :
  db (foldl loadNode (s, known) l).1 = db s ∧
  buildNums (foldl loadNode (s, known) l).1 = buildNums s.
Proof.
  revert s known. induction l as [|entry l IH]; intros s known; [done|].
  change (foldl loadNode (s, known) (entry :: l))
    with (foldl loadNode (loadNode (s, known) entry) l).
  destruct (loadNode (s, known) entry) as [s1 known1] eqn:Hstep.
  destruct (IH s1 known1) as [-> ->]. revert Hstep. destruct entry as [nm conf].
  unfold loadNode. destruct (nodes s !! nm); by intros [= <- _].
Qed.

Lemma loadJobs_numbers (l : list (string * JobConf)) (s : Laminar) :
  db (foldl loadJob s l) = db s ∧ buildNums (foldl loadJob s l) = buildNums s.
Proof.
  revert s. induction l as [|[jname conf] l IH]; intros s; [done|].
  change (foldl loadJob s ((jname, conf) :: l))
    with (foldl loadJob (loadJob s (jname, conf)) l).
  destruct (IH (loadJob s (jname, conf))) as [-> ->].
  unfold loadJob. by destruct (decide (jc_TAGS conf = EmptyString)).
Qed.

Lemma loadConfiguration_numbers (s : Laminar) :
  db (loadConfiguration s) = db s ∧ buildNums (loadConfiguration s) = buildNums s.
Proof.
  unfold loadConfiguration.
  set (s0 := match keepRunDirs (world s) with
             | Some ndirs => with_numKeepRunDirs (to_uint (atoi ndirs)) s
             | None => s
             end).
  assert (H0 : db s0 = db s ∧ buildNums s0 = buildNums s).
  { subst s0. by destruct (keepRunDirs (world s)). }
  destruct H0 as [Hd0 Hb0].
  pose proof (loadNodes_numbers (nodeConfs (world s0)) s0 ∅) as H1.
  destruct (foldl loadNode (s0, ∅) (nodeConfs (world s0))) as [s1 knownNodes].
  simpl in H1. destruct H1 as [Hd1 Hb1].
  set (kept := filter _ (nodes s1)).
  set (s2 := with_nodes kept s1).
  set (s3 := if decide (nodes s2 = ∅) then _ else s2).
  assert (H3 : db s3 = db s1 ∧ buildNums s3 = buildNums s1).
  { subst s3. by destruct (decide (nodes s2 = ∅)). }
  destruct H3 as [Hd3 Hb3].
  destruct (loadJobs_numbers (jobConfs (world s3)) s3) as [-> ->].
  split; congruence.
Qed.

Lemma assignNewJobs_numbered (n : nat) (s : Laminar) :
  Numbered (length (queuedJobs s) + n) s →
  Numbered (length (queuedJobs (assignNewJobs s)) + n) (assignNewJobs s).
Proof. intros Hs. by apply (assignLoop_numbered n (queuedJobs s) [] s). Qed.

(** One callback uses up at most one unit of the slack of the counters. *)
Lemma react_numbered (n : nat) (s : Laminar) (i : Input) :
  Numbered (length (queuedJobs s) + S n) s →
  Numbered (length (queuedJobs (react s i)) + n) (react s i).
Proof.
  intros Hs.
  assert (Hless : Numbered (length (queuedJobs s) + n) s).
  { eapply Numbered_weaken; [|exact Hs]. lia. }
  assert (Hsame : ∀ s', queuedJobs s' = queuedJobs s → keys s' = keys s →
                        (∀ j, latest s' j = latest s j) →
                        Numbered (length (queuedJobs s') + n) s').
  { intros s' Hq Hk Hl. rewrite Hq. by apply (Numbered_frame _ s). }
  assert (Hupd : ∀ r f, (∀ x, runKey (f x) = runKey x) →
                        keys (with_activeJobs (updateRun r f (activeJobs s)) s) = keys s).
  { intros r f Hf. unfold keys. simpl. by rewrite runKey_updateRun. }
  destruct i; try (by apply Hsame); simpl.
  - unfold queueJob. destruct (negb _); simpl; [exact Hless|].
    apply assignNewJobs_numbered. simpl. rewrite length_app. simpl.
    eapply Numbered_weaken; [|eapply (Numbered_frame _ s); [| |exact Hs]]; [lia|done|done].
  - unfold notifyConfigChanged.
    destruct (loadConfiguration_numbers s) as [Hdb Hnums].
    destruct (loadConfiguration_keeps s) as [(Hq & Hact & _) _].
    apply assignNewJobs_numbered. rewrite Hq.
    apply (Numbered_frame _ s); [| |exact Hless].
    + unfold keys. by rewrite Hdb, Hact.
    + intros j. unfold latest. by rewrite Hnums.
  - unfold onData. destruct (activeById s r) as [run|]; [|exact Hless].
    destruct (phase run); try exact Hless.
    apply Hsame; [done| |done]. by apply (Hupd r).
  - unfold onEof. destruct (activeById s r) as [run|]; [|exact Hless].
    destruct (phase run) as [|[st|]| |]; try exact Hless.
    + apply Hsame; [done| |done]. apply (Hupd r).
      intros x. by rewrite handleRunStep_key, reaped_key.
    + apply Hsame; [done| |done]. by apply (Hupd r).
  - unfold onExit. destruct (activeById s r) as [run|]; [|exact Hless].
    destruct (phase run) as [|[st|]| |]; try exact Hless.
    + apply Hsame; [done| |done]. by apply (Hupd r).
    + apply Hsame; [done| |done]. apply (Hupd r).
      intros x. by rewrite handleRunStep_key, reaped_key.
  - unfold resume. destruct (activeById s r) as [run|] eqn:Hrun; [|exact Hless].
    destruct (phase run) as [|[st|]| |]; try exact Hless.
    apply activeById_Some in Hrun as [Hrun _].
    unfold runFinished. apply assignNewJobs_numbered.
    destruct (finishRun_numbered (length (queuedJobs s) + n) run s Hrun Hless) as [Hfin _].
    by rewrite finishRun_queue.
  - apply (Hsame (with_activeJobs (updateRun r abort (activeJobs s)) s)); [done| |done].
    by apply (Hupd r).
  - apply (Hsame (abortAll s)); [done| |done]. unfold abortAll, keys. simpl.
    by rewrite map_map.
  - unfold setParam. destruct (activeRun s jname buildNum); [|exact Hless].
    apply Hsame; [done| |done]. by apply (Hupd (rid r)).
  - destruct (sendStatus_frame c s) as (_ & _ & _ & _ & Hq & Ha & Hdb & _ & _ & Hnums & _).
    apply Hsame; [done | unfold keys; by rewrite Hdb, Ha | exact Hnums].
Qed.

End Numbering.

Lemma to_uint_nonneg (z : Z) : 0 ≤ to_uint z.
Proof. unfold to_uint. apply Z.mod_pos_bound. lia. Qed.

(** [SELECT name, MAX(number) ... GROUP BY name]: continuing from the
    numbers [m], every job ends with a number that is at least the number
    of each of its rows, and that is the number it had or that of one of
    its rows. *)
Lemma lastBuildNums_fold (rows : list BuildRow) (m : gmap string Z) :
  let step := λ (m : gmap string Z) row,
                let k' := to_uint (b_number row) in
                match m !! b_name row with
                | Some k => if bool_decide (k < k') then <[b_name row := k']> m else m
                | None => <[b_name row := k']> m
                end in
  (∀ j, 0 ≤ default 0 (m !! j)) →
  (∀ j, default 0 (m !! j) ≤ default 0 (foldl step m rows !! j)) ∧
  (∀ row, row ∈ rows → to_uint (b_number row) ≤ default 0 (foldl step m rows !! b_name row)) ∧
  (∀ j, default 0 (foldl step m rows !! j) = default 0 (m !! j) ∨
        ∃ row, row ∈ rows ∧ b_name row = j ∧
               default 0 (foldl step m rows !! j) = to_uint (b_number row)).
Proof.
  intros step. revert m. induction rows as [|row rows IH]; intros m Hm.
  { simpl. split; [done|]. split; [by intros row ?%elem_of_nil | by left]. }
  change (foldl step m (row :: rows)) with (foldl step (step m row) rows).
  pose proof (to_uint_nonneg (b_number row)) as Hk.
  assert (Hstep : (∀ j, default 0 (m !! j) ≤ default 0 (step m row !! j)) ∧
                  to_uint (b_number row) ≤ default 0 (step m row !! b_name row) ∧
                  ∀ j, default 0 (step m row !! j) = default 0 (m !! j) ∨
                       (b_name row = j ∧
                        default 0 (step m row !! j) = to_uint (b_number row))).
  { unfold step. specialize (Hm (b_name row)).
    destruct (m !! b_name row) as [k|] eqn:Hlook; simpl in Hm.
    - case_bool_decide as Hlt.
      + split; [|split].
        * intros j. destruct (decide (j = b_name row)) as [-> | Hne].
          -- rewrite lookup_insert_eq, Hlook. simpl. lia.
          -- by rewrite lookup_insert_ne.
        * by rewrite lookup_insert_eq.
        * intros j. destruct (decide (j = b_name row)) as [-> | Hne].
          -- right. by rewrite lookup_insert_eq.
          -- left. by rewrite lookup_insert_ne.
      + split; [done|]. split; [rewrite Hlook; simpl; lia | by left].
    - split; [|split].
      + intros j. destruct (decide (j = b_name row)) as [-> | Hne].
        * rewrite lookup_insert_eq, Hlook. simpl. lia.
        * by rewrite lookup_insert_ne.
      + by rewrite lookup_insert_eq.
      + intros j. destruct (decide (j = b_name row)) as [-> | Hne].
        * right. by rewrite lookup_insert_eq.
        * left. by rewrite lookup_insert_ne. }
  destruct Hstep as (Hmono1 & Hrow1 & Hfrom1).
  destruct (IH (step m row)) as (Hmono & Hrows & Hfrom).
  { intros j. specialize (Hm j). specialize (Hmono1 j). lia. }
  split; [|split].
  - intros j. specialize (Hmono1 j). specialize (Hmono j). lia.
  - intros r Hr. apply elem_of_cons in Hr as [-> | Hr]; [|by apply Hrows].
    specialize (Hmono (b_name row)). lia.
  - intros j. destruct (Hfrom j) as [Heq | (r & Hr & Hname & Heq)].
    + destruct (Hfrom1 j) as [Heq1 | [Hname Heq1]].
      * left. congruence.
      * right. exists row. split; [by left|]. split; [done | congruence].
    + right. exists r. split; [by right | done].
Qed.

Section NumberingReachable.
Context `{E : Externals}.

Lemma construct_numbered (n : nat) (home : string) (w : World) (rows : list BuildRow) :
  NoDup (map rowKey rows) →
  (∀ row, row ∈ rows → 0 ≤ b_number row ∧ b_number row + Z.of_nat n < 2 ^ 32) →
  Z.of_nat n < 2 ^ 32 →
  queuedJobs (construct home w rows) = [] ∧ Numbered n (construct home w rows).
Proof.
  intros Hnd Hrows Hn. unfold construct.
  match goal with |- context [loadConfiguration ?s0] => set (s := s0) end.
  destruct (loadConfiguration_numbers s) as [Hdb Hnums].
  destruct (loadConfiguration_keeps s) as [(Hq & Hact & _) _].
  split; [by rewrite Hq|].
  apply (Numbered_frame n s).
  { unfold keys. by rewrite Hdb, Hact. }
  { intros j. unfold latest. by rewrite Hnums. }
  assert (Hspec : (∀ row, row ∈ rows →
                      to_uint (b_number row) ≤ default 0 (lastBuildNums rows !! b_name row)) ∧
                   ∀ j, default 0 (lastBuildNums rows !! j) = 0 ∨
                        ∃ row, row ∈ rows ∧
                               default 0 (lastBuildNums rows !! j) = to_uint (b_number row)).
  { destruct (lastBuildNums_fold rows ∅) as (_ & Hmax & Hfrom);
      [intros j; by rewrite lookup_empty|].
    split; [exact Hmax|]. intros j.
    destruct (Hfrom j) as [Heq | (row & Hrow & _ & Heq)].
    - left. rewrite lookup_empty in Heq. exact Heq.
    - right. exists row. split; [exact Hrow | exact Heq]. }
  destruct Hspec as [Hmax Hfrom].
  assert (Hrange : ∀ row, row ∈ rows → to_uint (b_number row) = b_number row).
  { intros row Hrow. apply to_uint_id. destruct (Hrows row Hrow). lia. }
  assert (Hlatest : ∀ j, latest s j = default 0 (lastBuildNums rows !! j)) by done.
  assert (Hkeys : keys s = map rowKey rows).
  { unfold keys. subst s. simpl. by rewrite app_nil_r. }
  unfold Numbered. rewrite Hkeys.
  split; [exact Hnd|]. split.
  - intros k Hk. apply list_elem_of_fmap in Hk as (row & -> & Hrow).
    rewrite Hlatest. simpl. rewrite <- (Hrange row Hrow). by apply Hmax.
  - intros j. rewrite Hlatest. destruct (Hfrom j) as [Heq | (row & Hrow & Heq)].
    + rewrite Heq. lia.
    + rewrite Heq, (Hrange row Hrow). destruct (Hrows row Hrow). lia.
Qed.

Lemma run_numbered (inputs : list Input) (n : nat) (s : Laminar) :
  Numbered (length (queuedJobs s) + (length inputs + n)) s →
  Numbered (length (queuedJobs (foldl react s inputs)) + n) (foldl react s inputs).
Proof.
  revert s. induction inputs as [|i inputs IH]; intros s Hs; [exact Hs|].
  simpl. apply IH. by apply react_numbered.
Qed.

(** X18 (build numbers are never reused). Started on a table whose rows
    have distinct keys and numbers far enough from the end of [uint] for
    the callbacks that follow, the scheduler never has two builds with the
    same job and number among its stored rows and active runs, and none of
    them has a number above the latest number of its job. *)
Theorem build_numbers_are_unique (home : string) (w : World) (rows : list BuildRow)
    (inputs : list Input) :
  NoDup (map rowKey rows) →
  (∀ row, row ∈ rows →
     0 ≤ b_number row ∧ b_number row + Z.of_nat (length inputs) < 2 ^ 32) →
  Z.of_nat (length inputs) < 2 ^ 32 →
  NoDup (keys (foldl react (construct home w rows) inputs)) ∧
  ∀ k, k ∈ keys (foldl react (construct home w rows) inputs) →
       k.2 ≤ latest (foldl react (construct home w rows) inputs) k.1.
Proof.
  intros Hnd Hrows Hn.
  destruct (construct_numbered (length inputs) home w rows Hnd Hrows Hn) as [Hq Hstart].
  destruct (run_numbered inputs 0 (construct home w rows)) as (Hkeys & Hle & _).
  { rewrite Hq. simpl. by rewrite Nat.add_0_r. }
  done.
Qed.

(** X19 (every finished build is recorded). Under the same conditions, when
    a run whose last step is done finishes, the INSERT of its row does not
    meet a row with the same key: the table gains exactly one row, with
    the job, number and result of the run and with its log as
    [runFinished] packs it. *)
Theorem finished_build_is_recorded (home : string) (w : World) (rows : list BuildRow)
    (inputs : list Input) (r : nat) (run : Run) :
  NoDup (map rowKey rows) →
  (∀ row, row ∈ rows →
     0 ≤ b_number row ∧ b_number row + Z.of_nat (length inputs) < 2 ^ 32) →
  Z.of_nat (length inputs) < 2 ^ 32 →
  activeById (foldl react (construct home w rows) inputs) r = Some run →
  phase run = Ready →
  ∃ row,
    db (react (foldl react (construct home w rows) inputs) (Resume r))
    = db (foldl react (construct home w rows) inputs) ++ [row] ∧
    rowKey row = runKey run ∧ b_result row = result run ∧
    b_output row = (persistLog (log run)).1 ∧ b_outputLen row = (persistLog (log run)).2.
Proof.
  intros Hnd Hrows Hn Hrun Hready.
  destruct (construct_numbered (length inputs) home w rows Hnd Hrows Hn) as [Hq Hstart].
  pose proof (run_numbered inputs 0 (construct home w rows)) as Hs.
  rewrite Hq in Hs. simpl in Hs. rewrite Nat.add_0_r in Hs. specialize (Hs Hstart).
  set (s := foldl react (construct home w rows) inputs) in *.
  simpl. unfold resume. rewrite Hrun, Hready.
  apply activeById_Some in Hrun as [Hin _].
  destruct (finishRun_numbered _ run s Hin Hs) as [_ (row & Hdb & Hrest)].
  exists row. split; [|exact Hrest].
  unfold runFinished, assignNewJobs. by rewrite assignLoop_db.
Qed.

End NumberingReachable.

(** Two builds of [j] run on an empty table: they are builds 1 and 2. *)
Lemma build_numbers_are_unique_witness :
  let inputs := [QueueJob "j" ∅; QueueJob "j" ∅] in
  let s := foldl (react (H := Sample.externals)) (construct "/h" (Sample.world1 2 "") [])
                 inputs in
  keys s = [("j", 1); ("j", 2)] ∧ NoDup (keys s).
Proof.
  intros inputs s.
  assert (Hkeys : keys s = [("j", 1); ("j", 2)]) by (vm_compute; reflexivity).
  assert (Hnd : NoDup (map rowKey [])) by constructor.
  assert (Hrows : ∀ row : BuildRow, row ∈ [] →
            0 ≤ b_number row ∧ b_number row + Z.of_nat (length inputs) < 2 ^ 32)
    by (intros row Hrow; exfalso; exact (proj1 (elem_of_nil row) Hrow)).
  assert (Hn : Z.of_nat (length inputs) < 2 ^ 32) by reflexivity.
  exact (conj Hkeys
           (proj1 (build_numbers_are_unique (E := Sample.externals) "/h" (Sample.world1 2 "")
                     [] inputs Hnd Hrows Hn))).
Defined.

(** The build of [j] that wrote [hi] and exited with 0 is recorded as
    build 1 of [j] with result SUCCESS. *)
Lemma finished_build_is_recorded_witness :
  let inputs := [QueueJob "j" ∅; PipeData 0 "hi"; ChildExit 0 0; PipeEof 0] in
  let s := foldl (react (H := Sample.externals)) (construct "/h" (Sample.world1 1 "") [])
                 inputs in
  (activeById s 0 = Some Scenario.finishingRun ∧ phase Scenario.finishingRun = Ready ∧
   runKey Scenario.finishingRun = ("j", 1) ∧ result Scenario.finishingRun = SUCCESS) ∧
  ∃ row,
    db (react (H := Sample.externals) s (Resume 0)) = db s ++ [row] ∧
    rowKey row = runKey Scenario.finishingRun ∧ b_result row = result Scenario.finishingRun ∧
    b_output row = (persistLog (H := Sample.externals) (log Scenario.finishingRun)).1 ∧
    b_outputLen row = (persistLog (H := Sample.externals) (log Scenario.finishingRun)).2.
Proof.
  intros inputs s.
  assert (Hrun : activeById s 0 = Some Scenario.finishingRun) by (vm_compute; reflexivity).
  assert (Hready : phase Scenario.finishingRun = Ready) by (vm_compute; reflexivity).
  assert (Hkey : runKey Scenario.finishingRun = ("j", 1)) by (vm_compute; reflexivity).
  assert (Hres : result Scenario.finishingRun = SUCCESS) by (vm_compute; reflexivity).
  assert (Hnd : NoDup (map rowKey [])) by constructor.
  assert (Hrows : ∀ row : BuildRow, row ∈ [] →
            0 ≤ b_number row ∧ b_number row + Z.of_nat (length inputs) < 2 ^ 32)
    by (intros row Hrow; exfalso; exact (proj1 (elem_of_nil row) Hrow)).
  assert (Hn : Z.of_nat (length inputs) < 2 ^ 32) by reflexivity.
  exact (conj (conj Hrun (conj Hready (conj Hkey Hres)))
           (finished_build_is_recorded (E := Sample.externals) "/h" (Sample.world1 1 "") []
              inputs 0%nat Scenario.finishingRun Hnd Hrows Hn Hrun Hready)).
Defined.

Section ReadBack.
Context `{E : Externals}.

Lemma activeRun_None (s : Laminar) (j : string) (k : Z) :
  (j, k) ∉ map runKey (activeJobs s) → activeRun s j k = None.
Proof.
  unfold activeRun. induction (activeJobs s) as [|x l IH]; intros Hk; [done|].
  simpl in *. apply not_elem_of_cons in Hk as [Hne Hk].
  rewrite bool_decide_false; [by apply IH|].
  intros [<- <-]. by apply Hne.
Qed.

Lemma stored_log_served (c : LaminarClient) (s : Laminar) (row : BuildRow) (m : string) :
  stype (scope c) = LOG →
  activeRun s (job (scope c)) (num (scope c)) = None →
  findBuild (db s) (job (scope c)) (num (scope c)) = Some row →
  fetchLog (b_output row) (b_outputLen row) = Some m →
  trace (sendStatus c s) = trace s ++ [Status (cid c) (raw m)].
Proof. intros Hty Hact Hrow Hm. unfold sendStatus. by rewrite Hty, Hact, Hrow, Hm. Qed.

(** X20 (the log of a finished build can be read back). Started on a table
    whose rows have distinct keys and numbers far enough from the end of
    [uint], the scheduler answers a client of LOG scope that asks for a
    build right after it finished with the log the run collected, when
    that log is shorter than 1024 bytes. *)
Theorem finished_log_can_be_read_back (home : string) (w : World) (rows : list BuildRow)
    (inputs : list Input) (r : nat) (run : Run) (c : LaminarClient) :
  NoDup (map rowKey rows) →
  (∀ row, row ∈ rows →
     0 ≤ b_number row ∧ b_number row + Z.of_nat (length inputs + 1) < 2 ^ 32) →
  Z.of_nat (length inputs + 1) < 2 ^ 32 →
  activeById (foldl react (construct home w rows) inputs) r = Some run →
  phase run = Ready →
  stype (scope c) = LOG → job (scope c) = name run → num (scope c) = build run →
  Z.of_nat (String.length (log run)) < COMPRESS_LOG_MIN_SIZE →
  trace (sendStatus c (react (foldl react (construct home w rows) inputs) (Resume r)))
  = trace (react (foldl react (construct home w rows) inputs) (Resume r))
    ++ [Status (cid c) (raw (log run))].
Proof.
  intros Hnd Hrows Hn Hrun Hready Hty Hjob Hnum Hshort.
  destruct (construct_numbered (length inputs + 1) home w rows Hnd Hrows Hn) as [Hq Hstart].
  pose proof (run_numbered inputs 1 (construct home w rows)) as Hs.
  rewrite Hq in Hs. specialize (Hs Hstart).
  set (s := foldl react (construct home w rows) inputs) in *.
  pose proof (react_numbered 0 s (Resume r) Hs) as (Hnd' & _).
  assert (Hs0 : Numbered 0 s) by (eapply Numbered_weaken; [|exact Hs]; lia).
  destruct (activeById_Some s r run Hrun) as [Hin _].
  destruct (finishRun_numbered 0 run s Hin Hs0) as [_ (row & Hdb & Hkey & _ & Hout & Hlen)].
  assert (Hdb' : db (react s (Resume r)) = db s ++ [row]).
  { simpl. unfold resume. rewrite Hrun, Hready.
    unfold runFinished, assignNewJobs. by rewrite assignLoop_db. }
  assert (Hname : b_name row = name run) by (by injection Hkey).
  assert (Hnumber : b_number row = build run) by (by injection Hkey).
  assert (Hfresh : (name run, build run) ∉ map rowKey (db s)).
  { destruct Hs0 as (Hk & _). unfold keys in Hk. apply NoDup_app in Hk as (_ & HAB & _).
    intros Hrow. apply (HAB _ Hrow). by apply (list_elem_of_fmap_2 runKey). }
  apply (stored_log_served c _ row); [exact Hty| | |].
  - rewrite Hjob, Hnum. apply activeRun_None.
    unfold keys in Hnd'. apply NoDup_app in Hnd' as (_ & HAB & _).
    intros Hact. refine (HAB (name run, build run) _ Hact).
    rewrite Hdb', map_app. apply elem_of_app. right. simpl.
    apply list_elem_of_singleton. symmetry. exact Hkey.
  - rewrite Hjob, Hnum, Hdb', <- Hname, <- Hnumber.
    apply findBuild_app_new. rewrite Hname, Hnumber. by apply findBuild_None.
  - rewrite Hout, Hlen. by apply fetchLog_raw.
Qed.

End ReadBack.

(** The build of [j] that wrote [hi] finishes, and the client that asks
    for the log of build 1 of [j] gets [hi]. *)
Lemma finished_log_can_be_read_back_witness :
  let inputs := [QueueJob "j" ∅; PipeData 0 "hi"; ChildExit 0 0; PipeEof 0] in
  let s := foldl (react (H := Sample.externals)) (construct "/h" (Sample.world1 1 "") [])
                 inputs in
  let s' := react (H := Sample.externals) s (Resume 0) in
  (activeById s 0 = Some Scenario.finishingRun ∧ phase Scenario.finishingRun = Ready ∧
   log Scenario.finishingRun = "hi") ∧
  trace (sendStatus (H := Sample.externals) Scenario.logClient s')
  = trace s' ++ [Status (cid Scenario.logClient) (raw (log Scenario.finishingRun))].
Proof.
  intros inputs s s'.
  assert (Hrun : activeById s 0 = Some Scenario.finishingRun) by (vm_compute; reflexivity).
  assert (Hready : phase Scenario.finishingRun = Ready) by (vm_compute; reflexivity).
  assert (Hlog : log Scenario.finishingRun = "hi") by (vm_compute; reflexivity).
  assert (Hjob : job (scope Scenario.logClient) = name Scenario.finishingRun)
    by (vm_compute; reflexivity).
  assert (Hnum : num (scope Scenario.logClient) = build Scenario.finishingRun)
    by (vm_compute; reflexivity).
  assert (Hshort : Z.of_nat (String.length (log Scenario.finishingRun)) < COMPRESS_LOG_MIN_SIZE)
    by (vm_compute; reflexivity).
  assert (Hnd : NoDup (map rowKey [])) by constructor.
  assert (Hrows : ∀ row : BuildRow, row ∈ [] →
            0 ≤ b_number row ∧ b_number row + Z.of_nat (length inputs + 1) < 2 ^ 32)
    by (intros row Hrow; exfalso; exact (proj1 (elem_of_nil row) Hrow)).
  assert (Hn : Z.of_nat (length inputs + 1) < 2 ^ 32) by reflexivity.
  exact (conj (conj Hrun (conj Hready Hlog))
           (finished_log_can_be_read_back (E := Sample.externals) "/h" (Sample.world1 1 "") []
              inputs 0%nat Scenario.finishingRun Scenario.logClient
              Hnd Hrows Hn Hrun Hready eq_refl Hjob Hnum Hshort)).
Defined.
